(** * DEF writer (odb/src/defout): a shallow embedding and its properties

    The development follows [defout.h] and [defout_impl.cpp]: the writer
    object [defout_impl] with its members, the output stream and the logger
    threaded through a small state-and-abort monad, and one Rocq function per
    C++ member function.

    Integers are [Z]; the selection maps [dbMap<T, char>] are [gmap]s from
    object ids to [Z] that read 0 where nothing was stored; the property
    registry [std::map<std::string, bool>] is a [gmap string bool]. *)

From Stdlib Require Import ZArith String Ascii List Bool Lia.
From Stdlib Require Import DecimalString.
From stdpp Require Import base option gmap strings list sorting.

Local Open Scope string_scope.
Local Open Scope Z_scope.

(** ** Text helpers *)

(** The characters [printf] escapes stand for. *)
Definition nl : string := String (ascii_of_nat 10) EmptyString.
Definition dquote : string := String (ascii_of_nat 34) EmptyString.

(** [%d] and [%u]. *)
Definition fmt_d (z : Z) : string := NilZero.string_of_int (Z.to_int z).

(** [%c]. *)
Definition fmt_c (c : ascii) : string := String c EmptyString.

(** [contains pat s]: [pat] occurs in [s] as a substring. *)
Fixpoint contains (pat s : string) : bool :=
  String.prefix pat s ||
  match s with
  | EmptyString => false
  | String _ rest => contains pat rest
  end.

(** Number of positions of [s] at which [pat] starts. *)
Fixpoint occurrences (pat s : string) : nat :=
  ((if String.prefix pat s then 1 else 0) +
   match s with
   | EmptyString => 0
   | String _ rest => occurrences pat rest
   end)%nat.

(** ** defout.h *)

Module defout.

(** [enum Version], enumerators in the order of their declaration. *)
Inductive Version : Set :=
| DEF_5_8
| DEF_5_7
| DEF_5_6
| DEF_5_5
| DEF_5_4
| DEF_5_3.

(** The integer value C++ gives each enumerator: its position in the
    declaration, from 0. *)
Definition value (v : Version) : Z :=
  match v with
  | DEF_5_8 => 0
  | DEF_5_7 => 1
  | DEF_5_6 => 2
  | DEF_5_5 => 3
  | DEF_5_4 => 4
  | DEF_5_3 => 5
  end.

(** The relational operators of an unscoped enum compare these values. *)
Definition version_lt (a b : Version) : bool := value a <? value b.
Definition version_le (a b : Version) : bool := value a <=? value b.
Definition version_gt (a b : Version) : bool := value b <? value a.
Definition version_ge (a b : Version) : bool := value b <=? value a.
Definition version_eq (a b : Version) : bool := value a =? value b.

(** The minor number of the format release an enumerator names, as the
    [VERSION] line of [writeBlock] prints it: 5.3 ... 5.8. *)
Definition minor (v : Version) : Z :=
  match v with
  | DEF_5_3 => 3
  | DEF_5_4 => 4
  | DEF_5_5 => 5
  | DEF_5_6 => 6
  | DEF_5_7 => 7
  | DEF_5_8 => 8
  end.

End defout.

Import defout.

(** ** Database objects read by the writer (odb/db.h) *)

Inductive dbOrientType := R0 | R90 | R180 | R270 | MY | MYR90 | MX | MXR90.

Inductive dbSourceType :=
| SRC_NONE | SRC_NETLIST | SRC_DIST | SRC_USER | SRC_TIMING | SRC_TEST.

Inductive dbPlacementStatus :=
| PS_NONE | PS_UNPLACED | PS_SUGGESTED | PS_PLACED | PS_LOCKED | PS_FIRM
| PS_COVER.

Inductive dbWireType :=
| WT_NONE | WT_COVER | WT_FIXED | WT_ROUTED | WT_SHIELD | WT_NOSHIELD.

Inductive dbWireShapeType :=
| WS_NONE | WS_RING | WS_PADRING | WS_BLOCKRING | WS_STRIPE | WS_FOLLOWPIN
| WS_IOWIRE | WS_COREWIRE | WS_BLOCKWIRE | WS_BLOCKAGEWIRE | WS_FILLWIRE
| WS_DRCFILL.

Record Rect := { r_xMin : Z; r_yMin : Z; r_xMax : Z; r_yMax : Z }.

Record dbTechLayer := {
  layer_name : string;
  layer_alias : option string          (* hasAlias / getAlias *)
}.

(** A property value; a double carries the text [%G] renders for it. *)
Inductive dbPropValue :=
| STRING_PROP (v : string)
| INT_PROP (v : Z)
| DOUBLE_PROP (rendered : string)
| BOOL_PROP (v : bool).

Record dbProperty := {
  prop_name : string;
  prop_value : dbPropValue;
  prop_children : list (string * dbPropValue)   (* MIN, MAX, VALUE *)
}.

Record dbBox := {
  box_rect : Rect;
  box_layer : dbTechLayer;
  box_mask : Z                           (* getLayerMask *)
}.

Record dbMaster := { master_name : string; master_id : Z }.

Record dbRegion := { region_name : string; region_boundaries : list Rect }.

Record dbInst := {
  inst_id : nat;
  inst_name : string;
  inst_master : dbMaster;
  inst_source : dbSourceType;
  inst_x : Z;
  inst_y : Z;
  inst_orient : dbOrientType;
  inst_status : dbPlacementStatus;
  inst_weight : Z;
  inst_region : option dbRegion;
  inst_props : list dbProperty;
  inst_halo : option Rect
}.

Record dbITerm := {
  iterm_inst : dbInst;
  iterm_mterm : string;                  (* mterm->getName(inst, buf) *)
  iterm_special : bool;
  iterm_props : list dbProperty
}.

Record dbBPin := {
  bpin_boxes : list dbBox;
  bpin_status : dbPlacementStatus;
  bpin_effective_width : option Z;
  bpin_min_spacing : option Z
}.

(** A net as a pin sees it: identity and name. *)
Record netRef := { nr_id : nat; nr_name : string }.

Record dbBTerm := {
  bterm_name : string;
  bterm_net : option netRef;
  bterm_special : bool;
  bterm_io : string;                     (* dbIoType::getString *)
  bterm_sig : string;                    (* dbSigType::getString *)
  bterm_supply : option string;          (* name of getSupplyPin *)
  bterm_ground : option string;          (* name of getGroundPin *)
  bterm_bpins : list dbBPin;
  bterm_props : list dbProperty
}.

Record dbTechNonDefaultRule := { ndr_id : nat; ndr_name : string }.

(** Pointer equality of rules is equality of identities. *)
Definition ndr_same (a b : dbTechNonDefaultRule) : bool :=
  Nat.eqb (ndr_id a) (ndr_id b).

Record dbTechLayerRule := {
  lr_non_default_rule : dbTechNonDefaultRule   (* getNonDefaultRule *)
}.

Record dbTechVia := { tvia_name : string; tvia_bottom : dbTechLayer }.

(** A block via.  A rotated via names the via it rotates: a technology via
    when [via_tech_via] is set, and a block via otherwise. *)
Record dbVia := {
  via_name : string;
  via_rotated : bool;                    (* isViaRotated *)
  via_tech_via : option dbTechVia;       (* getTechVia *)
  via_block_via : string;                (* getBlockVia()->getName() *)
  via_orient : dbOrientType;
  via_bottom : dbTechLayer
}.

(** *** The decoded wire (odb/dbWireCodec.h)

    [dbWireDecoder] hands out one opcode at a time, with getters for what
    the opcode carries.  A wire is the list of what [next] returns up to
    [END_DECODE], each entry with the colour state the decoder has there. *)
Module dbWireDecoder.

Inductive OpCode :=
| PATH | JUNCTION | SHORT | VWIRE | POINT | POINT_EXT | VIA | TECH_VIA
| RECT | ITERM | BTERM | RULE | END_DECODE.

Record ViaColor := { top_color : Z; cut_color : Z; bottom_color : Z }.

Inductive event :=
| E_START (op : OpCode) (layer : dbTechLayer) (wire_type : dbWireType)
| E_POINT (x y : Z)
| E_POINT_EXT (x y ext : Z)
| E_VIA (via : dbVia)
| E_TECH_VIA (via : dbTechVia)
| E_RECT (deltaX1 deltaY1 deltaX2 deltaY2 : Z)
| E_ITERM
| E_BTERM
| E_RULE (rule : dbTechLayerRule).

Record decoded := {
  d_event : event;
  d_color : option Z;                  (* getColor *)
  d_viacolor : option ViaColor         (* getViaColor *)
}.

(** The opcode [next] returns for an entry; [E_START] carries one of
    [PATH], [SHORT], [VWIRE], [JUNCTION]. *)
Definition opcode (d : decoded) : OpCode :=
  match d_event d with
  | E_START op _ _ => op
  | E_POINT _ _ => POINT
  | E_POINT_EXT _ _ _ => POINT_EXT
  | E_VIA _ => VIA
  | E_TECH_VIA _ => TECH_VIA
  | E_RECT _ _ _ _ => RECT
  | E_ITERM => ITERM
  | E_BTERM => BTERM
  | E_RULE _ => RULE
  end.

(** [peek]: the opcode the following [next] will return. *)
Definition peek (rest : list decoded) : OpCode :=
  match rest with
  | [] => END_DECODE
  | d :: _ => opcode d
  end.

Definition is_RULE (op : OpCode) : bool :=
  match op with RULE => true | _ => false end.

End dbWireDecoder.

Import dbWireDecoder.

Record dbWire := {
  wire_events : list decoded;
  wire_net_type : dbWireType             (* getNet()->getWireType() *)
}.

(** *** Special wires *)

Inductive sboxDirection :=
| UNDEFINED | HORIZONTAL | VERTICAL | OCTILINEAR
| DIR_OTHER.                             (* a value that names none of them *)

Record Oct := {
  oct_center_low : Z * Z;
  oct_center_high : Z * Z;
  oct_width : Z
}.

Inductive sboxVia :=
| SB_TECH_VIA (v : dbTechVia)
| SB_BLOCK_VIA (v : dbVia).

Record dbSBox := {
  sbox_rect : Rect;
  sbox_layer : dbTechLayer;
  sbox_mask : Z;
  sbox_direction : sboxDirection;
  sbox_oct : Oct;
  sbox_shape : dbWireShapeType;
  sbox_is_via : bool;
  sbox_via : option sboxVia;
  sbox_via_xy : Z * Z;
  sbox_via_masks : option (Z * Z * Z)    (* top, cut, bottom *)
}.

Record dbSWire := {
  swire_type : dbWireType;
  swire_shield : option string;          (* name of getShield *)
  swire_wires : list dbSBox
}.

Record dbNet := {
  net_id : nat;
  net_name : string;
  net_special : bool;
  net_mark_1ed : bool;
  net_wild_connected : bool;
  net_iterms : list dbITerm;
  net_bterms : list string;              (* names of getBTerms *)
  net_xtalk : Z;
  net_sig : string;
  net_ndr : option dbTechNonDefaultRule;
  net_wire : option dbWire;
  net_swires : list dbSWire;
  net_source : dbSourceType;
  net_fixed_bump : bool;
  net_weight : Z;
  net_props : list dbProperty
}.

Inductive dieArea :=
| DIE_RECT (r : Rect)
| DIE_POLYGON (points : list (Z * Z)).

(** A block.  Rows, track and gcell grids, block vias, non-default rules,
    regions, the component mask shift, blockages, fills, groups and scan
    chains are left out: their section writers print nothing for a block
    that has none of them, and the blocks of this development have none. *)
Record dbBlock := {
  block_name : string;
  block_hier_delimiter : ascii;
  block_bus_delimiters : ascii * ascii;
  block_def_units : Z;
  block_prop_defs : option (list (string * list dbProperty));
  block_die_area : dieArea;
  block_insts : list dbInst;
  block_bterms : list dbBTerm;
  block_iterms : list dbITerm;
  block_nets : list dbNet
}.

(** ** The writer object (defout_impl.h) *)

Inductive ObjType :=
| COMPONENT | COMPONENTPIN | DESIGN | GROUP | NET | NONDEFAULTRULE | REGION
| ROW | SPECIALNET.

Global Instance ObjType_eq_dec : EqDecision ObjType.
Proof. solve_decision. Defined.

Record defout_impl := {
  _version : Version;
  _use_alias : bool;
  _use_net_inst_ids : bool;
  _use_master_ids : bool;
  _select_net_list : list dbNet;
  _select_inst_list : list dbInst;
  _select_net_map : option (gmap nat Z);
  _select_inst_map : option (gmap nat Z);
  _prop_defs : ObjType -> gmap string bool;
  _non_default_rule : option dbTechNonDefaultRule;
  _out : option string;                  (* FILE*: none is the null stream *)
  _logger : list string                  (* the warnings, oldest first *)
}.

(** [dbMap<T, char>::operator[]]: a slot nothing was written to holds 0. *)
Definition dbMap_get (m : gmap nat Z) (id : nat) : Z := default 0 (m !! id).

Definition set_select_net_map (v : option (gmap nat Z)) (w : defout_impl) :=
  {| _version := _version w; _use_alias := _use_alias w;
     _use_net_inst_ids := _use_net_inst_ids w;
     _use_master_ids := _use_master_ids w;
     _select_net_list := _select_net_list w;
     _select_inst_list := _select_inst_list w;
     _select_net_map := v; _select_inst_map := _select_inst_map w;
     _prop_defs := _prop_defs w; _non_default_rule := _non_default_rule w;
     _out := _out w; _logger := _logger w |}.

Definition set_select_inst_map (v : option (gmap nat Z)) (w : defout_impl) :=
  {| _version := _version w; _use_alias := _use_alias w;
     _use_net_inst_ids := _use_net_inst_ids w;
     _use_master_ids := _use_master_ids w;
     _select_net_list := _select_net_list w;
     _select_inst_list := _select_inst_list w;
     _select_net_map := _select_net_map w; _select_inst_map := v;
     _prop_defs := _prop_defs w; _non_default_rule := _non_default_rule w;
     _out := _out w; _logger := _logger w |}.

Definition set_prop_defs (v : ObjType -> gmap string bool) (w : defout_impl) :=
  {| _version := _version w; _use_alias := _use_alias w;
     _use_net_inst_ids := _use_net_inst_ids w;
     _use_master_ids := _use_master_ids w;
     _select_net_list := _select_net_list w;
     _select_inst_list := _select_inst_list w;
     _select_net_map := _select_net_map w;
     _select_inst_map := _select_inst_map w;
     _prop_defs := v; _non_default_rule := _non_default_rule w;
     _out := _out w; _logger := _logger w |}.

Definition set_non_default_rule (v : option dbTechNonDefaultRule)
    (w : defout_impl) :=
  {| _version := _version w; _use_alias := _use_alias w;
     _use_net_inst_ids := _use_net_inst_ids w;
     _use_master_ids := _use_master_ids w;
     _select_net_list := _select_net_list w;
     _select_inst_list := _select_inst_list w;
     _select_net_map := _select_net_map w;
     _select_inst_map := _select_inst_map w;
     _prop_defs := _prop_defs w; _non_default_rule := v;
     _out := _out w; _logger := _logger w |}.

Definition set_out (v : option string) (w : defout_impl) :=
  {| _version := _version w; _use_alias := _use_alias w;
     _use_net_inst_ids := _use_net_inst_ids w;
     _use_master_ids := _use_master_ids w;
     _select_net_list := _select_net_list w;
     _select_inst_list := _select_inst_list w;
     _select_net_map := _select_net_map w;
     _select_inst_map := _select_inst_map w;
     _prop_defs := _prop_defs w; _non_default_rule := _non_default_rule w;
     _out := v; _logger := _logger w |}.

Definition set_logger (v : list string) (w : defout_impl) :=
  {| _version := _version w; _use_alias := _use_alias w;
     _use_net_inst_ids := _use_net_inst_ids w;
     _use_master_ids := _use_master_ids w;
     _select_net_list := _select_net_list w;
     _select_inst_list := _select_inst_list w;
     _select_net_map := _select_net_map w;
     _select_inst_map := _select_inst_map w;
     _prop_defs := _prop_defs w; _non_default_rule := _non_default_rule w;
     _out := _out w; _logger := v |}.

(** A writer as the constructor leaves it and the setters configure it:
    empty selection lists, no maps, no registered property, no stream. *)
Definition new_writer (v : Version) (alias net_inst_ids master_ids : bool)
    : defout_impl :=
  {| _version := v; _use_alias := alias;
     _use_net_inst_ids := net_inst_ids; _use_master_ids := master_ids;
     _select_net_list := []; _select_inst_list := [];
     _select_net_map := None; _select_inst_map := None;
     _prop_defs := fun _ => ∅; _non_default_rule := None;
     _out := None; _logger := [] |}.

(** [selectNet]: a null net is ignored. *)
Definition selectNet (net : option dbNet) (w : defout_impl) : defout_impl :=
  match net with
  | None => w
  | Some n =>
      {| _version := _version w; _use_alias := _use_alias w;
         _use_net_inst_ids := _use_net_inst_ids w;
         _use_master_ids := _use_master_ids w;
         _select_net_list := _select_net_list w ++ [n];
         _select_inst_list := _select_inst_list w;
         _select_net_map := _select_net_map w;
         _select_inst_map := _select_inst_map w;
         _prop_defs := _prop_defs w;
         _non_default_rule := _non_default_rule w;
         _out := _out w; _logger := _logger w |}
  end.

(** ** The monad of the member functions

    A member function runs on the writer object and either returns, or
    leaves by a [ZException], or stops at a failed [assert], or uses the
    null stream, or reads a vector past its end; the object is kept in every
    case, with what was written up to there. *)

Inductive abort :=
| ZException (msg : string)
| AssertionFailed
| NullStream
| OutOfRange.

Inductive res (A : Type) :=
| Ret (a : A) (w : defout_impl)
| Abort (e : abort) (w : defout_impl).
Arguments Ret {A} a w.
Arguments Abort {A} e w.

Definition M (A : Type) : Type := defout_impl -> res A.

Global Instance M_ret : MRet M := fun A a w => Ret a w.
Global Instance M_bind : MBind M := fun A B f m w =>
  match m w with
  | Ret a w' => f a w'
  | Abort e w' => Abort e w'
  end.

Definition get : M defout_impl := fun w => Ret w w.
Definition modify (f : defout_impl -> defout_impl) : M unit :=
  fun w => Ret tt (f w).
Definition throw {A} (msg : string) : M A := fun w => Abort (ZException msg) w.

(** [fprintf(_out, ...)] with the formatted text. *)
Definition fprintf (text : string) : M unit := fun w =>
  match _out w with
  | Some written => Ret tt (set_out (Some (written +:+ text)) w)
  | None => Abort NullStream w
  end.

(** The writer after [text] went to its stream. *)
Definition emit (text : string) (w : defout_impl) : defout_impl :=
  set_out (option_map (fun s => s +:+ text) (_out w)) w.

(** [_logger->warn(utl::ODB, id, ...)] with the formatted message. *)
Definition warn (msg : string) : M unit :=
  modify (fun w => set_logger (_logger w ++ [msg]) w).

(** A [for] loop over a container. *)
Fixpoint for_each {A} (l : list A) (body : A -> M unit) : M unit :=
  match l with
  | [] => mret tt
  | x :: rest => body x ;; for_each rest body
  end.

Definition when (b : bool) (body : M unit) : M unit :=
  if b then body else mret tt.

(** ** defout_impl.cpp *)

Section Writer.

(** [defdist] (defout_impl.h) scales a database distance by [_dist_factor],
    a floating-point quotient; it is taken as given.  So are the keywords
    [dbWireType::getString] and [dbWireShapeType::getString] return. *)
Variable defdist : Z -> Z.
Variable wireTypeString : dbWireType -> string.
Variable shapeTypeString : dbWireShapeType -> string.

Definition defOrient (orient : dbOrientType) : string :=
  match orient with
  | R0 => "N"
  | R90 => "W"
  | R180 => "S"
  | R270 => "E"
  | MY => "FN"
  | MYR90 => "FE"
  | MX => "FS"
  | MXR90 => "FW"
  end.

(** The alias of a layer when aliases are asked for and it has one. *)
Definition layerName (use_alias : bool) (layer : dbTechLayer) : string :=
  match use_alias, layer_alias layer with
  | true, Some a => a
  | _, _ => layer_name layer
  end.

(** [sortedSet]: the objects by name, in the order of [std::string]'s [<]. *)
Fixpoint insert_by_name {T} (name : T -> string) (x : T) (l : list T)
    : list T :=
  match l with
  | [] => [x]
  | y :: rest =>
      if String.ltb (name x) (name y) then x :: l
      else y :: insert_by_name name x rest
  end.

Definition sortedSet {T} (name : T -> string) (to_sort : list T) : list T :=
  fold_right (insert_by_name name) [] to_sort.

(** *** Properties *)

Definition writePropValue (v : dbPropValue) : M unit :=
  match v with
  | STRING_PROP s => fprintf (dquote +:+ s +:+ dquote +:+ " ")
  | INT_PROP i => fprintf (fmt_d i +:+ " ")
  | DOUBLE_PROP g => fprintf (g +:+ " ")
  | BOOL_PROP _ => mret tt
  end.

(** [writeProperties]: every property of the object, name then value.  The
    counter [cnt] is never advanced, so the line break on every fourth
    property is never taken. *)
Definition writeProperties (props : list dbProperty) : M unit :=
  let cnt := 0 in
  for_each props (fun prop =>
    when (negb (cnt =? 0) && (Z.land cnt 3 =? 0))
      (fprintf (nl +:+ "    ")) ;;
    fprintf (prop_name prop +:+ " ") ;;
    writePropValue (prop_value prop)).

(** [hasProperties]: some property of the object has a registered name. *)
Definition hasProperties (w : defout_impl) (props : list dbProperty)
    (type : ObjType) : bool :=
  existsb (fun prop => bool_decide (is_Some (_prop_defs w type !! prop_name prop)))
    props.

(** [if (hasProperties(object, type)) { fprintf(_out, " + PROPERTY ");
    writeProperties(object); }], as the record writers have it. *)
Definition writePropertyClause (props : list dbProperty) (type : ObjType)
    : M unit :=
  w ← get;
  when (hasProperties w props type)
    (fprintf " + PROPERTY " ;; writeProperties props).

(** The text [writePropValue] and [writeProperties] produce. *)
Definition propValueText (v : dbPropValue) : string :=
  match v with
  | STRING_PROP s => dquote +:+ s +:+ dquote +:+ " "
  | INT_PROP i => fmt_d i +:+ " "
  | DOUBLE_PROP g => g +:+ " "
  | BOOL_PROP _ => EmptyString
  end.

Fixpoint propertiesText (props : list dbProperty) : string :=
  match props with
  | [] => EmptyString
  | prop :: rest =>
      prop_name prop +:+ " " +:+ propValueText (prop_value prop)
      +:+ propertiesText rest
  end.

Definition objTypeOfName (objType : string) : option ObjType :=
  if String.eqb objType "COMPONENT" then Some COMPONENT
  else if String.eqb objType "COMPONENTPIN" then Some COMPONENTPIN
  else if String.eqb objType "DESIGN" then Some DESIGN
  else if String.eqb objType "GROUP" then Some GROUP
  else if String.eqb objType "NET" then Some NET
  else if String.eqb objType "NONDEFAULTRULE" then Some NONDEFAULTRULE
  else if String.eqb objType "REGION" then Some REGION
  else if String.eqb objType "ROW" then Some ROW
  else if String.eqb objType "SPECIALNET" then Some SPECIALNET
  else None.

(** [dbProperty::find(prop, name)] among the children of a property. *)
Fixpoint findChild (name : string) (children : list (string * dbPropValue))
    : option dbPropValue :=
  match children with
  | [] => None
  | (n, v) :: rest => if String.eqb n name then Some v else findChild name rest
  end.

(** [defs_map[name] = true] in the registry of one category. *)
Definition registerProp (type : ObjType) (name : string) : M unit :=
  modify (fun w =>
    set_prop_defs
      (fun t => if decide (t = type) then <[name := true]> (_prop_defs w t)
                else _prop_defs w t) w).

Definition writePropertyDefinition (type : ObjType) (objType : string)
    (prop : dbProperty) : M unit :=
  let name := prop_name prop in
  registerProp type name ;;
  let keyword :=
    match prop_value prop with
    | STRING_PROP _ => Some "STRING "
    | INT_PROP _ => Some "INTEGER "
    | DOUBLE_PROP _ => Some "REAL "
    | BOOL_PROP _ => None
    end in
  match keyword with
  | None => mret tt
  | Some k =>
      fprintf (objType +:+ " " +:+ name +:+ " " +:+ k) ;;
      match findChild "MIN" (prop_children prop),
            findChild "MAX" (prop_children prop) with
      | Some minV, Some maxV =>
          fprintf "RANGE " ;; writePropValue minV ;; writePropValue maxV
      | _, _ => mret tt
      end ;;
      match findChild "VALUE" (prop_children prop) with
      | Some value => writePropValue value
      | None => mret tt
      end ;;
      fprintf (";" +:+ nl)
  end.

Definition writePropertyDefinitions (block : dbBlock) : M unit :=
  match block_prop_defs block with
  | None => mret tt
  | Some obj_types =>
      fprintf ("PROPERTYDEFINITIONS" +:+ nl) ;;
      for_each obj_types (fun obj =>
        match objTypeOfName (fst obj) with
        | None => mret tt
        | Some obj_type =>
            for_each (snd obj) (writePropertyDefinition obj_type (fst obj))
        end) ;;
      fprintf ("END PROPERTYDEFINITIONS" +:+ nl)
  end.

(** *** Components *)

Definition writeSource (source : dbSourceType) (test : bool) : M unit :=
  match source with
  | SRC_NONE => mret tt
  | SRC_NETLIST => fprintf " + SOURCE NETLIST"
  | SRC_DIST => fprintf " + SOURCE DIST"
  | SRC_USER => fprintf " + SOURCE USER"
  | SRC_TIMING => fprintf " + SOURCE TIMING"
  | SRC_TEST => when test (fprintf " + SOURCE TEST")
  end.

Definition fmt_point (x y : Z) : string :=
  "( " +:+ fmt_d x +:+ " " +:+ fmt_d y +:+ " )".

Definition writeInst (inst : dbInst) : M unit :=
  w ← get;
  let master := inst_master inst in
  let mname := master_name master in
  (if _use_net_inst_ids w then
     if _use_master_ids w then
       fprintf ("    - I" +:+ fmt_d (Z.of_nat (inst_id inst)) +:+ " M"
                +:+ fmt_d (master_id master))
     else
       fprintf ("    - I" +:+ fmt_d (Z.of_nat (inst_id inst)) +:+ " " +:+ mname)
   else
     let iname := inst_name inst in
     if _use_master_ids w then
       fprintf ("    - " +:+ iname +:+ " M" +:+ fmt_d (master_id master))
     else
       fprintf ("    - " +:+ iname +:+ " " +:+ mname)) ;;
  writeSource (inst_source inst) false ;;
  let x := defdist (inst_x inst) in
  let y := defdist (inst_y inst) in
  let orient := defOrient (inst_orient inst) in
  match inst_status inst with
  | PS_NONE => mret tt
  | PS_UNPLACED => fprintf " + UNPLACED"
  | PS_SUGGESTED | PS_PLACED =>
      fprintf (" + PLACED " +:+ fmt_point x y +:+ " " +:+ orient)
  | PS_LOCKED | PS_FIRM =>
      fprintf (" + FIXED " +:+ fmt_point x y +:+ " " +:+ orient)
  | PS_COVER =>
      fprintf (" + COVER " +:+ fmt_point x y +:+ " " +:+ orient)
  end ;;
  when (negb (inst_weight inst =? 0))
    (fprintf (" + WEIGHT " +:+ fmt_d (inst_weight inst))) ;;
  match inst_region inst with
  | Some region =>
      when (negb (bool_decide (region_boundaries region = [])))
        (fprintf (" + REGION " +:+ region_name region))
  | None => mret tt
  end ;;
  writePropertyClause (inst_props inst) COMPONENT ;;
  when (version_ge (_version w) DEF_5_6)
    match inst_halo inst with
    | Some box =>
        let left := defdist (r_xMin box) in
        let bottom := defdist (r_yMin box) in
        let right := defdist (r_xMax box) in
        let top := defdist (r_yMax box) in
        fprintf (" + HALO " +:+ fmt_d left +:+ " " +:+ fmt_d bottom +:+ " "
                 +:+ fmt_d right +:+ " " +:+ fmt_d top)
    | None => mret tt
    end ;;
  fprintf (" ;" +:+ nl).

(** The filters of the section writers: an object is skipped when the map
    exists and holds 0 for it. *)
Definition inst_skipped (w : defout_impl) (inst : dbInst) : bool :=
  match _select_inst_map w with
  | Some m => dbMap_get m (inst_id inst) =? 0
  | None => false
  end.

Definition net_skipped (w : defout_impl) (id : nat) : bool :=
  match _select_net_map w with
  | Some m => dbMap_get m id =? 0
  | None => false
  end.

Definition writeInsts (block : dbBlock) : M unit :=
  let insts := block_insts block in
  fprintf ("COMPONENTS " +:+ fmt_d (Z.of_nat (length insts)) +:+ " ;" +:+ nl) ;;
  for_each (sortedSet inst_name insts) (fun inst =>
    w ← get;
    if inst_skipped w inst then mret tt else writeInst inst) ;;
  fprintf ("END COMPONENTS" +:+ nl).

(** *** Pins *)

(** A [for] loop that also counts its rounds from 0 ([cnt++]). *)
Fixpoint for_each_from {A} (cnt : Z) (l : list A) (body : A -> Z -> M unit)
    : M unit :=
  match l with
  | [] => mret tt
  | x :: rest => body x cnt ;; for_each_from (cnt + 1) rest body
  end.

Definition fmt_rect (x1 y1 x2 y2 : Z) : string :=
  fmt_point x1 y1 +:+ " " +:+ fmt_point x2 y2.

(** [+ SUPPLYSENSITIVITY] and [+ GROUNDSENSITIVITY] of a pin. *)
Definition writeSensitivity (bterm : dbBTerm) : M unit :=
  w ← get;
  when (version_ge (_version w) DEF_5_6)
    (match bterm_supply bterm with
     | Some pname => fprintf (" + SUPPLYSENSITIVITY " +:+ pname)
     | None => mret tt
     end ;;
     match bterm_ground bterm with
     | Some pname => fprintf (" + GROUNDSENSITIVITY " +:+ pname)
     | None => mret tt
     end).

(** Where the first box of a pin puts the pin: its lower left corner plus
    half its extent; (0, 0) for a pin without boxes. *)
Definition bpinOrigin (boxes : list dbBox) : Z * Z :=
  match boxes with
  | [] => (0, 0)
  | box :: _ =>
      let r := box_rect box in
      let dw := defdist (Z.quot (r_xMax r - r_xMin r) 2) in
      let dh := defdist (Z.quot (r_yMax r - r_yMin r) 2) in
      (defdist (r_xMin r) + dw, defdist (r_yMin r) + dh)
  end.

Definition writeBPin (bterm : dbBTerm) (net : netRef) (bpin : dbBPin)
    (cnt : Z) : M unit :=
  w ← get;
  let bname := bterm_name bterm in
  when ((cnt =? 0) || version_le (_version w) DEF_5_6)
    ((if _use_net_inst_ids w then
        if cnt =? 0 then
          fprintf ("    - " +:+ bname +:+ " + NET N"
                   +:+ fmt_d (Z.of_nat (nr_id net)))
        else
          fprintf ("    - " +:+ bname +:+ ".extra" +:+ fmt_d cnt +:+ " + NET N"
                   +:+ fmt_d (Z.of_nat (nr_id net)))
      else
        let nname := nr_name net in
        if cnt =? 0 then
          fprintf ("    - " +:+ bname +:+ " + NET " +:+ nname)
        else
          fprintf ("    - " +:+ bname +:+ ".extra" +:+ fmt_d cnt +:+ " + NET "
                   +:+ nname)) ;;
     when (bterm_special bterm) (fprintf " + SPECIAL") ;;
     fprintf (" + DIRECTION " +:+ bterm_io bterm) ;;
     writeSensitivity bterm ;;
     fprintf (" + USE " +:+ bterm_sig bterm)) ;;
  fprintf (nl +:+ "      ") ;;
  when (version_gt (_version w) DEF_5_6) (fprintf "+ PORT") ;;
  let '(x, y) := bpinOrigin (bpin_boxes bpin) in
  for_each (bpin_boxes bpin) (fun box =>
    let r := box_rect box in
    let xMin := defdist (r_xMin r) - x in
    let yMin := defdist (r_yMin r) - y in
    let xMax := defdist (r_xMax r) - x in
    let yMax := defdist (r_yMax r) - y in
    let lname := layerName (_use_alias w) (box_layer box) in
    fprintf (nl +:+ "       ") ;;
    if version_eq (_version w) DEF_5_5 then
      fprintf (" + LAYER " +:+ lname +:+ " " +:+ fmt_rect xMin yMin xMax yMax)
    else
      let layer_name :=
        if version_eq (_version w) DEF_5_8 && negb (box_mask box =? 0) then
          lname +:+ " MASK " +:+ fmt_d (box_mask box)
        else lname in
      match bpin_effective_width bpin, bpin_min_spacing bpin with
      | Some ew, _ =>
          fprintf (" + LAYER " +:+ layer_name +:+ " DESIGNRULEWIDTH "
                   +:+ fmt_d (defdist ew) +:+ " "
                   +:+ fmt_rect xMin yMin xMax yMax)
      | None, Some ms =>
          fprintf (" + LAYER " +:+ layer_name +:+ " SPACING "
                   +:+ fmt_d (defdist ms) +:+ " "
                   +:+ fmt_rect xMin yMin xMax yMax)
      | None, None =>
          fprintf (" + LAYER " +:+ layer_name +:+ " "
                   +:+ fmt_rect xMin yMin xMax yMax)
      end) ;;
  match bpin_status bpin with
  | PS_NONE | PS_UNPLACED => mret tt
  | PS_SUGGESTED | PS_PLACED =>
      fprintf (nl +:+ "        + PLACED " +:+ fmt_point x y +:+ " N")
  | PS_LOCKED | PS_FIRM =>
      fprintf (nl +:+ "        + FIXED " +:+ fmt_point x y +:+ " N")
  | PS_COVER =>
      fprintf (nl +:+ "        + COVER " +:+ fmt_point x y +:+ " N")
  end.

Definition writeBTerm (bterm : dbBTerm) : M unit :=
  w ← get;
  match bterm_net bterm with
  | Some net =>
      match bterm_bpins bterm with
      | _ :: _ =>
          for_each_from 0 (bterm_bpins bterm) (writeBPin bterm net) ;;
          fprintf (" ;" +:+ nl)
      | [] =>
          let bname := bterm_name bterm in
          (if _use_net_inst_ids w then
             fprintf ("    - " +:+ bname +:+ " + NET N"
                      +:+ fmt_d (Z.of_nat (nr_id net)))
           else
             fprintf ("    - " +:+ bname +:+ " + NET " +:+ nr_name net)) ;;
          when (bterm_special bterm) (fprintf " + SPECIAL") ;;
          fprintf (" + DIRECTION " +:+ bterm_io bterm) ;;
          writeSensitivity bterm ;;
          fprintf (" + USE " +:+ bterm_sig bterm) ;;
          fprintf (" ;" +:+ nl)
      end
  | None =>
      warn ("warning: pin " +:+ bterm_name bterm
            +:+ " skipped because it has no net")
  end.

(** The pin filter: [net && _select_net_map && ] the map holds 0 for [net]. *)
Definition bterm_skipped (w : defout_impl) (bterm : dbBTerm) : bool :=
  match bterm_net bterm with
  | Some net => net_skipped w (nr_id net)
  | None => false
  end.

Definition writeBTerms (block : dbBlock) : M unit :=
  let bterms := block_bterms block in
  match bterms with
  | [] => mret tt
  | _ :: _ =>
      w ← get;
      let n :=
        fold_left (fun n bterm => if bterm_skipped w bterm then n else n + 1)
          bterms 0 in
      fprintf ("PINS " +:+ fmt_d n +:+ " ;" +:+ nl) ;;
      for_each (sortedSet bterm_name bterms) (fun bterm =>
        if bterm_skipped w bterm then mret tt else writeBTerm bterm) ;;
      fprintf ("END PINS" +:+ nl)
  end.

Definition writePinProperties (block : dbBlock) : M unit :=
  w ← get;
  let bterms := block_bterms block in
  let iterms := block_iterms block in
  let cnt :=
    fold_left (fun c bterm =>
      if hasProperties w (bterm_props bterm) COMPONENTPIN then c + 1 else c)
      bterms 0 in
  let cnt :=
    fold_left (fun c iterm =>
      if hasProperties w (iterm_props iterm) COMPONENTPIN then c + 1 else c)
      iterms cnt in
  if cnt =? 0 then mret tt
  else
    fprintf ("PINPROPERTIES " +:+ fmt_d cnt +:+ " ;" +:+ nl) ;;
    for_each bterms (fun bterm =>
      when (hasProperties w (bterm_props bterm) COMPONENTPIN)
        (fprintf ("  - PIN " +:+ bterm_name bterm +:+ " + PROPERTY ") ;;
         writeProperties (bterm_props bterm) ;;
         fprintf (" ;" +:+ nl))) ;;
    for_each iterms (fun iterm =>
      when (hasProperties w (iterm_props iterm) COMPONENTPIN)
        (fprintf ("  - " +:+ inst_name (iterm_inst iterm) +:+ " "
                  +:+ iterm_mterm iterm +:+ " + PROPERTY ") ;;
         writeProperties (iterm_props iterm) ;;
         fprintf (" ;" +:+ nl))) ;;
    fprintf ("END PINPROPERTIES" +:+ nl).

(** *** The wire path encoder *)

Global Instance dbWireType_eq_dec : EqDecision dbWireType.
Proof. solve_decision. Defined.

(** The locals of [writeWire] that live across the rounds of its loop. *)
Record wireState := {
  prev_wire_type : dbWireType;
  point_cnt : Z;
  path_cnt : Z;
  prev_x : Z;
  prev_y : Z
}.

Definition INT_MAX : Z := 2147483647.

Definition wireInit : wireState :=
  {| prev_wire_type := WT_NONE; point_cnt := 0; path_cnt := 0;
     prev_x := INT_MAX; prev_y := INT_MAX |}.

(** [if ((++point_cnt & 7) == 0) fprintf(_out, "\n    ")], with the
    advanced counter returned. *)
Definition advancePoint (st : wireState) : M Z :=
  let cnt := point_cnt st + 1 in
  when (Z.land cnt 7 =? 0) (fprintf (nl +:+ "    ")) ;;
  mret cnt.

Definition viaMaskStatement (w : defout_impl) (viacolor : option ViaColor)
    : string :=
  match viacolor with
  | Some c =>
      if version_ge (_version w) DEF_5_8 then
        "MASK " +:+ fmt_d (top_color c) +:+ fmt_d (cut_color c)
        +:+ fmt_d (bottom_color c) +:+ " "
      else EmptyString
  | None => EmptyString
  end.

(** [case PATH], [SHORT], [VWIRE], [JUNCTION]. *)
Definition wirePath (net_type : dbWireType) (st : wireState)
    (layer : dbTechLayer) (decoded_type : dbWireType) (peeked : OpCode)
    : M wireState :=
  w ← get;
  let lname := layerName (_use_alias w) layer in
  let wire_type :=
    if bool_decide (net_type = WT_FIXED) then WT_FIXED else decoded_type in
  (if (path_cnt st =? 0) || negb (bool_decide (wire_type = prev_wire_type st))
   then fprintf (nl +:+ "      + " +:+ wireTypeString wire_type +:+ " "
                 +:+ lname)
   else fprintf (nl +:+ "      NEW " +:+ lname)) ;;
  when (bool_decide (is_Some (_non_default_rule w)) && negb (is_RULE peeked))
    (fprintf " TAPER") ;;
  mret {| prev_wire_type := wire_type; point_cnt := 0;
          path_cnt := path_cnt st + 1;
          prev_x := prev_x st; prev_y := prev_y st |}.


(** [case POINT]. *)
Definition wirePoint (st : wireState) (px py : Z) (color : option Z)
    : M wireState :=
  let x := defdist px in
  let y := defdist py in
  cnt ← advancePoint st;
  let mask_statement :=
    match color with
    | Some c => if Z.rem cnt 2 =? 0 then "MASK " +:+ fmt_d c else EmptyString
    | None => EmptyString
    end in
  (if cnt =? 1 then
     fprintf (" ( " +:+ fmt_d x +:+ " " +:+ fmt_d y +:+ " )")
   else if x =? prev_x st then
     fprintf (mask_statement +:+ " ( * " +:+ fmt_d y +:+ " )")
   else if y =? prev_y st then
     fprintf (mask_statement +:+ " ( " +:+ fmt_d x +:+ " * )")
   else mret tt) ;;
  mret {| prev_wire_type := prev_wire_type st; point_cnt := cnt;
          path_cnt := path_cnt st; prev_x := x; prev_y := y |}.

(** [case POINT_EXT]. *)
Definition wirePointExt (st : wireState) (px py pext : Z) : M wireState :=
  let x := defdist px in
  let y := defdist py in
  let ext := defdist pext in
  cnt ← advancePoint st;
  (if cnt =? 1 then
     fprintf (" ( " +:+ fmt_d x +:+ " " +:+ fmt_d y +:+ " " +:+ fmt_d ext
              +:+ " )")
   else if (x =? prev_x st) && (y =? prev_y st) then
     fprintf (" ( * * " +:+ fmt_d ext +:+ " )")
   else if x =? prev_x st then
     fprintf (" ( * " +:+ fmt_d y +:+ " " +:+ fmt_d ext +:+ " )")
   else if y =? prev_y st then
     fprintf (" ( " +:+ fmt_d x +:+ " * " +:+ fmt_d ext +:+ " )")
   else mret tt) ;;
  mret {| prev_wire_type := prev_wire_type st; point_cnt := cnt;
          path_cnt := path_cnt st; prev_x := x; prev_y := y |}.

Definition withPointCnt (st : wireState) (cnt : Z) : wireState :=
  {| prev_wire_type := prev_wire_type st; point_cnt := cnt;
     path_cnt := path_cnt st; prev_x := prev_x st; prev_y := prev_y st |}.

(** [case VIA]. *)
Definition wireVia (st : wireState) (via : dbVia)
    (viacolor : option ViaColor) : M wireState :=
  w ← get;
  cnt ← advancePoint st;
  let via_mask_statement := viaMaskStatement w viacolor in
  (if version_ge (_version w) DEF_5_6 && via_rotated via then
     let vname :=
       match via_tech_via via with
       | Some tv => tvia_name tv
       | None => via_block_via via
       end in
     fprintf (" " +:+ via_mask_statement +:+ vname +:+ " "
              +:+ defOrient (via_orient via))
   else
     fprintf (" " +:+ via_mask_statement +:+ via_name via)) ;;
  mret (withPointCnt st cnt).

(** [case TECH_VIA]. *)
Definition wireTechVia (st : wireState) (via : dbTechVia)
    (viacolor : option ViaColor) : M wireState :=
  w ← get;
  cnt ← advancePoint st;
  fprintf (" " +:+ viaMaskStatement w viacolor +:+ tvia_name via) ;;
  mret (withPointCnt st cnt).

(** [case RULE]. *)
Definition wireRule (st : wireState) (rule : dbTechLayerRule)
    : M wireState :=
  w ← get;
  when (point_cnt st =? 0)
    (let taper_rule := lr_non_default_rule rule in
     match _non_default_rule w with
     | None => fprintf (" TAPERRULE " +:+ ndr_name taper_rule +:+ " ")
     | Some active =>
         when (negb (ndr_same active taper_rule))
           (fprintf (" TAPERRULE " +:+ ndr_name taper_rule +:+ " "))
     end) ;;
  mret st.

(** [case RECT]. *)
Definition wireRect (st : wireState) (dX1 dY1 dX2 dY2 : Z)
    (color : option Z) : M wireState :=
  cnt ← advancePoint st;
  let deltas :=
    "( " +:+ fmt_d (defdist dX1) +:+ " " +:+ fmt_d (defdist dY1) +:+ " "
    +:+ fmt_d (defdist dX2) +:+ " " +:+ fmt_d (defdist dY2) +:+ " ) " in
  match color with
  | Some c => fprintf (" RECT MASK " +:+ fmt_d c +:+ " " +:+ deltas)
  | None => fprintf (" RECT " +:+ deltas)
  end ;;
  mret (withPointCnt st cnt).

(** One round of the loop: the [switch] on the opcode [next] returned. *)
Definition wireStep (net_type : dbWireType) (st : wireState) (d : decoded)
    (rest : list decoded) : M wireState :=
  match d_event d with
  | E_START _ layer wire_type => wirePath net_type st layer wire_type (peek rest)
  | E_POINT x y => wirePoint st x y (d_color d)
  | E_POINT_EXT x y ext => wirePointExt st x y ext
  | E_VIA via => wireVia st via (d_viacolor d)
  | E_TECH_VIA via => wireTechVia st via (d_viacolor d)
  | E_ITERM | E_BTERM => mret st
  | E_RULE rule => wireRule st rule
  | E_RECT dX1 dY1 dX2 dY2 => wireRect st dX1 dY1 dX2 dY2 (d_color d)
  end.

(** The loop, from a state on; it ends with the events ([END_DECODE]). *)
Fixpoint wireLoop (net_type : dbWireType) (st : wireState)
    (events : list decoded) : M wireState :=
  match events with
  | [] => mret st
  | d :: rest => st' ← wireStep net_type st d rest; wireLoop net_type st' rest
  end.

Definition writeWire (wire : dbWire) : M unit :=
  wireLoop (wire_net_type wire) wireInit (wire_events wire) ;; mret tt.

(** *** Special nets *)

(** 32-bit conversions: [uint] of an [int] and back.  The difference of two
    [int]s is taken in [Z] and reduced when it is stored in a [uint]. *)
Definition to_uint (z : Z) : Z := z mod 2 ^ 32.
Definition to_int (z : Z) : Z := (z + 2 ^ 31) mod 2 ^ 32 - 2 ^ 31.

(** [assert(c)], as a build that keeps assertions has it. *)
Definition assert_ (c : bool) : M unit :=
  if c then mret tt else fun w => Abort AssertionFailed w.

(** [y1 += dw; y2 -= dw; assert(y1 == y2)] on [int]s with a [uint] [dw]:
    the sums are taken as [uint] and stored back. *)
Definition collapseAxis (lo hi dw : Z) : M (Z * Z) :=
  let lo' := to_int (to_uint (to_uint lo + dw)) in
  let hi' := to_int (to_uint (to_uint hi - dw)) in
  assert_ (lo' =? hi') ;;
  mret (lo', hi').

(** The first half of [writeSpecialPath]: the width and the two end points
    [(w, x1, y1, x2, y2)] of the centre line of a box. *)
Definition specialPathGeometry (box : dbSBox) : M (Z * Z * Z * Z * Z) :=
  let x1 := r_xMin (sbox_rect box) in
  let y1 := r_yMin (sbox_rect box) in
  let x2 := r_xMax (sbox_rect box) in
  let y2 := r_yMax (sbox_rect box) in
  let dx := to_uint (x2 - x1) in
  let dy := to_uint (y2 - y1) in
  let collapseX :=
    '(x1', x2') ← collapseAxis x1 x2 (Z.shiftr dx 1);
    mret (dx, x1', y1, x2', y2) in
  let collapseY :=
    '(y1', y2') ← collapseAxis y1 y2 (Z.shiftr dy 1);
    mret (dy, x1, y1', x2, y2') in
  match sbox_direction box with
  | UNDEFINED =>
      let dx_even := Z.land dx 1 =? 0 in
      let dy_even := Z.land dy 1 =? 0 in
      if dx_even && dy_even then
        if dy <? dx then collapseY else collapseX
      else if dx_even then collapseX
      else if dy_even then collapseY
      else throw "odd dimension in both directions"
  | HORIZONTAL => collapseY
  | VERTICAL => collapseX
  | OCTILINEAR =>
      let oct := sbox_oct box in
      mret (oct_width oct,
            fst (oct_center_low oct), snd (oct_center_low oct),
            fst (oct_center_high oct), snd (oct_center_high oct))
  | DIR_OTHER => throw "unknown direction"
  end.

Definition isShapeNone (t : dbWireShapeType) : bool :=
  match t with WS_NONE => true | _ => false end.

Definition writeSpecialPath (box : dbSBox) : M unit :=
  w ← get;
  let ln := layerName (_use_alias w) (sbox_layer box) in
  let mask := sbox_mask box in
  '(wd, x1, y1, x2, y2) ← specialPathGeometry box;
  let type := sbox_shape box in
  let p1 := fmt_point (defdist x1) (defdist y1) in
  let p2 := fmt_point (defdist x2) (defdist y2) in
  if negb (mask =? 0) then
    if isShapeNone type then
      fprintf (" " +:+ ln +:+ " " +:+ fmt_d (defdist wd) +:+ " " +:+ p1
               +:+ " MASK " +:+ fmt_d mask +:+ " " +:+ p2)
    else
      fprintf (" " +:+ ln +:+ " " +:+ fmt_d (defdist wd) +:+ " + SHAPE "
               +:+ shapeTypeString type +:+ " + MASK " +:+ fmt_d mask
               +:+ " + " +:+ p1 +:+ " " +:+ p2)
  else
    if isShapeNone type then
      fprintf (" " +:+ ln +:+ " " +:+ fmt_d (defdist wd) +:+ " " +:+ p1
               +:+ " " +:+ p2)
    else
      fprintf (" " +:+ ln +:+ " " +:+ fmt_d (defdist wd) +:+ " + SHAPE "
               +:+ shapeTypeString type +:+ " " +:+ p1 +:+ " " +:+ p2).

(** What the second half of [writeSpecialPath] writes for the width and
    the end points [(wd, x1, y1, x2, y2)]: the four formats, which all
    start with the layer and the width. *)
Definition specialPathText (use_alias : bool) (box : dbSBox)
    (wd x1 y1 x2 y2 : Z) : string :=
  let ln := layerName use_alias (sbox_layer box) in
  let mask := sbox_mask box in
  let type := sbox_shape box in
  let p1 := fmt_point (defdist x1) (defdist y1) in
  let p2 := fmt_point (defdist x2) (defdist y2) in
  " " +:+ ln +:+ " " +:+ fmt_d (defdist wd) +:+
  (if negb (mask =? 0) then
     if isShapeNone type then
       " " +:+ p1 +:+ " MASK " +:+ fmt_d mask +:+ " " +:+ p2
     else
       " + SHAPE " +:+ shapeTypeString type +:+ " + MASK " +:+ fmt_d mask
       +:+ " + " +:+ p1 +:+ " " +:+ p2
   else
     if isShapeNone type then " " +:+ p1 +:+ " " +:+ p2
     else " + SHAPE " +:+ shapeTypeString type +:+ " " +:+ p1 +:+ " " +:+ p2).

(** A via of a special wire: the name and the bottom layer of either kind. *)
Definition writeSpecialVia (box : dbSBox) (vname : string)
    (bottom : dbTechLayer) : M unit :=
  w ← get;
  let type := sbox_shape box in
  let ln := layerName (_use_alias w) bottom in
  let '(x, y) := sbox_via_xy box in
  let vn :=
    match sbox_via_masks box with
    | Some (top, cut, bot) =>
        "MASK " +:+ fmt_d top +:+ fmt_d cut +:+ fmt_d bot +:+ " " +:+ vname
    | None => vname
    end in
  if isShapeNone type then
    fprintf (" " +:+ ln +:+ " 0 " +:+ fmt_point (defdist x) (defdist y)
             +:+ " " +:+ vn)
  else
    fprintf (" " +:+ ln +:+ " 0 + SHAPE " +:+ shapeTypeString type +:+ " "
             +:+ fmt_point (defdist x) (defdist y) +:+ " " +:+ vn).

Definition writeSWire (wire : dbSWire) : M unit :=
  match swire_type wire with
  | WT_COVER => fprintf (nl +:+ "      + COVER")
  | WT_FIXED => fprintf (nl +:+ "      + FIXED")
  | WT_ROUTED => fprintf (nl +:+ "      + ROUTED")
  | WT_SHIELD =>
      match swire_shield wire with
      | Some n => fprintf (nl +:+ "      + SHIELD " +:+ n)
      | None =>
          warn "warning: missing shield net" ;;
          fprintf (nl +:+ "      + ROUTED")
      end
  | _ => fprintf (nl +:+ "      + ROUTED")
  end ;;
  for_each_from 0 (swire_wires wire) (fun box i =>
    when (0 <? i) (fprintf (nl +:+ "      NEW")) ;;
    if negb (sbox_is_via box) then writeSpecialPath box
    else
      match sbox_via box with
      | Some (SB_TECH_VIA v) => writeSpecialVia box (tvia_name v) (tvia_bottom v)
      | Some (SB_BLOCK_VIA v) => writeSpecialVia box (via_name v) (via_bottom v)
      | None => mret tt
      end).

(** A loop that carries a local from round to round. *)
Fixpoint fold_M {A S} (l : list A) (s : S) (body : S -> A -> M S) : M S :=
  match l with
  | [] => mret s
  | x :: rest => s' ← body s x; fold_M rest s' body
  end.

Definition instRef (w : defout_impl) (inst : dbInst) : string :=
  if _use_net_inst_ids w then "I" +:+ fmt_d (Z.of_nat (inst_id inst))
  else inst_name inst.

Definition netRefName (w : defout_impl) (net : dbNet) : string :=
  if _use_net_inst_ids w then "N" +:+ fmt_d (Z.of_nat (net_id net))
  else net_name net.

Definition writeSNet (net : dbNet) : M unit :=
  w ← get;
  fprintf ("    - " +:+ netRefName w net) ;;
  i ← fold_M (net_bterms net) 0 (fun i bname =>
    let i := i + 1 in
    when (Z.land i 7 =? 0) (fprintf (nl +:+ "    ")) ;;
    fprintf (" ( PIN " +:+ bname +:+ " )") ;;
    mret i);
  fold_M (net_iterms net) (i, (∅ : gset string)) (fun '(i, wild_names) iterm =>
    if negb (iterm_special iterm) then mret (i, wild_names)
    else
      let inst := iterm_inst iterm in
      let mtname := iterm_mterm iterm in
      if net_wild_connected net then
        if bool_decide (mtname ∈ wild_names) then mret (i, wild_names)
        else
          fprintf (" ( * " +:+ mtname +:+ " )") ;;
          mret (i + 1, {[ mtname ]} ∪ wild_names)
      else
        let i := i + 1 in
        (if Z.land i 7 =? 0 then
           fprintf (nl +:+ "      ( " +:+ instRef w inst +:+ " " +:+ mtname
                    +:+ " )")
         else
           fprintf (" ( " +:+ instRef w inst +:+ " " +:+ mtname +:+ " )")) ;;
        mret (i, wild_names)) ;;
  fprintf (" + USE " +:+ net_sig net) ;;
  modify (set_non_default_rule None) ;;
  for_each (net_swires net) writeSWire ;;
  writeSource (net_source net) false ;;
  when (net_fixed_bump net) (fprintf " + FIXEDBUMP") ;;
  when (negb (net_weight net =? 1))
    (fprintf (" + WEIGHT " +:+ fmt_d (net_weight net))) ;;
  writePropertyClause (net_props net) SPECIALNET ;;
  fprintf (" ;" +:+ nl).

(** *** Nets *)

Definition writeNet (net : dbNet) : M unit :=
  w ← get;
  fprintf ("    - " +:+ netRefName w net) ;;
  i ← fold_M (net_bterms net) 0 (fun i pin_name =>
    let i := i + 1 in
    when (Z.land i 7 =? 0) (fprintf (nl +:+ "     ")) ;;
    fprintf (" ( PIN " +:+ pin_name +:+ " )") ;;
    mret i);
  fold_M (net_iterms net) i (fun i iterm =>
    if iterm_special iterm then mret i
    else
      let inst := iterm_inst iterm in
      if inst_skipped w inst then mret i
      else
        let i := i + 1 in
        when (Z.land i 7 =? 0) (fprintf (nl +:+ "     ")) ;;
        fprintf (" ( " +:+ instRef w inst +:+ " " +:+ iterm_mterm iterm
                 +:+ " )") ;;
        mret i) ;;
  when (negb (net_xtalk net =? 0))
    (fprintf (" + XTALK " +:+ fmt_d (net_xtalk net))) ;;
  fprintf (" + USE " +:+ net_sig net) ;;
  modify (set_non_default_rule (net_ndr net)) ;;
  match net_ndr net with
  | Some r => fprintf (" + NONDEFAULTRULE " +:+ ndr_name r)
  | None => mret tt
  end ;;
  match net_wire net with
  | Some wire => writeWire wire
  | None => mret tt
  end ;;
  writeSource (net_source net) true ;;
  when (net_fixed_bump net) (fprintf " + FIXEDBUMP") ;;
  when (negb (net_weight net =? 1))
    (fprintf (" + WEIGHT " +:+ fmt_d (net_weight net))) ;;
  writePropertyClause (net_props net) NET ;;
  fprintf (" ;" +:+ nl).

(** The counting pass of [writeNets]: which nets go to the [NETS] section,
    and the two counts. *)
Definition countNets (w : defout_impl) (sorted_nets : list dbNet)
    : gmap nat Z * Z * Z :=
  fold_left (fun '(regular_net, net_cnt, snet_cnt) net =>
    if net_skipped w (net_id net) then (regular_net, net_cnt, snet_cnt)
    else if negb (net_special net) then
      (<[net_id net := 1]> regular_net, net_cnt + 1, snet_cnt)
    else if existsb (fun iterm => negb (iterm_special iterm)) (net_iterms net)
    then (<[net_id net := 1]> regular_net, net_cnt + 1, snet_cnt + 1)
    else (<[net_id net := 0]> regular_net, net_cnt, snet_cnt + 1))
    sorted_nets (∅, 0, 0).

Definition writeNets (block : dbBlock) : M unit :=
  w ← get;
  let sorted_nets := sortedSet net_name (block_nets block) in
  let '(regular_net, net_cnt, snet_cnt) := countNets w sorted_nets in
  when (0 <? snet_cnt)
    (fprintf ("SPECIALNETS " +:+ fmt_d snet_cnt +:+ " ;" +:+ nl) ;;
     for_each sorted_nets (fun net =>
       if net_skipped w (net_id net) then mret tt
       else when (net_special net) (writeSNet net)) ;;
     fprintf ("END SPECIALNETS" +:+ nl)) ;;
  fprintf ("NETS " +:+ fmt_d net_cnt +:+ " ;" +:+ nl) ;;
  for_each sorted_nets (fun net =>
    if net_skipped w (net_id net) then mret tt
    else when (dbMap_get regular_net (net_id net) =? 1) (writeNet net)) ;;
  fprintf ("END NETS" +:+ nl).

(** *** The selection maps *)

(** The net map gets 1 at [net]. *)
Definition markNet (net : dbNet) (w : defout_impl) : defout_impl :=
  set_select_net_map
    (Some (<[net_id net := 1]> (default ∅ (_select_net_map w)))) w.

(** [if (!_select_inst_map) _select_inst_map = new dbMap<dbInst, char>]. *)
Definition ensureInstMap (w : defout_impl) : defout_impl :=
  match _select_inst_map w with
  | Some _ => w
  | None => set_select_inst_map (Some ∅) w
  end.

(** The instance map gets 1 at [inst]. *)
Definition markInst (inst : dbInst) (w : defout_impl) : defout_impl :=
  set_select_inst_map
    (Some (<[inst_id inst := 1]> (default ∅ (_select_inst_map w)))) w.

(** The body of the loop over [_select_net_list]. *)
Definition selectOneNet (net : dbNet) : M unit :=
  modify (markNet net) ;;
  if net_special net || net_mark_1ed net then mret tt
  else
    modify ensureInstMap ;;
    for_each (net_iterms net) (fun iterm => modify (markInst (iterm_inst iterm))).

(** The two blocks that open [writeBlock] and [writeBlock_Pl]. *)
Definition buildSelection : M unit :=
  w ← get;
  match _select_net_list w with
  | [] => mret tt
  | _ :: _ =>
      modify (set_select_net_map (Some ∅)) ;;
      for_each (_select_net_list w) selectOneNet
  end ;;
  match _select_inst_list w with
  | [] => mret tt
  | _ :: _ =>
      modify ensureInstMap ;;
      for_each (_select_inst_list w) (fun inst => modify (markInst inst))
  end.

(** *** The document *)

(** [utl::FileHandler fileHandler(def_file); _out = fileHandler.getFile()]:
    a fresh stream when the path can be opened for writing, null otherwise. *)
Definition openFile (writable : string -> bool) (def_file : string)
    : M unit :=
  modify (set_out (if writable def_file then Some EmptyString else None)).

(** [fstat(fileno(_out), &stats); setvbuf(...)]: nothing is written, but
    the stream is used. *)
Definition setBuffering : M unit := fun w =>
  match _out w with
  | Some _ => Ret tt w
  | None => Abort NullStream w
  end.

Definition versionLine (v : Version) : string :=
  match v with
  | DEF_5_3 => "VERSION 5.3 ;"
  | DEF_5_4 => "VERSION 5.4 ;"
  | DEF_5_5 => "VERSION 5.5 ;"
  | DEF_5_6 => "VERSION 5.6 ;"
  | DEF_5_7 => "VERSION 5.7 ;"
  | DEF_5_8 => "VERSION 5.8 ;"
  end +:+ nl.

Definition isNul (c : ascii) : bool := Ascii.eqb c zero.

(** The header block of [writeBlock], from the version to the units. *)
Definition writeHeader (block : dbBlock) : M unit :=
  w ← get;
  fprintf (versionLine (_version w)) ;;
  when (version_lt (_version w) DEF_5_6)
    (fprintf ("NAMESCASESENSITIVE ON ;" +:+ nl)) ;;
  let hd := block_hier_delimiter block in
  let hd := if isNul hd then "|"%char else hd in
  fprintf ("DIVIDERCHAR " +:+ dquote +:+ fmt_c hd +:+ dquote +:+ " ;" +:+ nl) ;;
  let '(left_bus, right_bus) := block_bus_delimiters block in
  let '(left_bus, right_bus) :=
    if isNul left_bus || isNul right_bus then ("["%char, "]"%char)
    else (left_bus, right_bus) in
  fprintf ("BUSBITCHARS " +:+ dquote +:+ fmt_c left_bus +:+ fmt_c right_bus
           +:+ dquote +:+ " ;" +:+ nl) ;;
  fprintf ("DESIGN " +:+ block_name block +:+ " ;" +:+ nl) ;;
  fprintf ("UNITS DISTANCE MICRONS " +:+ fmt_d (block_def_units block)
           +:+ " ;" +:+ nl).

(** The die area; of a polygon every vertex but the last is written.  The
    loop runs while [i < points.size() - 1], a comparison in [size_t]: for
    a polygon without points the bound wraps and [points[0]] is read. *)
Definition writeDieArea (block : dbBlock) : M unit :=
  match block_die_area block with
  | DIE_RECT r =>
      let x1 := defdist (r_xMin r) in
      let y1 := defdist (r_yMin r) in
      let x2 := defdist (r_xMax r) in
      let y2 := defdist (r_yMax r) in
      when (negb (x1 =? 0) || negb (y1 =? 0) || negb (x2 =? 0)
            || negb (y2 =? 0))
        (fprintf ("DIEAREA " +:+ fmt_rect x1 y1 x2 y2 +:+ " ;" +:+ nl))
  | DIE_POLYGON points =>
      fprintf "DIEAREA " ;;
      match points with
      | [] => fun w => Abort OutOfRange w
      | _ :: _ =>
          for_each (removelast points) (fun p =>
            fprintf (fmt_point (defdist (fst p)) (defdist (snd p)) +:+ " "))
      end ;;
      fprintf (";" +:+ nl)
  end.

Definition cannotOpen (def_file : string) : string :=
  "Cannot open DEF file (" +:+ def_file +:+ ") for writing".

(** [writeBlock].  The sections of the objects a [dbBlock] leaves out write
    nothing; the two [delete]s that end the function free the maps. *)
Definition writeBlock (writable : string -> bool) (block : dbBlock)
    (def_file : string) : M bool :=
  buildSelection ;;
  openFile writable def_file ;;
  w ← get;
  match _out w with
  | None => warn (cannotOpen def_file) ;; mret false
  | Some _ =>
      setBuffering ;;
      writeHeader block ;;
      writePropertyDefinitions block ;;
      writeDieArea block ;;
      writeInsts block ;;
      writeBTerms block ;;
      writePinProperties block ;;
      writeNets block ;;
      fprintf ("END DESIGN" +:+ nl) ;;
      mret true
  end.

(** *** The placement-only variant *)

Definition writeInst_Pl (inst : dbInst) : M unit :=
  w ← get;
  (if _use_net_inst_ids w then
     fprintf ("I" +:+ fmt_d (Z.of_nat (inst_id inst)))
   else fprintf (inst_name inst)) ;;
  let x := defdist (inst_x inst) in
  let y := defdist (inst_y inst) in
  let orient := defOrient (inst_orient inst) in
  match inst_status inst with
  | PS_NONE | PS_UNPLACED => mret tt
  | PS_SUGGESTED | PS_PLACED | PS_LOCKED | PS_FIRM | PS_COVER =>
      fprintf (" " +:+ fmt_d x +:+ " " +:+ fmt_d y +:+ " : " +:+ orient
               +:+ nl)
  end.

Definition writeInsts_Pl (block : dbBlock) : M unit :=
  for_each (sortedSet inst_name (block_insts block)) (fun inst =>
    w ← get;
    if inst_skipped w inst then mret tt else writeInst_Pl inst).

Definition writeBPin_Pl (bterm : dbBTerm) (bpin : dbBPin) (cnt : Z)
    : M unit :=
  if negb (cnt =? 0) then mret tt
  else
    fprintf (bterm_name bterm) ;;
    let '(x, y) := bpinOrigin (bpin_boxes bpin) in
    match bpin_status bpin with
    | PS_NONE | PS_UNPLACED => mret tt
    | PS_SUGGESTED | PS_PLACED | PS_LOCKED | PS_FIRM | PS_COVER =>
        fprintf (" " +:+ fmt_d x +:+ " " +:+ fmt_d y +:+ " : N")
    end.

Definition writeBTerm_Pl (bterm : dbBTerm) : M unit :=
  match bterm_net bterm with
  | Some net =>
      for_each_from 0 (bterm_bpins bterm) (writeBPin_Pl bterm) ;;
      fprintf nl
  | None => mret tt
  end.

Definition writeBTerms_Pl (block : dbBlock) : M unit :=
  let bterms := block_bterms block in
  match bterms with
  | [] => mret tt
  | _ :: _ =>
      w ← get;
      for_each (sortedSet bterm_name bterms) (fun bterm =>
        if bterm_skipped w bterm then mret tt else writeBTerm_Pl bterm)
  end.

(** [writeBlock_Pl]: no test of the stream follows the opening. *)
Definition writeBlock_Pl (writable : string -> bool) (block : dbBlock)
    (def_file : string) : M bool :=
  buildSelection ;;
  openFile writable def_file ;;
  setBuffering ;;
  writeBTerms_Pl block ;;
  fprintf ("CELLS" +:+ nl) ;;
  writeInsts_Pl block ;;
  mret true.

End Writer.

(** ** A small design

    Two components, [u1] with a halo; two pins, [p1] on net [n1] with a
    supply and a ground sensitivity pin, [p2] on no net; one routed net with
    a coloured, rotated via and two properties, of which only [A] has a
    definition. *)

(** [defdist] when the DEF units equal the database units per micron: the
    value, returned as an [int] ([defdist] has an overload for [uint]). *)
Definition unitDist (z : Z) : Z := to_int z.

(** The keywords of the wire and shape types: the enumerators' names. *)
Definition wireTypeKeyword (t : dbWireType) : string :=
  match t with
  | WT_NONE => "NONE"
  | WT_COVER => "COVER"
  | WT_FIXED => "FIXED"
  | WT_ROUTED => "ROUTED"
  | WT_SHIELD => "SHIELD"
  | WT_NOSHIELD => "NOSHIELD"
  end.

Definition shapeTypeKeyword (t : dbWireShapeType) : string :=
  match t with
  | WS_NONE => "NONE"
  | WS_RING => "RING"
  | WS_PADRING => "PADRING"
  | WS_BLOCKRING => "BLOCKRING"
  | WS_STRIPE => "STRIPE"
  | WS_FOLLOWPIN => "FOLLOWPIN"
  | WS_IOWIRE => "IOWIRE"
  | WS_COREWIRE => "COREWIRE"
  | WS_BLOCKWIRE => "BLOCKWIRE"
  | WS_BLOCKAGEWIRE => "BLOCKAGEWIRE"
  | WS_FILLWIRE => "FILLWIRE"
  | WS_DRCFILL => "DRCFILL"
  end.

Definition ex_master : dbMaster := {| master_name := "INV"; master_id := 7 |}.

Definition ex_inst (id : nat) (name : string) (halo : option Rect) : dbInst :=
  {| inst_id := id; inst_name := name; inst_master := ex_master;
     inst_source := SRC_NONE; inst_x := 10; inst_y := 20;
     inst_orient := R0; inst_status := PS_PLACED; inst_weight := 0;
     inst_region := None; inst_props := []; inst_halo := halo |}.

Definition ex_u0 : dbInst := ex_inst 1 "u0" None.
Definition ex_u1 : dbInst :=
  ex_inst 2 "u1"
    (Some {| r_xMin := 1; r_yMin := 2; r_xMax := 3; r_yMax := 4 |}).

Definition ex_M1 : dbTechLayer := {| layer_name := "M1"; layer_alias := None |}.

Definition ex_V12 : dbTechVia := {| tvia_name := "V12"; tvia_bottom := ex_M1 |}.

Definition ex_rotated_via : dbVia :=
  {| via_name := "V12_R90"; via_rotated := true; via_tech_via := Some ex_V12;
     via_block_via := EmptyString; via_orient := R90; via_bottom := ex_M1 |}.

Definition plain (e : event) : decoded :=
  {| d_event := e; d_color := None; d_viacolor := None |}.

Definition ex_wire : dbWire :=
  {| wire_events :=
       [ plain (E_START PATH ex_M1 WT_ROUTED);
         plain (E_POINT 0 0);
         plain (E_POINT 0 500);
         {| d_event := E_VIA ex_rotated_via; d_color := None;
            d_viacolor :=
              Some {| top_color := 1; cut_color := 2; bottom_color := 3 |} |} ];
     wire_net_type := WT_ROUTED |}.

Definition int_prop (name : string) (v : Z) : dbProperty :=
  {| prop_name := name; prop_value := INT_PROP v; prop_children := [] |}.

Definition ex_net (props : list dbProperty) : dbNet :=
  {| net_id := 1; net_name := "n1"; net_special := false;
     net_mark_1ed := false; net_wild_connected := false;
     net_iterms :=
       [ {| iterm_inst := ex_u1; iterm_mterm := "A"; iterm_special := false;
            iterm_props := [] |} ];
     net_bterms := ["p1"]; net_xtalk := 0; net_sig := "SIGNAL";
     net_ndr := None; net_wire := Some ex_wire; net_swires := [];
     net_source := SRC_NONE; net_fixed_bump := false; net_weight := 1;
     net_props := props |}.

Definition ex_n1 : dbNet := ex_net [int_prop "A" 1; int_prop "B" 2].

Definition ex_pin (name : string) (net : option netRef)
    (supply ground : option string) : dbBTerm :=
  {| bterm_name := name; bterm_net := net; bterm_special := false;
     bterm_io := "INPUT"; bterm_sig := "SIGNAL"; bterm_supply := supply;
     bterm_ground := ground; bterm_bpins := []; bterm_props := [] |}.

Definition ex_p1 : dbBTerm :=
  ex_pin "p1" (Some {| nr_id := 1; nr_name := "n1" |}) (Some "VDD") (Some "VSS").
Definition ex_p2 : dbBTerm := ex_pin "p2" None None None.

Definition ex_block : dbBlock :=
  {| block_name := "top"; block_hier_delimiter := "/"%char;
     block_bus_delimiters := ("["%char, "]"%char);
     block_def_units := 1000;
     block_prop_defs := Some [("NET", [int_prop "A" 0])];
     block_die_area :=
       DIE_RECT {| r_xMin := 0; r_yMin := 0; r_xMax := 100; r_yMax := 200 |};
     block_insts := [ex_u1; ex_u0];
     block_bterms := [ex_p1; ex_p2];
     block_iterms := [];
     block_nets := [ex_n1] |}.

(** What a call leaves in the stream (nothing for the null stream), the
    warnings, and the value returned, if any. *)
Definition written {A} (r : res A) : string :=
  match r with
  | Ret _ w | Abort _ w => default EmptyString (_out w)
  end.

Definition warnings {A} (r : res A) : list string :=
  match r with
  | Ret _ w | Abort _ w => _logger w
  end.

Definition returned {A} (r : res A) : option A :=
  match r with
  | Ret a _ => Some a
  | Abort _ _ => None
  end.

(** A writer on an open, empty stream. *)
Definition ex_open_writer : defout_impl :=
  set_out (Some EmptyString) (new_writer DEF_5_8 false false false).


Definition ex_diagonal : dbWire :=
  {| wire_events :=
       [ plain (E_START PATH ex_M1 WT_ROUTED);
         plain (E_POINT 0 0);
         plain (E_POINT 0 500);
         plain (E_POINT 300 600);
         plain (E_POINT 300 700) ];
     wire_net_type := WT_ROUTED |}.




(** A writer with an open, empty stream after the property definitions of
    the example design went through it. *)
Definition ex_registered : defout_impl :=
  match
    writePropertyDefinitions ex_block
      (set_out (Some EmptyString) (new_writer DEF_5_8 false false false))
  with
  | Ret _ w | Abort _ w => set_out (Some EmptyString) w
  end.

(** The full writer on the example design, nothing selected. *)
Definition ex_document (v : Version) : string :=
  written
    (writeBlock unitDist wireTypeKeyword shapeTypeKeyword (fun _ => true)
       ex_block "top.def" (new_writer v false false false)).

(** The same with net [n1] selected. *)
Definition ex_document_n1 (v : Version) : string :=
  written
    (writeBlock unitDist wireTypeKeyword shapeTypeKeyword (fun _ => true)
       ex_block "top.def"
       (selectNet (Some ex_n1) (new_writer v false false false))).

(** The text of a section, from its header line up to the line that ends
    it, and the number of records in it: a record starts a line with
    four blanks and a dash. *)
Fixpoint dropUntil (pat s : string) : string :=
  if String.prefix pat s then s
  else
    match s with
    | EmptyString => EmptyString
    | String _ rest => dropUntil pat rest
    end.

Fixpoint takeUntil (pat s : string) : string :=
  if String.prefix pat s then EmptyString
  else
    match s with
    | EmptyString => EmptyString
    | String c rest => String c (takeUntil pat rest)
    end.

Definition sectionText (name doc : string) : string :=
  match dropUntil (nl +:+ name +:+ " ") doc with
  | EmptyString => EmptyString
  | String _ from_header => takeUntil (nl +:+ "END " +:+ name) from_header
  end.

Definition headerLine (section : string) : string := takeUntil nl section.

Definition recordCount (section : string) : nat :=
  occurrences (nl +:+ "    - ") section.

(** ** The selection, in closed form

    What [buildSelection] computes, as plain functions on the writer, and
    the instances a selection names. *)

Definition selectOneNet_pure (net : dbNet) (w : defout_impl) : defout_impl :=
  let w1 := markNet net w in
  if net_special net || net_mark_1ed net then w1
  else
    fold_left (fun w iterm => markInst (iterm_inst iterm) w) (net_iterms net)
      (ensureInstMap w1).

Definition selection (w : defout_impl) : defout_impl :=
  let w1 :=
    match _select_net_list w with
    | [] => w
    | _ :: _ =>
        fold_left (fun w net => selectOneNet_pure net w) (_select_net_list w)
          (set_select_net_map (Some ∅) w)
    end in
  match _select_inst_list w with
  | [] => w1
  | _ :: _ =>
      fold_left (fun w inst => markInst inst w) (_select_inst_list w)
        (ensureInstMap w1)
  end.

(** A selected net is walked when it is neither special nor marked. *)
Definition walked (net : dbNet) : bool :=
  negb (net_special net || net_mark_1ed net).

(** The instances that have a terminal on a net. *)
Definition connectedInsts (net : dbNet) : list nat :=
  map (fun iterm => inst_id (iterm_inst iterm)) (net_iterms net).

(** The instances a selection names: those on the walked nets and those
    selected themselves. *)
Definition selectedInsts (nets : list dbNet) (insts : list dbInst)
    : list nat :=
  concat (map connectedInsts (List.filter walked nets))
  ++ map inst_id insts.

(** ** Further designs *)

(** A special net whose only shape is a 3 by 5 rectangle of undefined
    direction. *)
Definition ex_odd_box : dbSBox :=
  {| sbox_rect := {| r_xMin := 0; r_yMin := 0; r_xMax := 3; r_yMax := 5 |};
     sbox_layer := ex_M1; sbox_mask := 0; sbox_direction := UNDEFINED;
     sbox_oct := {| oct_center_low := (0, 0); oct_center_high := (0, 0);
                    oct_width := 0 |};
     sbox_shape := WS_NONE; sbox_is_via := false; sbox_via := None;
     sbox_via_xy := (0, 0); sbox_via_masks := None |}.

(** A rectangle as wide as two [int]s allow, and one unit high. *)
Definition ex_wide_box : dbSBox :=
  {| sbox_rect := {| r_xMin := -2147483647; r_yMin := 0;
                     r_xMax := 2147483647; r_yMax := 1 |};
     sbox_layer := ex_M1; sbox_mask := 0; sbox_direction := UNDEFINED;
     sbox_oct := {| oct_center_low := (0, 0); oct_center_high := (0, 0);
                    oct_width := 0 |};
     sbox_shape := WS_NONE; sbox_is_via := false; sbox_via := None;
     sbox_via_xy := (0, 0); sbox_via_masks := None |}.

Definition ex_power_net : dbNet :=
  {| net_id := 2; net_name := "VDD"; net_special := true;
     net_mark_1ed := false; net_wild_connected := false;
     net_iterms := []; net_bterms := []; net_xtalk := 0;
     net_sig := "POWER"; net_ndr := None; net_wire := None;
     net_swires :=
       [ {| swire_type := WT_ROUTED; swire_shield := None;
            swire_wires := [ex_odd_box] |} ];
     net_source := SRC_NONE; net_fixed_bump := false; net_weight := 1;
     net_props := [] |}.

Definition ex_odd_block : dbBlock :=
  {| block_name := "top"; block_hier_delimiter := "/"%char;
     block_bus_delimiters := ("["%char, "]"%char);
     block_def_units := 1000;
     block_prop_defs := None;
     block_die_area :=
       DIE_RECT {| r_xMin := 0; r_yMin := 0; r_xMax := 0; r_yMax := 0 |};
     block_insts := []; block_bterms := []; block_iterms := [];
     block_nets := [ex_power_net] |}.

(** A net under the rule [R1] whose wire switches to a rule at the start of
    its path. *)
Definition ex_R1 : dbTechNonDefaultRule := {| ndr_id := 1; ndr_name := "R1" |}.
Definition ex_R2 : dbTechNonDefaultRule := {| ndr_id := 2; ndr_name := "R2" |}.

Definition ex_ruled_wire (switch_to : dbTechNonDefaultRule) : dbWire :=
  {| wire_events :=
       [ plain (E_START PATH ex_M1 WT_ROUTED);
         plain (E_RULE {| lr_non_default_rule := switch_to |});
         plain (E_POINT 0 0);
         plain (E_POINT 0 500) ];
     wire_net_type := WT_ROUTED |}.

(** [_non_default_rule] as [writeNet] sets it for a net under [R1]. *)
Definition ex_writer_under_R1 : defout_impl :=
  set_non_default_rule (Some ex_R1) ex_open_writer.

(** ** Notions the properties are stated with *)

(** A map holds 1 exactly at the ids of a list, and 0 elsewhere. *)
Definition marks (g : gmap nat Z) (S : list nat) : Prop :=
  forall id, dbMap_get g id = if bool_decide (id ∈ S) then 1 else 0.

(** The instance map of a writer against a list of ids: no map yet and
    nothing marked, or a map that marks the list. *)
Definition instMarks (w : defout_impl) (S : list nat) : Prop :=
  match _select_inst_map w with
  | None => S = []
  | Some g => marks g S
  end.

Definition netMarks (w : defout_impl) (S : list nat) : Prop :=
  exists g, _select_net_map w = Some g /\ marks g S.

(** The ids one selected net adds to the instance map. *)
Definition reached (net : dbNet) : list nat :=
  if walked net then rev (connectedInsts net) else [].

(** The mask annotation of an ordinary point: only a coloured point with an
    even index has one. *)
Definition pointMask (cnt : Z) (color : option Z) : string :=
  match color with
  | Some c => if Z.rem cnt 2 =? 0 then "MASK " +:+ fmt_d c else EmptyString
  | None => EmptyString
  end.

(** The line break before every eighth token of a path. *)
Definition pointBreak (cnt : Z) : string :=
  if Z.land cnt 7 =? 0 then nl +:+ "    " else EmptyString.

(** ** The other sections of defout_impl.cpp

    The section writers of the objects a [dbBlock] leaves out, each on the
    set of objects it reads from the block. *)

Inductive dbRowDir := ROW_HORIZONTAL | ROW_VERTICAL.

Record dbRow := {
  row_name : string;
  row_origin : Z * Z;
  row_spacing : Z;
  row_site_count : Z;
  row_site : string;                     (* getSite()->getName() *)
  row_orient : dbOrientType;
  row_direction : dbRowDir;
  row_props : list dbProperty
}.

(** What [getGridPatternX] and [getGridPatternY] hand out for one index. *)
Record trackPattern := {
  tp_origin : Z; tp_count : Z; tp_step : Z;
  tp_first_mask : Z; tp_same_mask : bool
}.

Record dbTrackGrid := {
  tg_layer : dbTechLayer;
  tg_patterns_x : list trackPattern;
  tg_patterns_y : list trackPattern
}.

Record gcellPattern := { gp_origin : Z; gp_count : Z; gp_step : Z }.

Record dbGCellGrid := {
  gcell_patterns_x : list gcellPattern;
  gcell_patterns_y : list gcellPattern
}.

(** A layer rule and a non-default rule with what the rules section
    reads; [rule_min_cuts] holds, in the order of the layers of the
    technology, the layers for which [getMinCuts] holds, with the count. *)
Record dbLayerRule := {
  lrule_layer : string;                  (* getLayer()->getName() *)
  lrule_width : Z;
  lrule_spacing : Z;
  lrule_wire_extension : Z
}.

Record dbBlockRule := {
  rule_ndr : dbTechNonDefaultRule;
  rule_hard_spacing : bool;
  rule_layer_rules : list dbLayerRule;
  rule_use_vias : list string;
  rule_use_via_rules : list string;
  rule_min_cuts : list (string * Z);
  rule_props : list dbProperty
}.

(** A block via with what [writeVia] reads besides its name. *)
Record dbViaParams := {
  vp_x_cut_size : Z; vp_y_cut_size : Z;
  vp_top_layer : string; vp_cut_layer : string; vp_bottom_layer : string;
  vp_x_cut_spacing : Z; vp_y_cut_spacing : Z;
  vp_x_bottom_enclosure : Z; vp_y_bottom_enclosure : Z;
  vp_x_top_enclosure : Z; vp_y_top_enclosure : Z;
  vp_num_cut_rows : Z; vp_num_cut_cols : Z;
  vp_x_origin : Z; vp_y_origin : Z;
  vp_x_top_offset : Z; vp_y_top_offset : Z;
  vp_x_bottom_offset : Z; vp_y_bottom_offset : Z
}.

Record dbBlockVia := {
  bv_via : dbVia;
  bv_generate_rule : option string;      (* name of getViaGenerateRule *)
  bv_params : option dbViaParams;        (* hasParams / getViaParams *)
  bv_pattern : string;
  bv_boxes : list dbBox
}.

Inductive dbRegionType := INCLUSIVE | EXCLUSIVE | SUGGESTED.

(** A region of the block with its type and properties. *)
Record dbBlockRegion := {
  br_region : dbRegion;
  br_type : dbRegionType;
  br_props : list dbProperty
}.

Record dbGroup := {
  group_name : string;
  group_insts : list dbInst;
  group_region : option dbRegion;
  group_props : list dbProperty
}.

Record dbFill := {
  fill_layer : string;                   (* getTechLayer()->getName() *)
  fill_mask : Z;
  fill_opc : bool;
  fill_rect : Rect
}.

Record dbObstruction := {
  obs_bbox : dbBox;
  obs_inst : option dbInst;
  obs_system_reserved : bool;
  obs_slot : bool;
  obs_fill : bool;
  obs_pushed_down : bool;
  obs_effective_width : option Z;
  obs_min_spacing : option Z
}.

(** A placement blockage; [blk_partial] is the text [%f] renders for the
    maximum density when that is positive. *)
Record dbBlockage := {
  blk_bbox : Rect;
  blk_inst : option dbInst;
  blk_system_reserved : bool;
  blk_soft : bool;
  blk_partial : option string;
  blk_pushed_down : bool
}.

Record dbScanInst := {
  scan_inst_name : string;               (* getInst()->getName() *)
  scan_inst_in : string;                 (* pin name of the scan-in access *)
  scan_inst_out : string
}.

Record dbScanPartition := {
  partition_name : string;
  partition_lists : list (list dbScanInst)   (* the scan lists *)
}.

Record dbScanChain := {
  chain_name : string;
  chain_scan_in : string;                (* name of the start pin *)
  chain_scan_out : string;               (* name of the stop pin *)
  chain_partitions : list dbScanPartition
}.

Global Instance dbTechLayer_eq_dec : EqDecision dbTechLayer.
Proof. solve_decision. Defined.

Section Sections.

Variable defdist : Z -> Z.

(** [Rect::operator<] (odb/geom.h) and [dbTechLayer::getNumber] are taken
    as given. *)
Variable rect_lt : Rect -> Rect -> bool.
Variable layerNumber : dbTechLayer -> Z.

(** [std::sort] with a comparator is taken as given as well: the order it
    leaves objects in that the comparator does not tell apart is the
    library's own, and nothing here fixes it. *)
Variable std_sort : forall T : Type, (T -> T -> bool) -> list T -> list T.

(** *** Rows and grids *)

Definition writeRows (rows : list dbRow) : M unit :=
  for_each rows (fun row =>
    let o := defOrient (row_orient row) in
    let s := row_spacing row in
    let c := row_site_count row in
    fprintf ("ROW " +:+ row_name row +:+ " " +:+ row_site row +:+ " "
             +:+ fmt_d (defdist (fst (row_origin row))) +:+ " "
             +:+ fmt_d (defdist (snd (row_origin row))) +:+ " " +:+ o
             +:+ " ") ;;
    match row_direction row with
    | ROW_VERTICAL =>
        fprintf ("DO 1 BY " +:+ fmt_d c +:+ " STEP 0 " +:+ fmt_d (defdist s))
    | ROW_HORIZONTAL =>
        fprintf ("DO " +:+ fmt_d c +:+ " BY 1 STEP " +:+ fmt_d (defdist s)
                 +:+ " 0")
    end ;;
    writePropertyClause (row_props row) ROW ;;
    fprintf (" ;" +:+ nl)).

(** One [TRACKS] line, of the axis [axis]. *)
Definition writeTrackPattern (axis lname : string) (p : trackPattern)
    : M unit :=
  fprintf ("TRACKS " +:+ axis +:+ " " +:+ fmt_d (defdist (tp_origin p))
           +:+ " DO " +:+ fmt_d (tp_count p) +:+ " STEP "
           +:+ fmt_d (defdist (tp_step p))) ;;
  when (negb (tp_first_mask p =? 0))
    (fprintf (" MASK " +:+ fmt_d (tp_first_mask p)) ;;
     when (tp_same_mask p) (fprintf " SAMEMASK")) ;;
  fprintf (" LAYER " +:+ lname +:+ " ;" +:+ nl).

Definition writeTracks (grids : list dbTrackGrid) : M unit :=
  for_each grids (fun grid =>
    w ← get;
    let lname := layerName (_use_alias w) (tg_layer grid) in
    for_each (tg_patterns_x grid) (writeTrackPattern "X" lname) ;;
    for_each (tg_patterns_y grid) (writeTrackPattern "Y" lname)).

Definition writeGCellPattern (axis : string) (p : gcellPattern) : M unit :=
  fprintf ("GCELLGRID " +:+ axis +:+ " " +:+ fmt_d (defdist (gp_origin p))
           +:+ " DO " +:+ fmt_d (gp_count p) +:+ " STEP "
           +:+ fmt_d (defdist (gp_step p)) +:+ " ;" +:+ nl).

Definition writeGCells (grid : option dbGCellGrid) : M unit :=
  match grid with
  | None => mret tt
  | Some grid =>
      for_each (gcell_patterns_x grid) (writeGCellPattern "X") ;;
      for_each (gcell_patterns_y grid) (writeGCellPattern "Y")
  end.

(** *** Non-default rules and the component mask shift *)

Definition writeLayerRule (rule : dbLayerRule) : M unit :=
  fprintf ("      + LAYER " +:+ lrule_layer rule) ;;
  fprintf (" WIDTH " +:+ fmt_d (defdist (lrule_width rule))) ;;
  when (negb (lrule_spacing rule =? 0))
    (fprintf (" SPACING " +:+ fmt_d (defdist (lrule_spacing rule)))) ;;
  when (negb (lrule_wire_extension rule =? 0))
    (fprintf (" WIREEXTENSION "
              +:+ fmt_d (defdist (lrule_wire_extension rule)))) ;;
  fprintf nl.

Definition writeNonDefaultRule (rule : dbBlockRule) : M unit :=
  w ← get;
  fprintf ("    - " +:+ ndr_name (rule_ndr rule) +:+ nl) ;;
  when (rule_hard_spacing rule) (fprintf ("      + HARDSPACING" +:+ nl)) ;;
  for_each (rule_layer_rules rule) writeLayerRule ;;
  for_each (rule_use_vias rule) (fun vname =>
    fprintf ("      + VIA " +:+ vname +:+ nl)) ;;
  for_each (rule_use_via_rules rule) (fun rname =>
    fprintf ("      + VIARULE " +:+ rname +:+ nl)) ;;
  for_each (rule_min_cuts rule) (fun cut =>
    fprintf ("      + MINCUTS " +:+ fst cut +:+ " " +:+ fmt_d (snd cut)
             +:+ nl)) ;;
  when (hasProperties w (rule_props rule) NONDEFAULTRULE)
    (fprintf "    + PROPERTY " ;; writeProperties (rule_props rule)) ;;
  fprintf ("    ;" +:+ nl).

Definition writeNonDefaultRules (rules : list dbBlockRule) : M unit :=
  match rules with
  | [] => mret tt
  | _ :: _ =>
      fprintf ("NONDEFAULTRULES " +:+ fmt_d (Z.of_nat (length rules))
               +:+ " ;" +:+ nl) ;;
      for_each rules writeNonDefaultRule ;;
      fprintf ("END NONDEFAULTRULES" +:+ nl)
  end.

(** The layers by their names ([getConstName]). *)
Definition writeComponentMaskShift (layers : list string) : M unit :=
  match layers with
  | [] => mret tt
  | _ :: _ =>
      fprintf "COMPONENTMASKSHIFT " ;;
      for_each layers (fun layer => fprintf (layer +:+ " ")) ;;
      fprintf (";" +:+ nl)
  end.

(** *** Vias *)

(** A via is left out of the section when
    [(_version >= defout::DEF_5_6) && via->isViaRotated()]. *)
Definition via_skipped (w : defout_impl) (via : dbBlockVia) : bool :=
  version_ge (_version w) DEF_5_6 && via_rotated (bv_via via).

Definition writePattern (via : dbBlockVia) : M unit :=
  when (negb (String.eqb (bv_pattern via) EmptyString))
    (fprintf (" + PATTERNNAME " +:+ bv_pattern via)).

Definition writeViaParams (rname : string) (P : dbViaParams) : M unit :=
  fprintf (" + VIARULE " +:+ rname) ;;
  fprintf (" + CUTSIZE " +:+ fmt_d (defdist (vp_x_cut_size P)) +:+ " "
           +:+ fmt_d (defdist (vp_y_cut_size P)) +:+ " ") ;;
  fprintf (" + LAYERS " +:+ vp_bottom_layer P +:+ " " +:+ vp_cut_layer P
           +:+ " " +:+ vp_top_layer P +:+ " ") ;;
  fprintf (" + CUTSPACING " +:+ fmt_d (defdist (vp_x_cut_spacing P)) +:+ " "
           +:+ fmt_d (defdist (vp_y_cut_spacing P)) +:+ " ") ;;
  fprintf (" + ENCLOSURE " +:+ fmt_d (defdist (vp_x_bottom_enclosure P))
           +:+ " " +:+ fmt_d (defdist (vp_y_bottom_enclosure P))
           +:+ " " +:+ fmt_d (defdist (vp_x_top_enclosure P))
           +:+ " " +:+ fmt_d (defdist (vp_y_top_enclosure P)) +:+ " ") ;;
  when (negb (vp_num_cut_rows P =? 1) || negb (vp_num_cut_cols P =? 1))
    (fprintf (" + ROWCOL " +:+ fmt_d (vp_num_cut_rows P) +:+ " "
              +:+ fmt_d (vp_num_cut_cols P) +:+ " ")) ;;
  when (negb (vp_x_origin P =? 0) || negb (vp_y_origin P =? 0))
    (fprintf (" + ORIGIN " +:+ fmt_d (defdist (vp_x_origin P)) +:+ " "
              +:+ fmt_d (defdist (vp_y_origin P)) +:+ " ")) ;;
  when (negb (vp_x_top_offset P =? 0) || negb (vp_y_top_offset P =? 0)
        || negb (vp_x_bottom_offset P =? 0)
        || negb (vp_y_bottom_offset P =? 0))
    (fprintf (" + OFFSET " +:+ fmt_d (defdist (vp_x_bottom_offset P))
              +:+ " " +:+ fmt_d (defdist (vp_y_bottom_offset P))
              +:+ " " +:+ fmt_d (defdist (vp_x_top_offset P))
              +:+ " " +:+ fmt_d (defdist (vp_y_top_offset P)) +:+ " ")).

Definition writeVia (via : dbBlockVia) : M unit :=
  w ← get;
  fprintf ("    - " +:+ via_name (bv_via via)) ;;
  match version_ge (_version w) DEF_5_6, bv_params via,
        bv_generate_rule via with
  | true, Some P, Some rname =>
      writeViaParams rname P ;;
      writePattern via
  | _, _, _ =>
      writePattern via ;;
      for_each_from 1 (bv_boxes via) (fun box i =>
        let lname := layerName (_use_alias w) (box_layer box) in
        let r := box_rect box in
        when (Z.land i 7 =? 0) (fprintf (nl +:+ "      ")) ;;
        fprintf (" + RECT " +:+ lname +:+ " "
                 +:+ fmt_rect (defdist (r_xMin r)) (defdist (r_yMin r))
                       (defdist (r_xMax r)) (defdist (r_yMax r))))
  end ;;
  fprintf (" ;" +:+ nl).

Definition writeVias (vias : list dbBlockVia) : M unit :=
  match vias with
  | [] => mret tt
  | _ :: _ =>
      w ← get;
      let cnt :=
        fold_left (fun cnt via => if via_skipped w via then cnt else cnt + 1)
          vias 0 in
      fprintf ("VIAS " +:+ fmt_d cnt +:+ " ;" +:+ nl) ;;
      for_each vias (fun via =>
        if via_skipped w via then mret tt else writeVia via) ;;
      fprintf ("END VIAS" +:+ nl)
  end.

(** *** Regions and groups *)

Definition hasBoundaries (region : dbRegion) : bool :=
  negb (bool_decide (region_boundaries region = [])).

Definition writeRegion (region : dbBlockRegion) : M unit :=
  fprintf ("    - " +:+ region_name (br_region region)) ;;
  for_each_from 0 (region_boundaries (br_region region)) (fun box cnt =>
    when (Z.land cnt 3 =? 3) (fprintf (nl +:+ "        ")) ;;
    fprintf (" " +:+ fmt_rect (defdist (r_xMin box)) (defdist (r_yMin box))
                       (defdist (r_xMax box)) (defdist (r_yMax box)))) ;;
  match br_type region with
  | INCLUSIVE => mret tt
  | EXCLUSIVE => fprintf " + TYPE FENCE"
  | SUGGESTED => fprintf " + TYPE GUIDE"
  end ;;
  writePropertyClause (br_props region) REGION ;;
  fprintf (" ;" +:+ nl).

Definition writeRegions (regions : list dbBlockRegion) : M unit :=
  let cnt :=
    fold_left (fun cnt region =>
      if hasBoundaries (br_region region) then cnt + 1 else cnt) regions 0 in
  if cnt =? 0 then mret tt
  else
    fprintf ("REGIONS " +:+ fmt_d cnt +:+ " ;" +:+ nl) ;;
    for_each regions (fun region =>
      if negb (hasBoundaries (br_region region)) then mret tt
      else writeRegion region) ;;
    fprintf ("END REGIONS" +:+ nl).

Definition hasInsts (group : dbGroup) : bool :=
  negb (bool_decide (group_insts group = [])).

Definition writeGroup (group : dbGroup) : M unit :=
  fprintf ("    - " +:+ group_name group) ;;
  for_each_from 0 (group_insts group) (fun inst cnt =>
    when (Z.land cnt 3 =? 3) (fprintf (nl +:+ "        ")) ;;
    fprintf (" " +:+ inst_name inst)) ;;
  match group_region group with
  | Some parent =>
      when (hasBoundaries parent)
        (fprintf (" + REGION " +:+ region_name parent))
  | None => mret tt
  end ;;
  writePropertyClause (group_props group) GROUP ;;
  fprintf (" ;" +:+ nl).

Definition writeGroups (groups : list dbGroup) : M unit :=
  let cnt :=
    fold_left (fun cnt group => if hasInsts group then cnt + 1 else cnt)
      groups 0 in
  if cnt =? 0 then mret tt
  else
    fprintf ("GROUPS " +:+ fmt_d cnt +:+ " ;" +:+ nl) ;;
    for_each groups (fun group =>
      if negb (hasInsts group) then mret tt else writeGroup group) ;;
    fprintf ("END GROUPS" +:+ nl).

(** *** Fills *)

Definition writeFill (fill : dbFill) : M unit :=
  fprintf ("    - LAYER " +:+ fill_layer fill) ;;
  when (negb (fill_mask fill =? 0))
    (fprintf (" + MASK " +:+ fmt_d (fill_mask fill))) ;;
  when (fill_opc fill) (fprintf " + OPC") ;;
  let r := fill_rect fill in
  fprintf (" RECT " +:+ fmt_rect (defdist (r_xMin r)) (defdist (r_yMin r))
                         (defdist (r_xMax r)) (defdist (r_yMax r))
           +:+ " ;" +:+ nl).

Definition writeFills (fills : list dbFill) : M unit :=
  match fills with
  | [] => mret tt
  | _ :: _ =>
      fprintf ("FILLS " +:+ fmt_d (Z.of_nat (length fills)) +:+ " ;" +:+ nl) ;;
      for_each fills writeFill ;;
      fprintf ("END FILLS" +:+ nl)
  end.

(** *** Blockages *)

(** The comparator of the obstruction sort: both layers are read from the
    box of [a]. *)
Definition obstruction_lt (a b : dbObstruction) : bool :=
  let bbox_a := obs_bbox a in
  let layer_a := box_layer bbox_a in
  let bbox_b := obs_bbox b in
  let layer_b := box_layer bbox_a in
  if negb (bool_decide (layer_a = layer_b)) then
    layerNumber layer_a <? layerNumber layer_b
  else rect_lt (box_rect bbox_a) (box_rect bbox_b).

Definition blockage_lt (a b : dbBlockage) : bool :=
  rect_lt (blk_bbox a) (blk_bbox b).

(** [inst && _select_inst_map && ] the map holds 0 for [inst]. *)
Definition owner_skipped (w : defout_impl) (inst : option dbInst) : bool :=
  match inst with
  | Some i => inst_skipped w i
  | None => false
  end.

Definition writeComponentOf (w : defout_impl) (inst : option dbInst)
    : M unit :=
  match inst with
  | Some i => fprintf (" + COMPONENT " +:+ instRef w i)
  | None => mret tt
  end.

(** One obstruction record, without the header that may precede it. *)
Definition writeObstruction (obs : dbObstruction) : M unit :=
  w ← get;
  let bbox := obs_bbox obs in
  fprintf ("    - LAYER " +:+ layerName (_use_alias w) (box_layer bbox)) ;;
  writeComponentOf w (obs_inst obs) ;;
  when (obs_slot obs) (fprintf " + SLOTS") ;;
  when (obs_fill obs) (fprintf " + FILLS") ;;
  when (obs_pushed_down obs) (fprintf " + PUSHDOWN") ;;
  when (version_ge (_version w) DEF_5_6)
    match obs_effective_width obs, obs_min_spacing obs with
    | Some ew, _ => fprintf (" + DESIGNRULEWIDTH " +:+ fmt_d (defdist ew))
    | None, Some ms => fprintf (" + SPACING " +:+ fmt_d (defdist ms))
    | None, None => mret tt
    end ;;
  let r := box_rect bbox in
  fprintf (" RECT " +:+ fmt_rect (defdist (r_xMin r)) (defdist (r_yMin r))
                         (defdist (r_xMax r)) (defdist (r_yMax r))
           +:+ " ;" +:+ nl).

Definition writeBlockage (blk : dbBlockage) : M unit :=
  w ← get;
  fprintf "    - PLACEMENT" ;;
  when (blk_soft blk) (fprintf " + SOFT") ;;
  match blk_partial blk with
  | Some f => fprintf (" + PARTIAL " +:+ f)
  | None => mret tt
  end ;;
  writeComponentOf w (blk_inst blk) ;;
  when (blk_pushed_down blk) (fprintf " + PUSHDOWN") ;;
  let r := blk_bbox blk in
  fprintf (" RECT " +:+ fmt_rect (defdist (r_xMin r)) (defdist (r_yMin r))
                         (defdist (r_xMax r)) (defdist (r_yMax r))
           +:+ " ;" +:+ nl).

(** One of the two loops of [writeBlockages]: the records of the objects
    that pass the instance filter, the header before the first record of
    the section; [first] tells whether the header is still to come. *)
Definition writeBlockageRecords {T} (bcnt : Z) (owner : T -> option dbInst)
    (record : T -> M unit) (sorted : list T) (first : bool) : M bool :=
  fold_M sorted first (fun first x =>
    w ← get;
    if owner_skipped w (owner x) then mret first
    else
      when first (fprintf ("BLOCKAGES " +:+ fmt_d bcnt +:+ " ;" +:+ nl)) ;;
      record x ;;
      mret false).

Definition writeBlockages (obstructions_raw : list dbObstruction)
    (blockages_raw : list dbBlockage) : M unit :=
  let obstructions :=
    List.filter (fun o => negb (obs_system_reserved o)) obstructions_raw in
  let blockages :=
    List.filter (fun b => negb (blk_system_reserved b)) blockages_raw in
  let bcnt := Z.of_nat (length obstructions + length blockages) in
  if bcnt =? 0 then mret tt
  else
    first ← writeBlockageRecords bcnt obs_inst writeObstruction
               (std_sort _ obstruction_lt obstructions) true;
    first ← writeBlockageRecords bcnt blk_inst writeBlockage
               (std_sort _ blockage_lt blockages) first;
    when (negb first) (fprintf ("END BLOCKAGES" +:+ nl)).

(** *** Scan chains *)

(** The name a partition of a chain is written under. *)
Definition scanChainName (chain : dbScanChain) (chain_suffix : Z) : string :=
  if Nat.eqb (length (chain_partitions chain)) 1 then chain_name chain
  else chain_name chain +:+ "_" +:+ fmt_d chain_suffix.

(** The scan lists of a partition; the two flags tell which of [FLOATING]
    and [ORDERED] was printed last. *)
Definition writeScanLists (lists : list (list dbScanInst)) : M unit :=
  fold_M lists (false, false)
    (fun '(already_printed_floating, already_printed_ordered) scan_insts =>
       flags ←
         (if Nat.eqb (length scan_insts) 1 && negb already_printed_floating
          then fprintf ("+ FLOATING" +:+ nl) ;; mret (true, false)
          else if Nat.ltb 1 (length scan_insts)
                  && negb already_printed_ordered
          then fprintf ("+ ORDERED" +:+ nl) ;; mret (false, true)
          else mret (already_printed_floating, already_printed_ordered));
       for_each scan_insts (fun scan_inst =>
         fprintf ("  " +:+ scan_inst_name scan_inst +:+ " ( IN "
                  +:+ scan_inst_in scan_inst +:+ " ) ( OUT "
                  +:+ scan_inst_out scan_inst +:+ " )" +:+ nl)) ;;
       mret flags) ;;
  mret tt.

Definition writeScanPartition (chain : dbScanChain)
    (partition : dbScanPartition) (chain_suffix : Z) : M unit :=
  fprintf ("- " +:+ scanChainName chain chain_suffix +:+ nl) ;;
  fprintf ("+ START PIN " +:+ chain_scan_in chain +:+ nl) ;;
  writeScanLists (partition_lists partition) ;;
  fprintf ("+ PARTITION " +:+ partition_name partition +:+ nl) ;;
  fprintf ("+ STOP PIN " +:+ chain_scan_out chain +:+ " ;" +:+ nl +:+ nl).

Definition writeScanChains (scan_chains : list dbScanChain) : M unit :=
  match scan_chains with
  | [] => mret tt
  | _ :: _ =>
      fprintf (nl +:+ "SCANCHAINS " +:+ fmt_d (Z.of_nat (length scan_chains))
               +:+ " ;" +:+ nl +:+ nl) ;;
      for_each scan_chains (fun scan_chain =>
        for_each_from 0 (chain_partitions scan_chain)
          (writeScanPartition scan_chain)) ;;
      fprintf ("END SCANCHAINS" +:+ nl +:+ nl)
  end.

End Sections.

(** ** The whole of [writeBlock]

    The objects of a block that [dbBlock] leaves out, and [writeBlock] with
    every section. *)
Record dbBlockRest := {
  block_rows : list dbRow;
  block_track_grids : list dbTrackGrid;
  block_gcell_grid : option dbGCellGrid;
  block_vias : list dbBlockVia;
  block_non_default_rules : list dbBlockRule;
  block_regions : list dbBlockRegion;
  block_component_mask_shift : list string;
  block_obstructions : list dbObstruction;
  block_blockages : list dbBlockage;
  block_fills : list dbFill;
  block_groups : list dbGroup;
  block_scan_chains : list dbScanChain
}.

(** A block with none of them. *)
Definition no_rest : dbBlockRest :=
  {| block_rows := []; block_track_grids := []; block_gcell_grid := None;
     block_vias := []; block_non_default_rules := []; block_regions := [];
     block_component_mask_shift := []; block_obstructions := [];
     block_blockages := []; block_fills := []; block_groups := [];
     block_scan_chains := [] |}.

Module Full.

Definition writeBlock (defdist : Z -> Z)
    (wireTypeString : dbWireType -> string)
    (shapeTypeString : dbWireShapeType -> string)
    (rect_lt : Rect -> Rect -> bool) (layerNumber : dbTechLayer -> Z)
    (std_sort : forall T : Type, (T -> T -> bool) -> list T -> list T)
    (writable : string -> bool) (block : dbBlock) (rest : dbBlockRest)
    (def_file : string) : M bool :=
  buildSelection ;;
  openFile writable def_file ;;
  w ← get;
  match _out w with
  | None => warn (cannotOpen def_file) ;; mret false
  | Some _ =>
      setBuffering ;;
      writeHeader block ;;
      writePropertyDefinitions block ;;
      writeDieArea defdist block ;;
      writeRows defdist (block_rows rest) ;;
      writeTracks defdist (block_track_grids rest) ;;
      writeGCells defdist (block_gcell_grid rest) ;;
      writeVias defdist (block_vias rest) ;;
      writeNonDefaultRules defdist (block_non_default_rules rest) ;;
      writeRegions defdist (block_regions rest) ;;
      (v ← get;
       when (version_eq (_version v) DEF_5_8)
         (writeComponentMaskShift (block_component_mask_shift rest))) ;;
      writeInsts defdist block ;;
      writeBTerms defdist block ;;
      writePinProperties block ;;
      writeBlockages defdist rect_lt layerNumber std_sort
        (block_obstructions rest) (block_blockages rest) ;;
      writeFills defdist (block_fills rest) ;;
      writeNets defdist wireTypeString shapeTypeString block ;;
      writeGroups (block_groups rest) ;;
      writeScanChains (block_scan_chains rest) ;;
      fprintf ("END DESIGN" +:+ nl) ;;
      mret true
  end.

End Full.

(** ** What a member function does to the writer

    [performs w m text msgs]: run on the writer [w], whatever its open
    stream holds and whatever was logged, [m] returns after appending
    [text] to the stream and [msgs] to the log, and changes nothing else. *)
Definition performs (w : defout_impl) (m : M unit) (text : string)
    (msgs : list string) : Prop :=
  forall s l,
    m (set_logger l (set_out (Some s) w))
    = Ret tt (set_logger (l ++ msgs) (set_out (Some (s +:+ text)) w)).

(** [m] only prints, some text. *)
Definition prints (w : defout_impl) (m : M unit) : Prop :=
  exists text, performs w m text [].

(** [m] only prints, a text that starts with [p]. *)
Definition prints_from (p : string) (w : defout_impl) (m : M unit) : Prop :=
  exists text, String.prefix p text = true /\ performs w m text [].

(** The texts of a list, one after the other. *)
Definition joined (texts : list string) : string :=
  fold_right String.append EmptyString texts.

(** The order of the names along a list. *)
Definition by_name {T} (name : T -> string) : relation T :=
  fun a b => String.le (name a) (name b).

(** What a record is: a text that starts with the dash of a record and is
    what the record writer prints for the object. *)
Definition record_of {T} (writer : T -> M unit) (w : defout_impl)
    (x : T) (text : string) : Prop :=
  String.prefix "    - " text = true /\ performs w (writer x) text [].

(** [yields w m a text msgs]: like [performs], for a function that returns
    the value [a]. *)
Definition yields {A} (w : defout_impl) (m : M A) (a : A) (text : string)
    (msgs : list string) : Prop :=
  forall s l,
    m (set_logger l (set_out (Some s) w))
    = Ret a (set_logger (l ++ msgs) (set_out (Some (s +:+ text)) w)).

(** The warning [writeBTerm] logs for a pin without a net. *)
Definition noNetWarning (bterm : dbBTerm) : string :=
  "warning: pin " +:+ bterm_name bterm +:+ " skipped because it has no net".

Definition hasNet (bterm : dbBTerm) : bool :=
  match bterm_net bterm with Some _ => true | None => false end.

(** A net goes to the [NETS] section when it is not special, or has a
    terminal that is not special. *)
Definition isRegular (net : dbNet) : bool :=
  negb (net_special net)
  || existsb (fun iterm => negb (iterm_special iterm)) (net_iterms net).

(** One round of the counting pass of [writeNets]. *)
Definition countStep (w : defout_impl) (acc : gmap nat Z * Z * Z)
    (net : dbNet) : gmap nat Z * Z * Z :=
  let '(regular_net, net_cnt, snet_cnt) := acc in
  if net_skipped w (net_id net) then (regular_net, net_cnt, snet_cnt)
  else if negb (net_special net) then
    (<[net_id net := 1]> regular_net, net_cnt + 1, snet_cnt)
  else if existsb (fun iterm => negb (iterm_special iterm)) (net_iterms net)
  then (<[net_id net := 1]> regular_net, net_cnt + 1, snet_cnt + 1)
  else (<[net_id net := 0]> regular_net, net_cnt, snet_cnt + 1).

(** [runs w w' m a text msgs]: like [yields], for a function that also
    changes other members: run on [w], whatever its open stream holds and
    whatever was logged, [m] returns [a] and leaves [w'] with [text]
    appended to the stream and [msgs] to the log. *)
Definition runs {A} (w w' : defout_impl) (m : M A) (a : A) (text : string)
    (msgs : list string) : Prop :=
  forall s l,
    m (set_logger l (set_out (Some s) w))
    = Ret a (set_logger (l ++ msgs) (set_out (Some (s +:+ text)) w')).

(** The property definitions container lists [name] under the category
    [type]. *)
Definition listed (block : dbBlock) (type : ObjType) (name : string)
    : Prop :=
  exists obj_types objType props prop,
    block_prop_defs block = Some obj_types /\
    (objType, props) ∈ obj_types /\
    objTypeOfName objType = Some type /\
    prop ∈ props /\
    prop_name prop = name.

(** [w'] is [w] with more names registered: those that [adds] holds of. *)
Definition registered_more (adds : ObjType -> string -> Prop)
    (w w' : defout_impl) : Prop :=
  set_prop_defs (fun _ => ∅) w' = set_prop_defs (fun _ => ∅) w /\
  forall type name,
    is_Some (_prop_defs w' type !! name) <->
    is_Some (_prop_defs w type !! name) \/ adds type name.

(** [m] prints and registers the names [adds] holds of, nothing else. *)
Definition registering (m : M unit) (adds : ObjType -> string -> Prop)
    : Prop :=
  forall w, exists w' text,
    runs w w' m tt text [] /\ registered_more adds w w'.

(** A writer with its two selection maps put aside. *)
Definition without_maps (w : defout_impl) : defout_impl :=
  set_select_net_map None (set_select_inst_map None w).

(** The objects of a list with the counter [for_each_from] hands to each. *)
Fixpoint indexed_from {A} (cnt : Z) (l : list A) : list (A * Z) :=
  match l with
  | [] => []
  | x :: rest => (x, cnt) :: indexed_from (cnt + 1) rest
  end.

(** The record of one partition of a scan chain: it starts with the name
    line of the partition. *)
Definition scan_record (w : defout_impl) (chain : dbScanChain)
    (partition : dbScanPartition * Z) (text : string) : Prop :=
  String.prefix ("- " +:+ scanChainName chain (snd partition) +:+ nl) text
  = true /\
  performs w (writeScanPartition chain (fst partition) (snd partition))
    text [].

(** ** Nets and the current rule *)

(** [m] prints [text] and returns [a] whatever the writer, which it leaves
    as it is. *)
Definition says {A} (m : M A) (a : A) (text : string) : Prop :=
  forall w, yields w m a text [].

Definition speaks {A} (m : M A) : Prop := exists a text, says m a text.

(** [m] prints a text that starts with [p] and logs [msgs], both the same
    whatever rule was current before, and leaves [rule] as the current
    rule. *)
Definition blind (p : string) (w : defout_impl)
    (rule : option dbTechNonDefaultRule) (m : M unit) (msgs : list string)
    : Prop :=
  exists text,
    String.prefix p text = true /\
    forall r,
      runs (set_non_default_rule r w) (set_non_default_rule rule w) m tt
        text msgs.

(** The centre line of a box is defined: the first half of
    [writeSpecialPath] returns. *)
Definition path_defined (box : dbSBox) : Prop :=
  exists g, forall w, specialPathGeometry box w = Ret g w.

Definition wires_defined (net : dbNet) : Prop :=
  forall wire box,
    wire ∈ net_swires net -> box ∈ swire_wires wire ->
    sbox_is_via box = false -> path_defined box.

Definition shieldWarning (wire : dbSWire) : list string :=
  match swire_type wire, swire_shield wire with
  | WT_SHIELD, None => ["warning: missing shield net"]
  | _, _ => []
  end.

Definition shieldWarnings (net : dbNet) : list string :=
  concat (map shieldWarning (net_swires net)).

(** The records of the two net sections: what the record writer prints for
    the net, from the dash on, whatever rule the net before it left. *)
Definition net_record (defdist : Z -> Z) (wts : dbWireType -> string)
    (w : defout_impl) (net : dbNet) (text : string) : Prop :=
  String.prefix "    - " text = true /\
  forall r,
    runs (set_non_default_rule r w) (set_non_default_rule (net_ndr net) w)
      (writeNet defdist wts net) tt text [].

Definition snet_record (defdist : Z -> Z) (sts : dbWireShapeType -> string)
    (w : defout_impl) (net : dbNet) (text : string) : Prop :=
  String.prefix "    - " text = true /\
  forall r,
    runs (set_non_default_rule r w) (set_non_default_rule None w)
      (writeSNet defdist sts net) tt text (shieldWarnings net).

(** [m] returns after printing, with some value. *)
Definition answers {A} (w : defout_impl) (m : M A) : Prop :=
  exists a text, yields w m a text [].




(** The two kinds of record of the pin properties section. *)
Definition pinPropertiesText (bterm : dbBTerm) : string :=
  "  - PIN " +:+ bterm_name bterm +:+ " + PROPERTY "
  +:+ propertiesText (bterm_props bterm) +:+ " ;" +:+ nl.

Definition termPropertiesText (iterm : dbITerm) : string :=
  "  - " +:+ inst_name (iterm_inst iterm) +:+ " " +:+ iterm_mterm iterm
  +:+ " + PROPERTY " +:+ propertiesText (iterm_props iterm) +:+ " ;" +:+ nl.


(** One sort among those [std::sort] may be: the merge sort that keeps the
    order of the objects the comparator does not tell apart. *)
Definition ex_std_sort (T : Type) (lt : T -> T -> bool) : list T -> list T :=
  merge_sort (fun a b => Is_true (negb (lt b a))).

(** Rectangles by their lower left corner. *)
Definition ex_rect_lt (a b : Rect) : bool :=
  (r_xMin a <? r_xMin b) || ((r_xMin a =? r_xMin b) && (r_yMin a <? r_yMin b)).

(** Two obstructions over one rectangle, on M2 and on M1, and a placement
    blockage. *)
Definition ex_obstructions : list dbObstruction :=
  let over layer :=
    {| obs_bbox :=
         {| box_rect := {| r_xMin := 0; r_yMin := 0; r_xMax := 10;
                           r_yMax := 10 |};
            box_layer := {| layer_name := layer; layer_alias := None |};
            box_mask := 0 |};
       obs_inst := None; obs_system_reserved := false; obs_slot := false;
       obs_fill := false; obs_pushed_down := false;
       obs_effective_width := None; obs_min_spacing := None |} in
  [over "M2"; over "M1"].

Definition ex_blockages : list dbBlockage :=
  [ {| blk_bbox := {| r_xMin := 0; r_yMin := 0; r_xMax := 5; r_yMax := 5 |};
       blk_inst := None; blk_system_reserved := false; blk_soft := true;
       blk_partial := None; blk_pushed_down := false |} ].

(** A scan chain with two partitions, without scan lists. *)
Definition ex_split_chain : dbScanChain :=
  {| chain_name := "chain"; chain_scan_in := "si"; chain_scan_out := "so";
     chain_partitions :=
       [ {| partition_name := "p0"; partition_lists := [] |};
         {| partition_name := "p1"; partition_lists := [] |} ] |}.

(** ** A design with a special net

    The net [VSS] has one wire, a rail of direction HORIZONTAL that is 100
    long and 6 wide. *)
Definition ex_rail_box : dbSBox :=
  {| sbox_rect := {| r_xMin := 0; r_yMin := 0; r_xMax := 100; r_yMax := 6 |};
     sbox_layer := ex_M1; sbox_mask := 0; sbox_direction := HORIZONTAL;
     sbox_oct := {| oct_center_low := (0, 0); oct_center_high := (0, 0);
                    oct_width := 0 |};
     sbox_shape := WS_NONE; sbox_is_via := false; sbox_via := None;
     sbox_via_xy := (0, 0); sbox_via_masks := None |}.

Definition ex_ground_net : dbNet :=
  {| net_id := 3; net_name := "VSS"; net_special := true;
     net_mark_1ed := false; net_wild_connected := false;
     net_iterms := []; net_bterms := []; net_xtalk := 0;
     net_sig := "GROUND"; net_ndr := None; net_wire := None;
     net_swires :=
       [ {| swire_type := WT_ROUTED; swire_shield := None;
            swire_wires := [ex_rail_box] |} ];
     net_source := SRC_NONE; net_fixed_bump := false; net_weight := 1;
     net_props := [] |}.

Definition ex_rail_block : dbBlock :=
  {| block_name := "top"; block_hier_delimiter := "/"%char;
     block_bus_delimiters := ("["%char, "]"%char);
     block_def_units := 1000;
     block_prop_defs := Some [("NET", [int_prop "A" 0])];
     block_die_area :=
       DIE_RECT {| r_xMin := 0; r_yMin := 0; r_xMax := 100; r_yMax := 200 |};
     block_insts := [ex_u1; ex_u0];
     block_bterms := [ex_p1; ex_p2];
     block_iterms := [];
     block_nets := [ex_n1; ex_ground_net] |}.

(** A design whose die area is a polygon without points. *)
Definition ex_pointless_block : dbBlock :=
  {| block_name := "top"; block_hier_delimiter := "/"%char;
     block_bus_delimiters := ("["%char, "]"%char);
     block_def_units := 1000;
     block_prop_defs := None;
     block_die_area := DIE_POLYGON [];
     block_insts := []; block_bterms := []; block_iterms := [];
     block_nets := [] |}.

(** The other objects of the design: one row and one fill. *)
Definition ex_rest : dbBlockRest :=
  {| block_rows :=
       [ {| row_name := "ROW_0"; row_origin := (0, 0); row_spacing := 200;
            row_site_count := 10; row_site := "core"; row_orient := R0;
            row_direction := ROW_HORIZONTAL; row_props := [] |} ];
     block_track_grids := []; block_gcell_grid := None;
     block_vias := []; block_non_default_rules := []; block_regions := [];
     block_component_mask_shift := []; block_obstructions := [];
     block_blockages := [];
     block_fills :=
       [ {| fill_layer := "M1"; fill_mask := 0; fill_opc := false;
            fill_rect := {| r_xMin := 0; r_yMin := 0; r_xMax := 10;
                            r_yMax := 10 |} |} ];
     block_groups := [];
     block_scan_chains := [] |}.

(** * Properties *)

(** ** Running the monad *)

Lemma bind_Ret {A B} (m : M A) (f : A -> M B) w a w' :
  m w = Ret a w' -> (m ≫= f) w = f a w'.
Proof. intros H. unfold mbind, M_bind. now rewrite H. Qed.

Lemma bind_Abort {A B} (m : M A) (f : A -> M B) w e w' :
  m w = Abort e w' -> (m ≫= f) w = Abort e w'.
Proof. intros H. unfold mbind, M_bind. now rewrite H. Qed.

Lemma for_each_pure {A} (body : A -> M unit)
    (f : A -> defout_impl -> defout_impl) :
  (forall x w, body x w = Ret tt (f x w)) ->
  forall l w, for_each l body w = Ret tt (fold_left (fun w x => f x w) l w).
Proof.
  intros Hbody l. induction l as [|x l IH]; intros w; simpl.
  - reflexivity.
  - rewrite (bind_Ret _ _ _ _ _ (Hbody x w)). apply IH.
Qed.

Lemma selectOneNet_eq net w :
  selectOneNet net w = Ret tt (selectOneNet_pure net w).
Proof.
  unfold selectOneNet, selectOneNet_pure.
  rewrite (bind_Ret _ _ w tt (markNet net w)) by reflexivity.
  destruct (net_special net || net_mark_1ed net); [reflexivity|].
  rewrite (bind_Ret _ _ _ tt (ensureInstMap (markNet net w))) by reflexivity.
  now apply for_each_pure.
Qed.

Lemma buildSelection_eq w : buildSelection w = Ret tt (selection w).
Proof.
  unfold buildSelection, selection.
  rewrite (bind_Ret _ _ w w w) by reflexivity.
  set (w1 := match _select_net_list w with [] => w | _ :: _ => _ end).
  assert (H1 : (match _select_net_list w with
                | [] => mret tt
                | _ :: _ => modify (set_select_net_map (Some ∅)) ;;
                            for_each (_select_net_list w) selectOneNet
                end) w = Ret tt w1).
  { subst w1. destruct (_select_net_list w) as [|n l] eqn:E; [reflexivity|].
    rewrite (bind_Ret _ _ w tt (set_select_net_map (Some ∅) w)) by reflexivity.
    apply for_each_pure. apply selectOneNet_eq. }
  rewrite (bind_Ret _ _ _ _ _ H1).
  destruct (_select_inst_list w) as [|i l] eqn:E; [reflexivity|].
  rewrite (bind_Ret _ _ w1 tt (ensureInstMap w1)) by reflexivity.
  now apply for_each_pure.
Qed.

(** ** The selection maps *)


Lemma marks_empty : marks ∅ [].
Proof. intros id. unfold dbMap_get. now rewrite lookup_empty. Qed.

Lemma marks_insert g S k : marks g S -> marks (<[k := 1]> g) (k :: S).
Proof.
  intros H id. unfold dbMap_get. rewrite lookup_insert.
  destruct (decide (k = id)) as [->|Hne]; simpl.
  - rewrite bool_decide_eq_true_2; [reflexivity|]. apply elem_of_cons. now left.
  - specialize (H id). unfold dbMap_get in H. rewrite H.
    apply (f_equal (fun b : bool => if b then 1 else 0)).
    apply bool_decide_ext. rewrite elem_of_cons. intuition congruence.
Qed.


Lemma instMarks_markInst w S i :
  instMarks w S ->
  instMarks (markInst i w) (inst_id i :: S) /\ is_Some (_select_inst_map (markInst i w)).
Proof.
  unfold instMarks, markInst. simpl. intros H. split; [|eauto].
  destruct (_select_inst_map w) as [g|]; simpl.
  - now apply marks_insert.
  - subst S. apply marks_insert, marks_empty.
Qed.

Lemma instMarks_ensure w S :
  instMarks w S ->
  instMarks (ensureInstMap w) S /\ is_Some (_select_inst_map (ensureInstMap w)).
Proof.
  unfold instMarks, ensureInstMap. intros H.
  destruct (_select_inst_map w) as [g|] eqn:E; simpl.
  - rewrite E. eauto.
  - subst S. split; [apply marks_empty | eauto].
Qed.

Lemma ensureInstMap_net_map w :
  _select_net_map (ensureInstMap w) = _select_net_map w.
Proof. unfold ensureInstMap. now destruct (_select_inst_map w). Qed.

Lemma instMarks_fold_insts (l : list dbInst) : forall w S,
  instMarks w S -> is_Some (_select_inst_map w) ->
  let w' := fold_left (fun w inst => markInst inst w) l w in
  instMarks w' (rev (map inst_id l) ++ S) /\ is_Some (_select_inst_map w') /\
  _select_net_map w' = _select_net_map w.
Proof.
  induction l as [|i l IH]; intros w S H Hs; simpl.
  - auto.
  - destruct (instMarks_markInst w S i H) as [H1 H2].
    destruct (IH _ _ H1 H2) as (IH1 & IH2 & IH3).
    rewrite <- app_assoc. simpl. auto.
Qed.

Lemma instMarks_fold_iterms (l : list dbITerm) : forall w S,
  instMarks w S -> is_Some (_select_inst_map w) ->
  let w' := fold_left (fun w iterm => markInst (iterm_inst iterm) w) l w in
  instMarks w' (rev (map (fun iterm => inst_id (iterm_inst iterm)) l) ++ S) /\
  is_Some (_select_inst_map w') /\
  _select_net_map w' = _select_net_map w.
Proof.
  induction l as [|i l IH]; intros w S H Hs; simpl.
  - auto.
  - destruct (instMarks_markInst w S (iterm_inst i) H) as [H1 H2].
    destruct (IH _ _ H1 H2) as (IH1 & IH2 & IH3).
    rewrite <- app_assoc. simpl. auto.
Qed.


Lemma selectOneNet_pure_marks net w SN SI :
  netMarks w SN -> instMarks w SI ->
  let w' := selectOneNet_pure net w in
  netMarks w' (net_id net :: SN) /\ instMarks w' (reached net ++ SI) /\
  (is_Some (_select_inst_map w) \/ walked net = true ->
   is_Some (_select_inst_map w')).
Proof.
  intros (g & Hg & Hm) HI. unfold selectOneNet_pure, reached, walked.
  assert (HN : netMarks (markNet net w) (net_id net :: SN)).
  { exists (<[net_id net := 1]> g). unfold markNet; simpl. rewrite Hg; simpl.
    split; [reflexivity | now apply marks_insert]. }
  assert (HI1 : instMarks (markNet net w) SI) by exact HI.
  destruct (net_special net || net_mark_1ed net); simpl.
  - split; [exact HN|]. split; [exact HI|].
    intros [Hs|Hw]; [exact Hs | discriminate].
  - destruct (instMarks_ensure _ _ HI1) as [H2 H3].
    destruct (instMarks_fold_iterms (net_iterms net) _ _ H2 H3) as (H4 & H5 & H6).
    split; [|split; [exact H4 | intros _; exact H5]].
    destruct HN as (g' & Hg' & Hm'). exists g'. split; [|exact Hm'].
    rewrite H6, ensureInstMap_net_map. exact Hg'.
Qed.

Lemma selection_fold_nets (l : list dbNet) : forall w SN SI,
  netMarks w SN -> instMarks w SI ->
  let w' := fold_left (fun w net => selectOneNet_pure net w) l w in
  netMarks w' (rev (map net_id l) ++ SN) /\
  instMarks w' (concat (rev (map reached l)) ++ SI) /\
  (is_Some (_select_inst_map w) \/ (exists net, net ∈ l /\ walked net = true) ->
   is_Some (_select_inst_map w')).
Proof.
  induction l as [|n l IH]; intros w SN SI HN HI; simpl.
  - split; [exact HN|]. split; [exact HI|].
    intros [H|(net & Hin & _)]; [exact H | now apply elem_of_nil in Hin].
  - destruct (selectOneNet_pure_marks n w SN SI HN HI) as (H1 & H2 & H3).
    destruct (IH _ _ _ H1 H2) as (IH1 & IH2 & IH3).
    rewrite <- app_assoc. simpl. split; [exact IH1|]. split.
    + rewrite concat_app. simpl. rewrite app_nil_r, <- app_assoc. exact IH2.
    + intros [H|(net & Hin & Hw)].
      * apply IH3. left. apply H3. now left.
      * apply elem_of_cons in Hin as [->|Hin].
        -- apply IH3. left. apply H3. now right.
        -- apply IH3. right. eauto.
Qed.

Lemma reached_selected (nets : list dbNet) (insts : list dbInst) (id : nat) :
  id ∈ (rev (map inst_id insts) ++ concat (rev (map reached nets)))%list <->
  id ∈ selectedInsts nets insts.
Proof.
  unfold selectedInsts. rewrite !list_elem_of_In, !in_app_iff, <- in_rev.
  rewrite !in_concat.
  split.
  - intros [H|(l & Hl & Hid)]; [now right|]. left.
    apply in_rev, in_map_iff in Hl as (net & <- & Hnet).
    unfold reached in Hid. destruct (walked net) eqn:Hw; [|destruct Hid].
    apply in_rev in Hid.
    exists (connectedInsts net). split; [|exact Hid].
    apply in_map, filter_In. auto.
  - intros [(l & Hl & Hid)|H]; [|now left]. right.
    apply in_map_iff in Hl as (net & <- & Hnet).
    apply filter_In in Hnet as [Hnet Hw].
    exists (reached net). split.
    + apply in_rev. rewrite rev_involutive. now apply in_map.
    + unfold reached. rewrite Hw. now apply in_rev in Hid.
Qed.

Lemma selection_marks w :
  _select_net_map w = None -> _select_inst_map w = None ->
  let nets := _select_net_list w in
  let insts := _select_inst_list w in
  let w' := selection w in
  (nets = [] -> _select_net_map w' = None) /\
  (nets <> [] -> netMarks w' (rev (map net_id nets))) /\
  instMarks w' (rev (map inst_id insts) ++ concat (rev (map reached nets))) /\
  ((exists net, net ∈ nets /\ walked net = true) \/ insts <> [] ->
   is_Some (_select_inst_map w')) /\
  (nets = [] -> insts = [] -> w' = w).
Proof.
  intros HN HI nets insts. unfold selection. fold nets. fold insts.
  set (w1 := match nets with [] => w | _ :: _ => _ end).
  assert (H1 : (nets = [] -> w1 = w) /\
               (nets <> [] -> netMarks w1 (rev (map net_id nets))) /\
               instMarks w1 (concat (rev (map reached nets))) /\
               ((exists net, net ∈ nets /\ walked net = true) ->
                is_Some (_select_inst_map w1))).
  { subst w1. destruct nets as [|n l] eqn:E.
    - split; [reflexivity|]. split; [congruence|]. split.
      + unfold instMarks. now rewrite HI.
      + intros (net & Hin & _). now apply elem_of_nil in Hin.
    - rewrite <- E.
      destruct (selection_fold_nets nets (set_select_net_map (Some ∅) w) [] [])
        as (A & B & C).
      + exists ∅. split; [reflexivity | apply marks_empty].
      + unfold instMarks. simpl. now rewrite HI.
      + rewrite app_nil_r in A, B. split; [congruence|].
        split; [intros _; exact A|]. split; [exact B|].
        intros H. apply C. now right. }
  destruct H1 as (A & B & C & D).
  destruct insts as [|i l] eqn:E.
  - simpl. split; [intros Hn; now rewrite (A Hn)|]. split; [exact B|].
    split; [exact C|]. split.
    + intros [H|H]; [now apply D | congruence].
    + intros Hn _. now apply A.
  - rewrite <- E.
    destruct (instMarks_ensure _ _ C) as [C1 C2].
    destruct (instMarks_fold_insts insts _ _ C1 C2) as (F1 & F2 & F3).
    rewrite ensureInstMap_net_map in F3.
    split; [intros Hn; rewrite F3, (A Hn); exact HN|].
    split.
    { intros Hn. destruct (B Hn) as (g & Hg & Hm). exists g.
      split; [now rewrite F3 | exact Hm]. }
    split; [exact F1|]. split; [intros _; exact F2|].
    intros _ Hi. congruence.
Qed.

Lemma marks_skipped g S id :
  marks g S -> (dbMap_get g id =? 0) = false <-> id ∈ S.
Proof.
  intros H. rewrite (H id). case_bool_decide; split; intros; try easy.
Qed.

(** Claim C5.  On a writer without maps, the selection builder returns
    with every selected net included (and, when nets are selected, no other
    net); when some selected net is walked (neither special nor marked) or
    an instance is selected, an instance passes the instance filter if and
    only if it has a terminal on a walked selected net or is selected
    itself; one walked net alone lets through exactly the instances with a
    terminal on it; and with both selection lists empty the writer is
    unchanged and nothing is filtered. *)
Theorem selection_builder_closure :
  forall w : defout_impl,
    _select_net_map w = None ->
    _select_inst_map w = None ->
    let nets := _select_net_list w in
    let insts := _select_inst_list w in
    exists w',
      buildSelection w = Ret tt w' /\
      (forall net, net ∈ nets -> net_skipped w' (net_id net) = false) /\
      (nets <> [] ->
       forall id, net_skipped w' id = false <-> id ∈ map net_id nets) /\
      ((exists net, net ∈ nets /\ walked net = true) \/ insts <> [] ->
       forall inst,
         inst_skipped w' inst = false <->
         inst_id inst ∈ selectedInsts nets insts) /\
      (forall net,
         nets = [net] -> insts = [] -> walked net = true ->
         forall inst,
           inst_skipped w' inst = false <->
           inst_id inst ∈ connectedInsts net) /\
      (nets = [] -> insts = [] ->
       w' = w /\
       forall id inst,
         net_skipped w' id = false /\ inst_skipped w' inst = false).
Proof.
  intros w HN HI nets insts. exists (selection w).
  destruct (selection_marks w HN HI) as (A & B & C & D & E).
  fold nets in A, B, C, D, E. fold insts in C, D, E.
  assert (Hnets : nets <> [] ->
            forall id, net_skipped (selection w) id = false <-> id ∈ map net_id nets).
  { intros Hn id. destruct (B Hn) as (g & Hg & Hm).
    unfold net_skipped. rewrite Hg, (marks_skipped _ _ id Hm).
    now rewrite !list_elem_of_In, <- in_rev. }
  assert (Hinsts : (exists net, net ∈ nets /\ walked net = true) \/ insts <> [] ->
            forall inst, inst_skipped (selection w) inst = false <->
                         inst_id inst ∈ selectedInsts nets insts).
  { intros H inst. destruct (D H) as [g Hg].
    unfold instMarks in C. rewrite Hg in C.
    unfold inst_skipped. rewrite Hg, (marks_skipped _ _ _ C).
    apply reached_selected. }
  split; [apply buildSelection_eq|]. split; [|split; [exact Hnets|split; [exact Hinsts|split]]].
  - intros net Hin. apply Hnets.
    + intros Hn. rewrite Hn in Hin. now apply elem_of_nil in Hin.
    + now apply list_elem_of_fmap_2.
  - intros net Hn Hi Hw inst. rewrite Hinsts.
    + rewrite Hn, Hi. unfold selectedInsts. simpl. rewrite Hw. simpl.
      now rewrite !app_nil_r.
    + left. exists net. split; [|exact Hw]. rewrite Hn. apply elem_of_cons. now left.
  - intros Hn Hi. split; [now apply E|]. intros id inst.
    rewrite (E Hn Hi). unfold net_skipped, inst_skipped. now rewrite HN, HI.
Qed.

(** ** Text written to the stream *)

Lemma append_assoc_s (a b c : string) : (a +:+ b) +:+ c = a +:+ (b +:+ c).
Proof.
  induction a as [|ch a IH]; [reflexivity|].
  change (String ch ((a +:+ b) +:+ c) = String ch (a +:+ (b +:+ c))).
  now rewrite IH.
Qed.

Lemma append_nil_r_s (a : string) : a +:+ EmptyString = a.
Proof.
  induction a as [|ch a IH]; [reflexivity|].
  change (String ch (a +:+ EmptyString) = String ch a).
  now rewrite IH.
Qed.

Lemma fprintf_emit text w :
  _out w <> None -> fprintf text w = Ret tt (emit text w).
Proof.
  intros H. unfold fprintf, emit. destruct (_out w); [reflexivity | congruence].
Qed.

Lemma emit_open text w : _out w <> None -> _out (emit text w) <> None.
Proof. unfold emit. simpl. now destruct (_out w). Qed.

Lemma emit_emit a b w : emit b (emit a w) = emit (a +:+ b) w.
Proof.
  destruct w as [? ? ? ? ? ? ? ? ? ? o ?]. unfold emit, set_out.
  cbn [_out _version _use_alias _use_net_inst_ids _use_master_ids
       _select_net_list _select_inst_list _select_net_map _select_inst_map
       _prop_defs _non_default_rule _logger].
  destruct o; cbn [option_map]; [|reflexivity].
  now rewrite append_assoc_s.
Qed.

Lemma emit_nil w : emit EmptyString w = w.
Proof.
  destruct w as [? ? ? ? ? ? ? ? ? ? o ?]. unfold emit, set_out.
  cbn [_out _version _use_alias _use_net_inst_ids _use_master_ids
       _select_net_list _select_inst_list _select_net_map _select_inst_map
       _prop_defs _non_default_rule _logger].
  destruct o; cbn [option_map]; [now rewrite append_nil_r_s | reflexivity].
Qed.

(** Steps of the symbolic run of a member function on an open stream. *)
Ltac run_fprintf H :=
  rewrite (bind_Ret _ _ _ _ _ (fprintf_emit _ _ H)).

(** ** The wire path encoder *)

Lemma advancePoint_eq st w :
  _out w <> None ->
  advancePoint st w =
    Ret (point_cnt st + 1)
        (if Z.land (point_cnt st + 1) 7 =? 0 then emit (nl +:+ "    ") w
         else w).
Proof.
  intros H. unfold advancePoint. cbv zeta.
  destruct (Z.land (point_cnt st + 1) 7 =? 0); unfold when.
  - now run_fprintf H.
  - reflexivity.
Qed.

Lemma advancePoint_open st w :
  _out w <> None ->
  _out (if Z.land (point_cnt st + 1) 7 =? 0 then emit (nl +:+ "    ") w
        else w) <> None.
Proof. intros H. destruct (_ =? _); [now apply emit_open | exact H]. Qed.



Lemma break_emit cnt text w :
  emit text (if Z.land cnt 7 =? 0 then emit (nl +:+ "    ") w else w)
  = emit (pointBreak cnt +:+ text) w.
Proof.
  unfold pointBreak. destruct (Z.land cnt 7 =? 0).
  - apply emit_emit.
  - reflexivity.
Qed.

Lemma wirePoint_eq (defdist : Z -> Z) st x y color w :
  _out w <> None ->
  let cnt := point_cnt st + 1 in
  wirePoint defdist st x y color w =
    Ret {| prev_wire_type := prev_wire_type st; point_cnt := cnt;
           path_cnt := path_cnt st;
           prev_x := defdist x; prev_y := defdist y |}
        (emit
           (pointBreak cnt +:+
            (if cnt =? 1 then
               " ( " +:+ fmt_d (defdist x) +:+ " " +:+ fmt_d (defdist y)
               +:+ " )"
             else if defdist x =? prev_x st then
               pointMask cnt color +:+ " ( * " +:+ fmt_d (defdist y) +:+ " )"
             else if defdist y =? prev_y st then
               pointMask cnt color +:+ " ( " +:+ fmt_d (defdist x) +:+ " * )"
             else EmptyString))
           w).
Proof.
  intros H cnt. unfold wirePoint.
  rewrite (bind_Ret _ _ _ _ _ (advancePoint_eq st w H)).
  fold cnt. pose proof (advancePoint_open st w H) as H'. fold cnt in H'.
  fold (pointMask cnt color).
  destruct (cnt =? 1).
  { run_fprintf H'. now rewrite break_emit. }
  destruct (defdist x =? prev_x st).
  { run_fprintf H'. now rewrite break_emit. }
  destruct (defdist y =? prev_y st).
  { run_fprintf H'. now rewrite break_emit. }
  rewrite <- break_emit, emit_nil. reflexivity.
Qed.

Lemma wireStep_point (defdist : Z -> Z) wts net_type st d rest x y w :
  d_event d = E_POINT x y ->
  wireStep defdist wts net_type st d rest w
  = wirePoint defdist st x y (d_color d) w.
Proof. intros H. unfold wireStep. now rewrite H. Qed.


(** Claim C10.  In the wire path encoder, an ordinary point that is read
    after the first token of its path (the point counter is at least 1) and
    whose scaled x and y both differ from the previous point's, writes no
    coordinate token: nothing reaches the stream but the line break that
    precedes every eighth token, which has no parenthesis in it.  The point
    counter still advances by one, and the previous point becomes the
    dropped one. *)
Theorem diagonal_point_dropped :
  forall (defdist : Z -> Z) (wts : dbWireType -> string) net_type st d rest
         x y w,
    d_event d = E_POINT x y ->
    _out w <> None ->
    1 <= point_cnt st ->
    defdist x <> prev_x st ->
    defdist y <> prev_y st ->
    wireStep defdist wts net_type st d rest w =
      Ret {| prev_wire_type := prev_wire_type st;
             point_cnt := point_cnt st + 1;
             path_cnt := path_cnt st;
             prev_x := defdist x; prev_y := defdist y |}
          (emit (pointBreak (point_cnt st + 1)) w)
    /\ contains "(" (pointBreak (point_cnt st + 1)) = false.
Proof.
  intros defdist wts net_type st d rest x y w Hd Hout Hcnt Hx Hy.
  split.
  - rewrite (wireStep_point _ _ _ _ _ _ _ _ _ Hd), wirePoint_eq by exact Hout.
    cbv zeta.
    replace (point_cnt st + 1 =? 1) with false by (symmetry; apply Z.eqb_neq; lia).
    replace (defdist x =? prev_x st) with false by (symmetry; now apply Z.eqb_neq).
    replace (defdist y =? prev_y st) with false by (symmetry; now apply Z.eqb_neq).
    now rewrite append_nil_r_s.
  - unfold pointBreak. now destruct (_ =? _).
Qed.

(** Claim C9.  In the wire path encoder, a rule switch writes
    [TAPERRULE name] exactly when it is read before any token of its path
    and the rule it names is not the one active for the net (no rule is
    active, or another one is); so a [TAPERRULE] is written only for a rule
    different from the active one, and a switch that names the active rule
    writes nothing and leaves the decoder state unchanged. *)
Theorem taperrule_only_for_a_different_rule :
  forall (defdist : Z -> Z) (wts : dbWireType -> string) net_type st d rest
         rule w,
    d_event d = E_RULE rule ->
    _out w <> None ->
    let taper_rule := lr_non_default_rule rule in
    let differs :=
      match _non_default_rule w with
      | None => true
      | Some active => negb (Nat.eqb (ndr_id active) (ndr_id taper_rule))
      end in
    wireStep defdist wts net_type st d rest w =
      Ret st (if (point_cnt st =? 0) && differs
              then emit (" TAPERRULE " +:+ ndr_name taper_rule +:+ " ") w
              else w)
    /\ (forall active,
          _non_default_rule w = Some active ->
          ndr_id active = ndr_id taper_rule ->
          wireStep defdist wts net_type st d rest w = Ret st w).
Proof.
  intros defdist wts net_type st d rest rule w Hd Hout taper_rule differs.
  assert (E : wireStep defdist wts net_type st d rest w =
              Ret st (if (point_cnt st =? 0) && differs
                      then emit (" TAPERRULE " +:+ ndr_name taper_rule +:+ " ") w
                      else w)).
  { unfold wireStep. rewrite Hd. unfold wireRule.
    rewrite (bind_Ret _ _ w w w) by reflexivity.
    fold taper_rule. subst differs. unfold ndr_same.
    destruct (point_cnt st =? 0); unfold when; simpl; [|reflexivity].
    destruct (_non_default_rule w) as [active|].
    - destruct (Nat.eqb (ndr_id active) (ndr_id taper_rule)); simpl.
      + reflexivity.
      + now run_fprintf Hout.
    - now run_fprintf Hout. }
  split; [exact E|].
  intros active Ha Hid. rewrite E. subst differs. rewrite Ha, Hid, Nat.eqb_refl.
  simpl. now rewrite andb_false_r.
Qed.

(** ** Special-net rectangles *)

Lemma land_1_even d : (Z.land d 1 =? 0) = Z.even d.
Proof.
  change 1 with (Z.ones 1). rewrite Z.land_ones by lia.
  rewrite Zeven_mod. reflexivity.
Qed.

Lemma to_uint_span lo hi :
  - 2 ^ 31 <= lo -> lo <= hi -> hi < 2 ^ 31 -> to_uint (hi - lo) = hi - lo.
Proof. intros. unfold to_uint. apply Z.mod_small. lia. Qed.

(** Collapsing an even span leaves both ends on its midpoint, and the
    assertion holds. *)
Lemma collapseAxis_even lo hi w :
  - 2 ^ 31 <= lo -> lo <= hi -> hi < 2 ^ 31 ->
  Z.even (hi - lo) = true ->
  collapseAxis lo hi (Z.shiftr (hi - lo) 1) w
  = Ret ((lo + hi) / 2, (lo + hi) / 2) w.
Proof.
  intros H1 H2 H3 He. apply Z.even_spec in He. destruct He as [k Hk].
  unfold collapseAxis. cbv zeta.
  rewrite Z.shiftr_div_pow2 by lia. change (2 ^ 1) with 2.
  assert (Hlo : to_int (to_uint (to_uint lo + (hi - lo) / 2)) = (lo + hi) / 2).
  { unfold to_int, to_uint. Z.div_mod_to_equations. lia. }
  assert (Hhi : to_int (to_uint (to_uint hi - (hi - lo) / 2)) = (lo + hi) / 2).
  { unfold to_int, to_uint. Z.div_mod_to_equations. lia. }
  rewrite Hlo, Hhi, Z.eqb_refl. reflexivity.
Qed.

Lemma specialPathGeometry_undefined box w :
  sbox_direction box = UNDEFINED ->
  let x1 := r_xMin (sbox_rect box) in
  let y1 := r_yMin (sbox_rect box) in
  let x2 := r_xMax (sbox_rect box) in
  let y2 := r_yMax (sbox_rect box) in
  - 2 ^ 31 <= x1 -> x1 <= x2 -> x2 < 2 ^ 31 ->
  - 2 ^ 31 <= y1 -> y1 <= y2 -> y2 < 2 ^ 31 ->
  let dx := x2 - x1 in
  let dy := y2 - y1 in
  let collapsedX := Ret (dx, (x1 + x2) / 2, y1, (x1 + x2) / 2, y2) w in
  let collapsedY := Ret (dy, x1, (y1 + y2) / 2, x2, (y1 + y2) / 2) w in
  specialPathGeometry box w =
    if Z.even dx && Z.even dy then
      if dy <? dx then collapsedY else collapsedX
    else if Z.even dx then collapsedX
    else if Z.even dy then collapsedY
    else Abort (ZException "odd dimension in both directions") w.
Proof.
  intros Hdir x1 y1 x2 y2 Hx1 Hx Hx2 Hy1 Hy Hy2 dx dy collapsedX collapsedY.
  unfold specialPathGeometry. rewrite Hdir. cbv zeta.
  fold x1 y1 x2 y2.
  rewrite (to_uint_span x1 x2), (to_uint_span y1 y2) by assumption.
  fold dx dy. rewrite !land_1_even.
  assert (CX : Z.even dx = true ->
               (collapseAxis x1 x2 (Z.shiftr dx 1) ≫=
                  (λ '(x1', x2'), mret (dx, x1', y1, x2', y2))) w = collapsedX).
  { intros He. rewrite (bind_Ret _ _ _ _ _ (collapseAxis_even x1 x2 w Hx1 Hx Hx2 He)).
    reflexivity. }
  assert (CY : Z.even dy = true ->
               (collapseAxis y1 y2 (Z.shiftr dy 1) ≫=
                  (λ '(y1', y2'), mret (dy, x1, y1', x2, y2'))) w = collapsedY).
  { intros He. rewrite (bind_Ret _ _ _ _ _ (collapseAxis_even y1 y2 w Hy1 Hy Hy2 He)).
    reflexivity. }
  destruct (Z.even dx) eqn:Ex, (Z.even dy) eqn:Ey; simpl.
  - destruct (dy <? dx); auto.
  - auto.
  - auto.
  - reflexivity.
Qed.

Lemma writeSpecialPath_geometry_abort (defdist : Z -> Z)
    (sts : dbWireShapeType -> string) box w e w' :
  specialPathGeometry box w = Abort e w' ->
  writeSpecialPath defdist sts box w = Abort e w'.
Proof.
  intros H. unfold writeSpecialPath.
  rewrite (bind_Ret _ _ w w w) by reflexivity.
  now rewrite (bind_Abort _ _ _ _ _ H).
Qed.

(** Once the geometry is there, only the stream can stop the writing. *)
Lemma writeSpecialPath_geometry_ret (defdist : Z -> Z)
    (sts : dbWireShapeType -> string) box w g :
  specialPathGeometry box w = Ret g w ->
  forall msg w', writeSpecialPath defdist sts box w <> Abort (ZException msg) w'.
Proof.
  intros H msg w'. unfold writeSpecialPath.
  rewrite (bind_Ret _ _ w w w) by reflexivity.
  rewrite (bind_Ret _ _ _ _ _ H).
  destruct g as [[[[wd x1] y1] x2] y2].
  destruct (negb (sbox_mask box =? 0)), (isShapeNone (sbox_shape box));
    unfold fprintf; destruct (_out w); discriminate.
Qed.

(** Once the geometry is there, the stream gets the layer, the width and
    the two end points. *)
Lemma writeSpecialPath_text (defdist : Z -> Z)
    (sts : dbWireShapeType -> string) box w wd x1 y1 x2 y2 :
  specialPathGeometry box w = Ret (wd, x1, y1, x2, y2) w ->
  _out w <> None ->
  writeSpecialPath defdist sts box w
  = Ret tt (emit (specialPathText defdist sts (_use_alias w) box
                    wd x1 y1 x2 y2) w).
Proof.
  intros H Hout. unfold writeSpecialPath, specialPathText.
  rewrite (bind_Ret _ _ w w w) by reflexivity.
  rewrite (bind_Ret _ _ _ _ _ H). cbv zeta.
  destruct (negb (sbox_mask box =? 0)), (isShapeNone (sbox_shape box));
    rewrite fprintf_emit by exact Hout; reflexivity.
Qed.

(** Claim C7.  For a special-net rectangle of direction UNDEFINED (its
    coordinates [int]s, lower corner first): when exactly one of the two
    spans is even, that axis is collapsed to its midpoint and its span is
    the width; when both are even, the shorter span is the one collapsed
    (x when they are equal); in each case [writeSpecialPath], on an open
    stream, writes the layer, that span as the width ([defdist] of it,
    printed as a number) and the two ends of the collapsed rectangle; and
    [writeSpecialPath] is left by a [ZException] if and only if both spans
    are odd. *)
Theorem undefined_direction_collapses_the_even_span :
  forall (defdist : Z -> Z) (sts : dbWireShapeType -> string) box w,
    sbox_direction box = UNDEFINED ->
    let x1 := r_xMin (sbox_rect box) in
    let y1 := r_yMin (sbox_rect box) in
    let x2 := r_xMax (sbox_rect box) in
    let y2 := r_yMax (sbox_rect box) in
    - 2 ^ 31 <= x1 -> x1 <= x2 -> x2 < 2 ^ 31 ->
    - 2 ^ 31 <= y1 -> y1 <= y2 -> y2 < 2 ^ 31 ->
    let dx := x2 - x1 in
    let dy := y2 - y1 in
    let collapsedX := Ret (dx, (x1 + x2) / 2, y1, (x1 + x2) / 2, y2) w in
    let collapsedY := Ret (dy, x1, (y1 + y2) / 2, x2, (y1 + y2) / 2) w in
    let writtenX :=
      Ret tt (emit (specialPathText defdist sts (_use_alias w) box
                      dx ((x1 + x2) / 2) y1 ((x1 + x2) / 2) y2) w) in
    let writtenY :=
      Ret tt (emit (specialPathText defdist sts (_use_alias w) box
                      dy x1 ((y1 + y2) / 2) x2 ((y1 + y2) / 2)) w) in
    (Z.even dx = true -> Z.even dy = false ->
     specialPathGeometry box w = collapsedX /\
     (_out w <> None -> writeSpecialPath defdist sts box w = writtenX)) /\
    (Z.even dx = false -> Z.even dy = true ->
     specialPathGeometry box w = collapsedY /\
     (_out w <> None -> writeSpecialPath defdist sts box w = writtenY)) /\
    (Z.even dx = true -> Z.even dy = true -> dy < dx ->
     specialPathGeometry box w = collapsedY /\
     (_out w <> None -> writeSpecialPath defdist sts box w = writtenY)) /\
    (Z.even dx = true -> Z.even dy = true -> dx <= dy ->
     specialPathGeometry box w = collapsedX /\
     (_out w <> None -> writeSpecialPath defdist sts box w = writtenX)) /\
    ((exists msg w', writeSpecialPath defdist sts box w
                     = Abort (ZException msg) w')
     <-> Z.even dx = false /\ Z.even dy = false).
Proof.
  intros defdist sts box w Hdir x1 y1 x2 y2 Hx1 Hx Hx2 Hy1 Hy Hy2 dx dy
         collapsedX collapsedY writtenX writtenY.
  pose proof (specialPathGeometry_undefined box w Hdir Hx1 Hx Hx2 Hy1 Hy Hy2)
    as G.
  cbv zeta in G. fold x1 y1 x2 y2 in G. fold dx dy in G.
  fold collapsedX collapsedY in G.
  assert (WX : specialPathGeometry box w = collapsedX ->
               specialPathGeometry box w = collapsedX /\
               (_out w <> None ->
                writeSpecialPath defdist sts box w = writtenX)).
  { intros E. split; [exact E|]. intros Hout.
    now apply writeSpecialPath_text. }
  assert (WY : specialPathGeometry box w = collapsedY ->
               specialPathGeometry box w = collapsedY /\
               (_out w <> None ->
                writeSpecialPath defdist sts box w = writtenY)).
  { intros E. split; [exact E|]. intros Hout.
    now apply writeSpecialPath_text. }
  split; [|split; [|split; [|split]]].
  - intros Ex Ey. apply WX. now rewrite G, Ex, Ey.
  - intros Ex Ey. apply WY. now rewrite G, Ex, Ey.
  - intros Ex Ey Hlt. apply WY. rewrite G, Ex, Ey. simpl.
    now replace (dy <? dx) with true by (symmetry; apply Z.ltb_lt; lia).
  - intros Ex Ey Hle. apply WX. rewrite G, Ex, Ey. simpl.
    now replace (dy <? dx) with false by (symmetry; apply Z.ltb_ge; lia).
  - split.
    + intros (msg & w' & H).
      destruct (Z.even dx) eqn:Ex, (Z.even dy) eqn:Ey; simpl in G;
        try (split; reflexivity); exfalso.
      * destruct (dy <? dx);
          exact (writeSpecialPath_geometry_ret defdist sts box w _ G msg w' H).
      * exact (writeSpecialPath_geometry_ret defdist sts box w _ G msg w' H).
      * exact (writeSpecialPath_geometry_ret defdist sts box w _ G msg w' H).
    + intros [Ex Ey]. rewrite Ex, Ey in G. simpl in G.
      exists "odd dimension in both directions", w.
      now apply writeSpecialPath_geometry_abort.
Qed.

(** ** Properties *)

Lemma writePropValue_eq v w :
  _out w <> None -> writePropValue v w = Ret tt (emit (propValueText v) w).
Proof.
  intros H. destruct v; simpl; try now apply fprintf_emit.
  now rewrite emit_nil.
Qed.

Lemma writeProperties_eq props : forall w,
  _out w <> None ->
  writeProperties props w = Ret tt (emit (propertiesText props) w).
Proof.
  unfold writeProperties. cbv zeta.
  induction props as [|prop rest IH]; intros w H; simpl.
  - now rewrite emit_nil.
  - rewrite (bind_Ret _ _ w tt (emit (prop_name prop +:+ " "
                                     +:+ propValueText (prop_value prop)) w)).
    + rewrite IH by now apply emit_open. now rewrite emit_emit, append_assoc_s, append_assoc_s.
    + rewrite (bind_Ret _ _ w tt w) by reflexivity.
      run_fprintf H.
      rewrite writePropValue_eq by now apply emit_open.
      now rewrite emit_emit, append_assoc_s.
Qed.

Lemma hasProperties_spec w props type :
  hasProperties w props type = true <->
  exists prop, prop ∈ props /\ is_Some (_prop_defs w type !! prop_name prop).
Proof.
  unfold hasProperties. rewrite existsb_exists. split.
  - intros (prop & Hin & H). exists prop. split.
    + now apply list_elem_of_In.
    + now apply bool_decide_eq_true in H.
  - intros (prop & Hin & H). exists prop. split.
    + now apply list_elem_of_In.
    + now apply bool_decide_eq_true.
Qed.

(** Claim C3, amended.  An object's [+ PROPERTY] clause is written if and
    only if at least one of the object's property names is registered for
    the object's category; when it is written it lists every property of
    the object, name and value, in order, whether its own name is
    registered or not; when no name is registered nothing is written. *)
Theorem property_clause_lists_every_property :
  forall props type w,
    _out w <> None ->
    (hasProperties w props type = true <->
     exists prop,
       prop ∈ props /\ is_Some (_prop_defs w type !! prop_name prop)) /\
    writePropertyClause props type w =
      Ret tt (if hasProperties w props type
              then emit (" + PROPERTY " +:+ propertiesText props) w
              else w).
Proof.
  intros props type w H. split; [apply hasProperties_spec|].
  unfold writePropertyClause. rewrite (bind_Ret _ _ w w w) by reflexivity.
  destruct (hasProperties w props type); unfold when; [|reflexivity].
  run_fprintf H. rewrite writeProperties_eq by now apply emit_open.
  now rewrite emit_emit.
Qed.

(** Claim C3 as stated fails: with only [A] registered for nets, the value
    of the unregistered property [B] is written in the clause of a net that
    carries both. *)
Lemma unregistered_property_written :
  _prop_defs ex_registered NET !! "A" = Some true /\
  _prop_defs ex_registered NET !! "B" = None /\
  written (writePropertyClause (net_props ex_n1) NET ex_registered)
  = " + PROPERTY A 1 B 2 ".
Proof. vm_compute. repeat split. Qed.

(** ** Wire points *)




(** ** Opening the destination *)

Lemma fold_left_logger {A} (f : A -> defout_impl -> defout_impl) :
  (forall x w, _logger (f x w) = _logger w) ->
  forall l w, _logger (fold_left (fun w x => f x w) l w) = _logger w.
Proof.
  intros Hf l. induction l as [|x l IH]; intros w; simpl; [reflexivity|].
  now rewrite IH, Hf.
Qed.

Lemma ensureInstMap_logger w : _logger (ensureInstMap w) = _logger w.
Proof. unfold ensureInstMap. now destruct (_select_inst_map w). Qed.

Lemma selectOneNet_pure_logger net w :
  _logger (selectOneNet_pure net w) = _logger w.
Proof.
  unfold selectOneNet_pure. cbv zeta.
  destruct (net_special net || net_mark_1ed net); [reflexivity|].
  rewrite (fold_left_logger (fun iterm => markInst (iterm_inst iterm)))
    by reflexivity.
  now rewrite ensureInstMap_logger.
Qed.

Lemma selection_logger w : _logger (selection w) = _logger w.
Proof.
  unfold selection. cbv zeta.
  assert (H1 : _logger (match _select_net_list w with
                        | [] => w
                        | _ :: _ =>
                            fold_left (fun w net => selectOneNet_pure net w)
                              (_select_net_list w)
                              (set_select_net_map (Some ∅) w)
                        end) = _logger w).
  { destruct (_select_net_list w); [reflexivity|].
    now rewrite (fold_left_logger selectOneNet_pure)
      by apply selectOneNet_pure_logger. }
  destruct (_select_inst_list w); [exact H1|].
  rewrite (fold_left_logger markInst) by reflexivity.
  now rewrite ensureInstMap_logger.
Qed.

(** Claim C4, at a destination that cannot be opened.  [writeBlock]
    logs the warning, returns false and writes nothing.  [writeBlock_Pl]
    does not: it logs nothing and returns nothing, it goes on to use the
    null stream, whatever the block and the writer. *)
Theorem placement_writer_uses_the_null_stream :
  forall (defdist : Z -> Z) (wts : dbWireType -> string)
         (sts : dbWireShapeType -> string) block def_file w,
    (exists w',
       writeBlock defdist wts sts (fun _ => false) block def_file w
       = Ret false w' /\
       _logger w' = (_logger w ++ [cannotOpen def_file])%list /\
       _out w' = None) /\
    (exists w',
       writeBlock_Pl defdist (fun _ => false) block def_file w
       = Abort NullStream w' /\
       _logger w' = _logger w /\
       _out w' = None).
Proof.
  intros defdist wts sts block def_file w. split.
  - exists (set_logger (_logger (selection w) ++ [cannotOpen def_file])
              (set_out None (selection w))).
    split; [|split; [|reflexivity]].
    + unfold writeBlock.
      rewrite (bind_Ret _ _ _ _ _ (buildSelection_eq w)).
      reflexivity.
    + simpl. now rewrite selection_logger.
  - exists (set_out None (selection w)).
    split; [|split; [|reflexivity]].
    + unfold writeBlock_Pl.
      rewrite (bind_Ret _ _ _ _ _ (buildSelection_eq w)).
      reflexivity.
    + simpl. apply selection_logger.
Qed.

(** ** The version gates *)

Lemma version_ge_5_6 v : version_ge v DEF_5_6 = (minor v <=? 6).
Proof. now destruct v. Qed.

Lemma version_lt_5_6 v : version_lt v DEF_5_6 = (7 <=? minor v).
Proof. now destruct v. Qed.

Lemma version_ge_5_8 v : version_ge v DEF_5_8 = true.
Proof. now destruct v. Qed.

(** The header of every block, on an open stream: the version line, then
    [NAMESCASESENSITIVE ON ;] exactly when the enumerator comes before
    [DEF_5_6] in the declaration, which is when it names 5.7 or 5.8, then
    the delimiters, the design name and the units. *)
Lemma writeHeader_eq block w :
  _out w <> None ->
  exists rest,
    String.prefix "DIVIDERCHAR " rest = true /\
    writeHeader block w =
      Ret tt (emit (versionLine (_version w)
                    +:+ (if 7 <=? minor (_version w)
                         then "NAMESCASESENSITIVE ON ;" +:+ nl
                         else EmptyString)
                    +:+ rest) w).
Proof.
  intros H. unfold writeHeader.
  rewrite (bind_Ret _ _ w w w) by reflexivity.
  run_fprintf H.
  rewrite version_lt_5_6.
  set (ncs := if 7 <=? minor (_version w)
              then "NAMESCASESENSITIVE ON ;" +:+ nl else EmptyString).
  assert (H1 : _out (emit (versionLine (_version w)) w) <> None)
    by now apply emit_open.
  assert (E : when (7 <=? minor (_version w))
                (fprintf ("NAMESCASESENSITIVE ON ;" +:+ nl))
                (emit (versionLine (_version w)) w)
              = Ret tt (emit (versionLine (_version w) +:+ ncs) w)).
  { subst ncs. destruct (7 <=? minor (_version w)); unfold when.
    - rewrite fprintf_emit by exact H1. now rewrite emit_emit.
    - now rewrite append_nil_r_s. }
  rewrite (bind_Ret _ _ _ _ _ E).
  assert (H2 : _out (emit (versionLine (_version w) +:+ ncs) w) <> None)
    by now apply emit_open.
  destruct (block_bus_delimiters block) as [left_bus right_bus].
  cbv zeta.
  set (hd := if isNul (block_hier_delimiter block) then "|"%char
             else block_hier_delimiter block).
  set (bus := if isNul left_bus || isNul right_bus then ("["%char, "]"%char)
              else (left_bus, right_bus)).
  destruct bus as [lb rb].
  run_fprintf H2. rewrite emit_emit.
  match goal with |- context [emit ?t w] =>
    assert (H3 : _out (emit t w) <> None) by now apply emit_open end.
  run_fprintf H3. rewrite emit_emit.
  match goal with |- context [emit ?t w] =>
    assert (H4 : _out (emit t w) <> None) by now apply emit_open end.
  run_fprintf H4. rewrite emit_emit.
  match goal with |- context [emit ?t w] =>
    assert (H5 : _out (emit t w) <> None) by now apply emit_open end.
  rewrite fprintf_emit by exact H5. rewrite emit_emit.
  rewrite !append_assoc_s.
  eexists. split; [|reflexivity]. reflexivity.
Qed.

(** Claim C6, on the example design.  The line [NAMESCASESENSITIVE ON ;]
    follows the version line exactly for the versions 5.7 and 5.8, and is
    absent from the documents of 5.3 to 5.6: the test [_version < DEF_5_6]
    compares the enumerators by their places in the declaration, which runs
    from [DEF_5_8] down to [DEF_5_3]. *)
Theorem namescasesensitive_follows_enumerator_order :
  forall v : Version,
    String.prefix
      (versionLine v +:+ "NAMESCASESENSITIVE ON ;" +:+ nl +:+ "DIVIDERCHAR")
      (ex_document v) = (7 <=? minor v) /\
    String.prefix (versionLine v +:+ "DIVIDERCHAR") (ex_document v)
    = (minor v <=? 6) /\
    contains "NAMESCASESENSITIVE" (ex_document v) = (7 <=? minor v).
Proof. intros v. destruct v; vm_compute; repeat split. Qed.

(** Claim C1, on the example design, whose data carries a halo, both
    sensitivity pins and a coloured, rotated via.  [HALO],
    [SUPPLYSENSITIVITY], [GROUNDSENSITIVITY] and the rotated-via syntax are
    written exactly for the versions 5.3 to 5.6 and left out for 5.7 and
    5.8, and the via [MASK] is written for every version: the gates
    [_version >= DEF_5_6] and [_version >= DEF_5_8] compare the enumerators
    by their places in the declaration. *)
Theorem gated_fields_follow_enumerator_order :
  forall v : Version,
    contains " + HALO 1 2 3 4" (ex_document v) = (minor v <=? 6) /\
    contains " + SUPPLYSENSITIVITY VDD" (ex_document v) = (minor v <=? 6) /\
    contains " + GROUNDSENSITIVITY VSS" (ex_document v) = (minor v <=? 6) /\
    contains " V12 W" (ex_document v) = (minor v <=? 6) /\
    contains " MASK 123 " (ex_document v) = true.
Proof. intros v. destruct v; vm_compute; repeat split. Qed.

(** Claim C2, on the example design.  With net [n1] selected the header
    declares [COMPONENTS 2] and one component record follows, [u0] being
    filtered out after the count was written; with nothing selected the
    header declares [PINS 2] and one pin record follows, the pin without a
    net being counted and then skipped with a warning. *)
Theorem declared_counts_differ_from_records :
  headerLine (sectionText "COMPONENTS" (ex_document_n1 DEF_5_8))
  = "COMPONENTS 2 ;" /\
  recordCount (sectionText "COMPONENTS" (ex_document_n1 DEF_5_8)) = 1%nat /\
  headerLine (sectionText "PINS" (ex_document DEF_5_8)) = "PINS 2 ;" /\
  recordCount (sectionText "PINS" (ex_document DEF_5_8)) = 1%nat /\
  warnings
    (writeBlock unitDist wireTypeKeyword shapeTypeKeyword (fun _ => true)
       ex_block "top.def" (new_writer DEF_5_8 false false false))
  = ["warning: pin p2 skipped because it has no net"].
Proof. vm_compute. repeat split. Qed.

(** ** The properties at concrete inputs *)

(** A rectangle of undefined direction with two odd spans ends the whole
    pass: the exception leaves [writeBlock] with the document cut short. *)
Example odd_rectangle_aborts_the_pass :
  let r := writeBlock unitDist wireTypeKeyword shapeTypeKeyword
             (fun _ => true) ex_odd_block "top.def"
             (new_writer DEF_5_8 false false false) in
  (exists w', r = Abort (ZException "odd dimension in both directions") w') /\
  contains "SPECIALNETS 1 ;" (written r) = true /\
  contains "END DESIGN" (written r) = false.
Proof. vm_compute. split; [eexists; reflexivity | split; reflexivity]. Qed.

(** The width is a [uint] that goes through [defdist] and is printed as an
    [int]: a span of 4294967294 is written as -2. *)
Example wide_rectangle_width_wraps :
  written (writeSpecialPath unitDist shapeTypeKeyword ex_wide_box
             ex_open_writer)
  = " M1 -2 ( 0 0 ) ( 0 1 )".
Proof. vm_compute. reflexivity. Qed.

(** The point after a diagonal step is dropped, and the point after it is
    compared with the dropped one. *)
Example diagonal_step_leaves_no_token :
  written (writeWire unitDist wireTypeKeyword ex_diagonal ex_open_writer)
  = nl +:+ "      + ROUTED M1 ( 0 0 ) ( * 500 ) ( * 700 )".
Proof. vm_compute. reflexivity. Qed.

(** A switch to the rule of the net writes nothing; a switch to another
    rule is written. *)
Example redundant_rule_switch_is_silent :
  written (writeWire unitDist wireTypeKeyword (ex_ruled_wire ex_R1)
             ex_writer_under_R1)
  = nl +:+ "      + ROUTED M1 ( 0 0 ) ( * 500 )" /\
  written (writeWire unitDist wireTypeKeyword (ex_ruled_wire ex_R2)
             ex_writer_under_R1)
  = nl +:+ "      + ROUTED M1 TAPERRULE R2  ( 0 0 ) ( * 500 )".
Proof. vm_compute. split; reflexivity. Qed.

Lemma selection_builder_closure_witness :
  let w := selectNet (Some ex_n1) (new_writer DEF_5_8 false false false) in
  _select_net_map w = None /\
  _select_inst_map w = None /\
  exists w',
    buildSelection w = Ret tt w' /\
    net_skipped w' (net_id ex_n1) = false /\
    inst_skipped w' ex_u1 = false /\
    inst_skipped w' ex_u0 = true.
Proof.
  intros w. split; [reflexivity|]. split; [reflexivity|].
  destruct (selection_builder_closure w eq_refl eq_refl)
    as (w' & Hb & Hn & _ & _ & Hs & _).
  exists w'. split; [exact Hb|]. split; [|split].
  - apply Hn. apply elem_of_cons. now left.
  - apply (Hs ex_n1 eq_refl eq_refl eq_refl). apply elem_of_cons. now left.
  - destruct (inst_skipped w' ex_u0) eqn:E; [reflexivity|].
    apply (Hs ex_n1 eq_refl eq_refl eq_refl) in E.
    apply elem_of_cons in E as [E|E]; [discriminate E|].
    now apply elem_of_nil in E.
Defined.

Lemma undefined_direction_collapses_the_even_span_witness :
  let box :=
    {| sbox_rect := {| r_xMin := 0; r_yMin := 0; r_xMax := 4; r_yMax := 5 |};
       sbox_layer := ex_M1; sbox_mask := 0; sbox_direction := UNDEFINED;
       sbox_oct := sbox_oct ex_odd_box;
       sbox_shape := WS_NONE; sbox_is_via := false; sbox_via := None;
       sbox_via_xy := (0, 0); sbox_via_masks := None |} in
  sbox_direction box = UNDEFINED /\
  Z.even (4 - 0) = true /\ Z.even (5 - 0) = false /\
  _out ex_open_writer <> None /\
  specialPathGeometry box ex_open_writer = Ret (4, 2, 0, 2, 5) ex_open_writer /\
  writeSpecialPath unitDist shapeTypeKeyword box ex_open_writer
  = Ret tt (emit " M1 4 ( 2 0 ) ( 2 5 )" ex_open_writer).
Proof.
  intros box. split; [reflexivity|]. split; [reflexivity|].
  split; [reflexivity|].
  assert (Hout : _out ex_open_writer <> None) by discriminate.
  split; [exact Hout|].
  assert (H : -2 ^ 31 <= 0 /\ 0 <= 4 /\ 4 < 2 ^ 31 /\ 0 <= 5 /\ 5 < 2 ^ 31)
    by lia.
  destruct H as (H1 & H2 & H3 & H4 & H5).
  destruct (proj1 (undefined_direction_collapses_the_even_span
                     unitDist shapeTypeKeyword box ex_open_writer eq_refl
                     H1 H2 H3 H1 H4 H5)
                  eq_refl eq_refl) as [G W].
  split; [exact G | exact (W Hout)].
Defined.


Lemma taperrule_only_for_a_different_rule_witness :
  let st := {| prev_wire_type := WT_ROUTED; point_cnt := 0; path_cnt := 1;
               prev_x := 0; prev_y := 0 |} in
  let d := plain (E_RULE {| lr_non_default_rule := ex_R1 |}) in
  _out ex_writer_under_R1 <> None /\
  _non_default_rule ex_writer_under_R1 = Some ex_R1 /\
  wireStep unitDist wireTypeKeyword WT_ROUTED st d [] ex_writer_under_R1
  = Ret st ex_writer_under_R1.
Proof.
  intros st d.
  assert (Hout : _out ex_writer_under_R1 <> None) by discriminate.
  split; [exact Hout|]. split; [reflexivity|].
  exact (proj2 (taperrule_only_for_a_different_rule unitDist wireTypeKeyword
                  WT_ROUTED st d [] _ ex_writer_under_R1 eq_refl Hout)
               ex_R1 eq_refl eq_refl).
Defined.

Lemma diagonal_point_dropped_witness :
  let st := {| prev_wire_type := WT_ROUTED; point_cnt := 2; path_cnt := 1;
               prev_x := 0; prev_y := 500 |} in
  let d := plain (E_POINT 300 600) in
  _out ex_open_writer <> None /\
  1 <= point_cnt st /\
  unitDist 300 <> prev_x st /\
  unitDist 600 <> prev_y st /\
  wireStep unitDist wireTypeKeyword WT_ROUTED st d [] ex_open_writer =
    Ret {| prev_wire_type := WT_ROUTED; point_cnt := 3; path_cnt := 1;
           prev_x := 300; prev_y := 600 |}
        (emit EmptyString ex_open_writer).
Proof.
  intros st d.
  assert (Hout : _out ex_open_writer <> None) by discriminate.
  assert (Hcnt : 1 <= point_cnt st) by (simpl; lia).
  assert (Hx : unitDist 300 <> prev_x st) by discriminate.
  assert (Hy : unitDist 600 <> prev_y st) by discriminate.
  split; [exact Hout|]. split; [exact Hcnt|]. split; [exact Hx|].
  split; [exact Hy|].
  exact (proj1 (diagonal_point_dropped unitDist wireTypeKeyword WT_ROUTED
                  st d [] 300 600 ex_open_writer eq_refl Hout Hcnt Hx Hy)).
Defined.

Lemma property_clause_lists_every_property_witness :
  _out ex_registered <> None /\
  hasProperties ex_registered (net_props ex_n1) NET = true /\
  writePropertyClause (net_props ex_n1) NET ex_registered
  = Ret tt (emit " + PROPERTY A 1 B 2 " ex_registered).
Proof.
  assert (Hout : _out ex_registered <> None) by discriminate.
  split; [exact Hout|]. split; [reflexivity|].
  exact (proj2 (property_clause_lists_every_property (net_props ex_n1) NET
                  ex_registered Hout)).
Defined.

(** * Further properties *)

(** ** Functions that only print and log *)

Lemma performs_ret w : performs w (mret tt) EmptyString [].
Proof.
  intros s l. unfold mret, M_ret. now rewrite append_nil_r_s, app_nil_r.
Qed.

Lemma performs_fprintf w text : performs w (fprintf text) text [].
Proof. intros s l. unfold fprintf. simpl. now rewrite app_nil_r. Qed.

Lemma performs_warn w msg : performs w (warn msg) EmptyString [msg].
Proof.
  intros s l. unfold warn, modify. simpl. now rewrite append_nil_r_s.
Qed.

Lemma performs_bind w (m k : M unit) t1 l1 t2 l2 :
  performs w m t1 l1 -> performs w k t2 l2 ->
  performs w (m ;; k) (t1 +:+ t2) (l1 ++ l2).
Proof.
  intros Hm Hk s l. unfold mbind, M_bind. rewrite Hm, Hk.
  now rewrite append_assoc_s, app_assoc.
Qed.

Lemma performs_get w (f : defout_impl -> M unit) text msgs :
  (forall s l, f (set_logger l (set_out (Some s) w)) = f w) ->
  performs w (f w) text msgs ->
  performs w (get ≫= f) text msgs.
Proof.
  intros Hf H s l. unfold mbind, M_bind, get. rewrite Hf. apply H.
Qed.

(** On an open stream, in terms of [emit]. *)
Lemma performs_emit w m text :
  performs w m text [] -> _out w <> None -> m w = Ret tt (emit text w).
Proof.
  intros H Hout. specialize (H (default EmptyString (_out w)) (_logger w)).
  destruct w as [? ? ? ? ? ? ? ? ? ? o lg]. simpl in *.
  destruct o as [s|]; [|congruence]. simpl in H.
  rewrite app_nil_r in H. exact H.
Qed.

Lemma prints_ret w : prints w (mret tt).
Proof. eexists. apply performs_ret. Qed.

Lemma prints_fprintf w text : prints w (fprintf text).
Proof. eexists. apply performs_fprintf. Qed.

Lemma prints_bind w (m k : M unit) :
  prints w m -> prints w k -> prints w (m ;; k).
Proof.
  intros [t1 H1] [t2 H2]. exists (t1 +:+ t2).
  apply (performs_bind w m k t1 [] t2 [] H1 H2).
Qed.

Lemma prints_get w (f : defout_impl -> M unit) :
  (forall s l, f (set_logger l (set_out (Some s) w)) = f w) ->
  prints w (f w) -> prints w (get ≫= f).
Proof. intros Hf [t H]. exists t. now apply performs_get. Qed.

Lemma prints_when w b body : prints w body -> prints w (when b body).
Proof. intros H. destruct b; [exact H | apply prints_ret]. Qed.

Lemma prints_for_each {A} w (l : list A) body :
  (forall x, prints w (body x)) -> prints w (for_each l body).
Proof.
  intros H. induction l as [|x l IH]; simpl.
  - apply prints_ret.
  - apply prints_bind; [apply H | exact IH].
Qed.

Lemma prints_for_each_from {A} w (l : list A) body :
  (forall x i, prints w (body x i)) ->
  forall cnt, prints w (for_each_from cnt l body).
Proof.
  intros H. induction l as [|x l IH]; intros cnt; simpl.
  - apply prints_ret.
  - apply prints_bind; [apply H | apply IH].
Qed.

Lemma prefix_nil s : String.prefix EmptyString s = true.
Proof. now destruct s. Qed.

Lemma prefix_append p a b :
  String.prefix p a = true -> String.prefix p (a +:+ b) = true.
Proof.
  revert a. induction p as [|c p IH]; intros a H; [apply prefix_nil|].
  destruct a as [|c' a]; [discriminate|].
  change (String c' a +:+ b) with (String c' (a +:+ b)).
  simpl in *. destruct (ascii_dec c c'); [|discriminate]. now apply IH.
Qed.

Lemma prefix_self_append p x : String.prefix p (p +:+ x) = true.
Proof.
  induction p as [|c p IH]; [apply prefix_nil|].
  change (String c p +:+ x) with (String c (p +:+ x)). simpl.
  destruct (ascii_dec c c); [exact IH | congruence].
Qed.

Lemma prints_from_fprintf p w text :
  String.prefix p text = true -> prints_from p w (fprintf text).
Proof. intros H. exists text. split; [exact H | apply performs_fprintf]. Qed.

Lemma prints_from_bind p w (m k : M unit) :
  prints_from p w m -> prints w k -> prints_from p w (m ;; k).
Proof.
  intros (t1 & Hp & H1) [t2 H2]. exists (t1 +:+ t2). split.
  - now apply prefix_append.
  - apply (performs_bind w m k t1 [] t2 [] H1 H2).
Qed.

Lemma prints_from_get p w (f : defout_impl -> M unit) :
  (forall s l, f (set_logger l (set_out (Some s) w)) = f w) ->
  prints_from p w (f w) -> prints_from p w (get ≫= f).
Proof. intros Hf (t & Hp & H). exists t. split; [exact Hp | now apply performs_get]. Qed.

(** The steps that show that a function only prints. *)
Ltac prints_step :=
  lazymatch goal with
  | |- prints _ (mret _) => apply prints_ret
  | |- prints _ (fprintf _) => apply prints_fprintf
  | |- prints _ (mbind _ get) =>
      apply prints_get; [intros; reflexivity | cbv beta]
  | |- prints _ (mbind _ _) => apply prints_bind
  | |- prints _ (when _ _) => apply prints_when
  | |- prints _ (for_each _ _) => apply prints_for_each; intros
  | |- prints _ (for_each_from _ _ _) => apply prints_for_each_from; intros
  | |- prints _ (if ?b then _ else _) => destruct b
  | |- prints _ (match ?x with _ => _ end) => destruct x
  | |- prints _ (let _ := _ in _) => cbv zeta
  end.

Ltac prints_all := repeat prints_step.

Lemma prints_writePropertyClause w props type :
  prints w (writePropertyClause props type).
Proof.
  unfold writePropertyClause, writeProperties, writePropValue.
  prints_all.
Qed.

Lemma prints_writeSource w source test : prints w (writeSource source test).
Proof. unfold writeSource. prints_all. Qed.

(** A component record only prints, from the dash on. *)
Lemma prints_writeInst (defdist : Z -> Z) w inst :
  prints_from "    - " w (writeInst defdist inst).
Proof.
  unfold writeInst.
  apply prints_from_get; [intros; reflexivity | cbv beta].
  apply prints_from_bind.
  - destruct (_use_net_inst_ids w), (_use_master_ids w);
      apply prints_from_fprintf;
      first [apply prefix_self_append | apply prefix_append; reflexivity].
  - repeat first [ apply prints_writePropertyClause
                 | apply prints_writeSource
                 | prints_step ].
Qed.

(** ** The order of the records *)

Lemma insert_by_name_Permutation {T} (name : T -> string) x l :
  insert_by_name name x l ≡ₚ x :: l.
Proof.
  induction l as [|y l IH]; simpl; [reflexivity|].
  destruct (String.ltb (name x) (name y)); [reflexivity|].
  rewrite IH. apply perm_swap.
Qed.

Lemma sortedSet_Permutation {T} (name : T -> string) l :
  sortedSet name l ≡ₚ l.
Proof.
  unfold sortedSet. induction l as [|x l IH]; simpl; [reflexivity|].
  now rewrite insert_by_name_Permutation, IH.
Qed.

Lemma ltb_false_le a b : String.ltb a b = false -> String.le b a.
Proof.
  unfold String.ltb, String.le, String.leb. rewrite (String.compare_antisym a b).
  destruct (String.compare b a); simpl; intros H; try discriminate; exact I.
Qed.

Lemma ltb_true_le a b : String.ltb a b = true -> String.le a b.
Proof.
  unfold String.ltb, String.le, String.leb.
  destruct (String.compare a b); simpl; intros H; try discriminate; exact I.
Qed.

Lemma insert_by_name_Sorted {T} (name : T -> string) x l :
  Sorted (by_name name) l -> Sorted (by_name name) (insert_by_name name x l).
Proof.
  induction l as [|y l IH]; intros Hs; simpl.
  - repeat constructor.
  - destruct (String.ltb (name x) (name y)) eqn:E.
    + constructor; [exact Hs|]. constructor. now apply ltb_true_le.
    + apply Sorted_inv in Hs as [Hs Hd]. constructor; [now apply IH|].
      destruct l as [|z l]; simpl.
      * constructor. now apply ltb_false_le.
      * destruct (String.ltb (name x) (name z)).
        -- constructor. now apply ltb_false_le.
        -- constructor. now apply HdRel_inv in Hd.
Qed.

Lemma sortedSet_Sorted {T} (name : T -> string) l :
  Sorted (by_name name) (sortedSet name l).
Proof.
  unfold sortedSet. induction l as [|x l IH]; simpl; [constructor|].
  now apply insert_by_name_Sorted.
Qed.

(** Property X1.  [sortedSet] returns the objects it was given, each as often as it was
    given, with the names in ascending order. *)
Theorem sortedSet_sorted_permutation :
  forall {T} (name : T -> string) (to_sort : list T),
    sortedSet name to_sort ≡ₚ to_sort /\
    Sorted (by_name name) (sortedSet name to_sort).
Proof.
  intros T name l. split; [apply sortedSet_Permutation | apply sortedSet_Sorted].
Qed.

Lemma same_names_same_list {T} (name : T -> string) (l1 : list T) :
  forall l2,
    NoDup (map name l1) -> l1 ≡ₚ l2 -> map name l1 = map name l2 -> l1 = l2.
Proof.
  induction l1 as [|x l1 IH]; intros l2 Hnd Hp Hm.
  - now destruct l2.
  - destruct l2 as [|y l2]; [discriminate|].
    simpl in Hm. injection Hm as Hxy Hm. simpl in Hnd.
    apply NoDup_cons in Hnd as [Hx Hnd].
    assert (Hin : x ∈ y :: l2) by (rewrite <- Hp; apply elem_of_cons; now left).
    apply elem_of_cons in Hin as [->|Hin].
    + f_equal. apply IH; [exact Hnd | | exact Hm].
      now apply Permutation_cons_inv in Hp.
    + exfalso. apply Hx. rewrite Hm.
      apply list_elem_of_fmap_2. exact Hin.
Qed.

(** Property X2.  With distinct names, the order in which the database hands out the
    objects does not show in the result. *)
Theorem sortedSet_order_independent :
  forall {T} (name : T -> string) (l1 l2 : list T),
    NoDup (map name l1) ->
    l1 ≡ₚ l2 ->
    sortedSet name l1 = sortedSet name l2.
Proof.
  intros T name l1 l2 Hnd Hp.
  pose proof (sortedSet_Permutation name l1) as P1.
  pose proof (sortedSet_Permutation name l2) as P2.
  pose proof (sortedSet_Sorted name l1) as S1.
  pose proof (sortedSet_Sorted name l2) as S2.
  assert (P12 : sortedSet name l1 ≡ₚ sortedSet name l2)
    by now rewrite P1, P2.
  apply (same_names_same_list name).
  - rewrite P1. exact Hnd.
  - exact P12.
  - apply (Sorted_unique String.le).
    + clear -S1. induction S1 as [|a l Hs IH Hd]; simpl; constructor; [exact IH|].
      destruct Hd; simpl; constructor; assumption.
    + clear -S2. induction S2 as [|a l Hs IH Hd]; simpl; constructor; [exact IH|].
      destruct Hd; simpl; constructor; assumption.
    + now apply fmap_Permutation.
Qed.

(** ** Sections: the declared count and the records *)

Lemma performs_skip_bind w (m : M unit) text msgs :
  performs w m text msgs -> performs w (mret tt ;; m) text msgs.
Proof. intros H s l. apply H. Qed.

Lemma performs_text w m t t' msgs :
  performs w m t msgs -> t = t' -> performs w m t' msgs.
Proof. now intros H <-. Qed.

Lemma performs_then w (m k : M unit) t1 t2 :
  performs w m t1 [] -> performs w k t2 [] ->
  performs w (m ;; k) (t1 +:+ t2) [].
Proof. apply (performs_bind w m k t1 [] t2 []). Qed.

(** A loop that skips some objects and writes a record for each of the
    others writes the records of the others, in order. *)
Lemma for_each_records {A} w (l : list A) (skip : A -> bool)
    (body : A -> M unit) (R : A -> string -> Prop) :
  (forall x, skip x = true -> performs w (body x) EmptyString []) ->
  (forall x, skip x = false -> exists t, R x t /\ performs w (body x) t []) ->
  exists records,
    Forall2 R (List.filter (fun x => negb (skip x)) l) records /\
    performs w (for_each l body) (joined records) [].
Proof.
  intros Hskip Hkeep. induction l as [|x l (records & HR & IH)]; simpl.
  - exists []. split; [constructor | apply performs_ret].
  - destruct (skip x) eqn:E; simpl.
    + exists records. split; [exact HR|].
      apply (performs_then w _ _ EmptyString _ (Hskip x E) IH).
    + destruct (Hkeep x E) as (t & Ht & Hp).
      exists (t :: records). split; [now constructor|].
      apply (performs_then w _ _ t _ Hp IH).
Qed.

Lemma filter_length_insert {T} (name : T -> string) (f : T -> bool) x l :
  length (List.filter f (insert_by_name name x l))
  = length (List.filter f (x :: l)).
Proof.
  induction l as [|y l IH]; [reflexivity|].
  simpl. destruct (String.ltb (name x) (name y)); [reflexivity|].
  simpl in *. destruct (f y), (f x); simpl in *; lia.
Qed.

Lemma filter_length_sortedSet {T} (name : T -> string) (f : T -> bool) l :
  length (List.filter f (sortedSet name l)) = length (List.filter f l).
Proof.
  unfold sortedSet. induction l as [|x l IH]; [reflexivity|].
  simpl fold_right. rewrite filter_length_insert. simpl.
  destruct (f x); simpl; now rewrite IH.
Qed.

(** Property X6.  [COMPONENTS] declares every instance of the block; the records are
    those of the instances that pass the instance filter, in the order of
    their names. *)
Theorem writeInsts_declares_every_instance :
  forall (defdist : Z -> Z) block w,
    let passing :=
      List.filter (fun inst => negb (inst_skipped w inst)) in
    exists records,
      Forall2 (record_of (writeInst defdist) w)
        (passing (sortedSet inst_name (block_insts block))) records /\
      length records = length (passing (block_insts block)) /\
      performs w (writeInsts defdist block)
        ("COMPONENTS " +:+ fmt_d (Z.of_nat (length (block_insts block)))
         +:+ " ;" +:+ nl +:+ joined records +:+ "END COMPONENTS" +:+ nl) [].
Proof.
  intros defdist block w passing.
  destruct (for_each_records w (sortedSet inst_name (block_insts block))
              (inst_skipped w)
              (fun inst => w ← get;
                 if inst_skipped w inst then mret tt
                 else writeInst defdist inst)
              (record_of (writeInst defdist) w))
    as (records & HR & Hloop).
  - intros inst E. apply performs_get; [intros; reflexivity|].
    rewrite E. apply performs_ret.
  - intros inst E. destruct (prints_writeInst defdist w inst) as (t & Hp & Ht).
    exists t. split; [split; assumption|].
    apply performs_get; [intros; reflexivity|]. now rewrite E.
  - exists records. split; [exact HR|]. split.
    + rewrite <- (Forall2_length _ _ _ HR). apply filter_length_sortedSet.
    + unfold writeInsts. eapply performs_text.
      * eapply performs_then; [apply performs_fprintf|].
        eapply performs_then; [exact Hloop | apply performs_fprintf].
      * now rewrite !append_assoc_s.
Qed.

Lemma count_fold {A} (skip : A -> bool) (l : list A) : forall n,
  fold_left (fun cnt x => if skip x then cnt else cnt + 1) l n
  = n + Z.of_nat (length (List.filter (fun x => negb (skip x)) l)).
Proof.
  induction l as [|x l IH]; intros n; simpl; [lia|].
  rewrite IH. destruct (skip x); simpl; lia.
Qed.

Lemma count_fold_keep {A} (keep : A -> bool) (l : list A) : forall n,
  fold_left (fun cnt x => if keep x then cnt + 1 else cnt) l n
  = n + Z.of_nat (length (List.filter keep l)).
Proof.
  induction l as [|x l IH]; intros n; simpl; [lia|].
  rewrite IH. destruct (keep x); simpl; lia.
Qed.

Ltac prints_record :=
  apply prints_from_bind;
  [ apply prints_from_fprintf;
    first [apply prefix_self_append | apply prefix_append; reflexivity]
  | repeat first [ apply prints_writePropertyClause | prints_step ] ].

Lemma prints_writeVia (defdist : Z -> Z) w via :
  prints_from "    - " w (writeVia defdist via).
Proof.
  unfold writeVia, writeViaParams, writePattern.
  apply prints_from_get; [intros; reflexivity | cbv beta].
  prints_record.
Qed.

(** Property X9.  [VIAS] declares the vias that are written: every via of the block but,
    when [_version >= DEF_5_6] holds, the rotated ones.  A block without
    vias has no section; a block whose vias are all left out has an empty
    one. *)
Theorem writeVias_count_matches :
  forall (defdist : Z -> Z) (vias : list dbBlockVia) w,
    exists records,
      Forall2 (record_of (writeVia defdist) w)
        (List.filter (fun via => negb (via_skipped w via)) vias) records /\
      performs w (writeVias defdist vias)
        (match vias with
         | [] => EmptyString
         | _ :: _ =>
             "VIAS " +:+ fmt_d (Z.of_nat (length records)) +:+ " ;" +:+ nl
             +:+ joined records +:+ "END VIAS" +:+ nl
         end) [].
Proof.
  intros defdist vias w.
  destruct (for_each_records w vias (via_skipped w)
              (fun via => if via_skipped w via then mret tt
                          else writeVia defdist via)
              (record_of (writeVia defdist) w))
    as (records & HR & Hloop).
  - intros via E. rewrite E. apply performs_ret.
  - intros via E. destruct (prints_writeVia defdist w via) as (t & Hp & Ht).
    exists t. split; [split; assumption|]. now rewrite E.
  - exists records. split; [exact HR|].
    destruct vias as [|v vs] eqn:Ev; [apply performs_ret|]. rewrite <- Ev in *.
    unfold writeVias. rewrite Ev at 1.
    apply performs_get; [intros; reflexivity | cbv beta].
    rewrite count_fold, Z.add_0_l, (Forall2_length _ _ _ HR).
    eapply performs_text.
    + eapply performs_then; [apply performs_fprintf|].
      eapply performs_then; [exact Hloop | apply performs_fprintf].
    + now rewrite !append_assoc_s.
Qed.

Lemma prints_writeRegion (defdist : Z -> Z) w region :
  prints_from "    - " w (writeRegion defdist region).
Proof. unfold writeRegion. prints_record. Qed.

Lemma prints_writeGroup w group : prints_from "    - " w (writeGroup group).
Proof. unfold writeGroup. prints_record. Qed.

Lemma length_zero_nil {A} (l : list A) :
  (Z.of_nat (length l) =? 0) = match l with [] => true | _ => false end.
Proof. now destruct l. Qed.

(** Property X10.  [REGIONS] declares the regions that are written, those with a
    boundary; without any there is no section. *)
Theorem writeRegions_count_matches :
  forall (defdist : Z -> Z) (regions : list dbBlockRegion) w,
    exists records,
      Forall2 (record_of (writeRegion defdist) w)
        (List.filter (fun region => hasBoundaries (br_region region)) regions)
        records /\
      performs w (writeRegions defdist regions)
        (match records with
         | [] => EmptyString
         | _ :: _ =>
             "REGIONS " +:+ fmt_d (Z.of_nat (length records)) +:+ " ;" +:+ nl
             +:+ joined records +:+ "END REGIONS" +:+ nl
         end) [].
Proof.
  intros defdist regions w.
  destruct (for_each_records w regions
              (fun region => negb (hasBoundaries (br_region region)))
              (fun region => if negb (hasBoundaries (br_region region))
                             then mret tt else writeRegion defdist region)
              (record_of (writeRegion defdist) w))
    as (records & HR & Hloop).
  - intros region E. rewrite E. apply performs_ret.
  - intros region E.
    destruct (prints_writeRegion defdist w region) as (t & Hp & Ht).
    exists t. split; [split; assumption|]. now rewrite E.
  - assert (HF : List.filter
                   (fun x => negb (negb (hasBoundaries (br_region x)))) regions
                 = List.filter (fun x => hasBoundaries (br_region x)) regions).
    { apply filter_ext. intros x. apply negb_involutive. }
    rewrite HF in HR. exists records. split; [exact HR|].
    unfold writeRegions. cbv zeta.
    rewrite count_fold_keep, Z.add_0_l, (Forall2_length _ _ _ HR).
    rewrite length_zero_nil. destruct records as [|r rs] eqn:Er.
    + apply performs_ret.
    + rewrite <- Er in *. eapply performs_text.
      * eapply performs_then; [apply performs_fprintf|].
        eapply performs_then; [exact Hloop | apply performs_fprintf].
      * now rewrite !append_assoc_s.
Qed.

(** Property X11.  [GROUPS] declares the groups that are written, those with an
    instance; without any there is no section. *)
Theorem writeGroups_count_matches :
  forall (groups : list dbGroup) w,
    exists records,
      Forall2 (record_of writeGroup w) (List.filter hasInsts groups)
        records /\
      performs w (writeGroups groups)
        (match records with
         | [] => EmptyString
         | _ :: _ =>
             "GROUPS " +:+ fmt_d (Z.of_nat (length records)) +:+ " ;" +:+ nl
             +:+ joined records +:+ "END GROUPS" +:+ nl
         end) [].
Proof.
  intros groups w.
  destruct (for_each_records w groups (fun group => negb (hasInsts group))
              (fun group => if negb (hasInsts group) then mret tt
                            else writeGroup group)
              (record_of writeGroup w))
    as (records & HR & Hloop).
  - intros group E. rewrite E. apply performs_ret.
  - intros group E. destruct (prints_writeGroup w group) as (t & Hp & Ht).
    exists t. split; [split; assumption|]. now rewrite E.
  - assert (HF : List.filter (fun x => negb (negb (hasInsts x))) groups
                 = List.filter hasInsts groups).
    { apply filter_ext. intros x. apply negb_involutive. }
    rewrite HF in HR. exists records. split; [exact HR|].
    unfold writeGroups. cbv zeta.
    rewrite count_fold_keep, Z.add_0_l, (Forall2_length _ _ _ HR).
    rewrite length_zero_nil. destruct records as [|r rs] eqn:Er.
    + apply performs_ret.
    + rewrite <- Er in *. eapply performs_text.
      * eapply performs_then; [apply performs_fprintf|].
        eapply performs_then; [exact Hloop | apply performs_fprintf].
      * now rewrite !append_assoc_s.
Qed.

(** ** Pins *)

Lemma yields_ret {A} w (a : A) : yields w (mret a) a EmptyString [].
Proof.
  intros s l. unfold mret, M_ret. now rewrite append_nil_r_s, app_nil_r.
Qed.

Lemma yields_bind {A B} w (m : M A) (f : A -> M B) a b t1 l1 t2 l2 :
  yields w m a t1 l1 -> yields w (f a) b t2 l2 ->
  yields w (m ≫= f) b (t1 +:+ t2) (l1 ++ l2).
Proof.
  intros Hm Hf s l. unfold mbind, M_bind. rewrite Hm, Hf.
  now rewrite append_assoc_s, app_assoc.
Qed.

Lemma performs_yields w (m : M unit) text msgs :
  performs w m text msgs <-> yields w m tt text msgs.
Proof. reflexivity. Qed.

Lemma joined_app a b : joined (a ++ b) = joined a +:+ joined b.
Proof.
  induction a as [|x a IH]; [reflexivity|].
  simpl. rewrite IH. now rewrite append_assoc_s.
Qed.

(** The loop lemma with a log: every object may log, the skipped ones
    print nothing. *)
Lemma for_each_records_log {A} w (l : list A) (skip : A -> bool)
    (body : A -> M unit) (R : A -> string -> Prop)
    (msgs : A -> list string) :
  (forall x, skip x = true -> performs w (body x) EmptyString (msgs x)) ->
  (forall x, skip x = false ->
             exists t, R x t /\ performs w (body x) t (msgs x)) ->
  exists records,
    Forall2 R (List.filter (fun x => negb (skip x)) l) records /\
    performs w (for_each l body) (joined records) (concat (map msgs l)).
Proof.
  intros Hskip Hkeep. induction l as [|x l (records & HR & IH)]; simpl.
  - exists []. split; [constructor | apply performs_ret].
  - destruct (skip x) eqn:E; simpl.
    + exists records. split; [exact HR|].
      apply (performs_bind w _ _ EmptyString _ _ _ (Hskip x E) IH).
    + destruct (Hkeep x E) as (t & Ht & Hp).
      exists (t :: records). split; [now constructor|].
      apply (performs_bind w _ _ t _ _ _ Hp IH).
Qed.

Lemma concat_map_cond {A B} (c : A -> bool) (f : A -> B) (l : list A) :
  concat (map (fun x => if c x then [f x] else []) l)
  = map f (List.filter c l).
Proof.
  induction l as [|x l IH]; [reflexivity|].
  simpl. destruct (c x); simpl; now rewrite IH.
Qed.

(** A section: its header line, its body, and the line that ends it. *)
Lemma performs_section w (m : M unit) header footer text msgs :
  performs w m text msgs ->
  performs w (fprintf header ;; m ;; fprintf footer)
    (header +:+ text +:+ footer) msgs.
Proof.
  intros H.
  pose proof (performs_bind w _ _ _ _ _ _ (performs_fprintf w header)
                (performs_bind w _ _ _ _ _ _ H (performs_fprintf w footer)))
    as P.
  simpl in P. now rewrite app_nil_r in P.
Qed.

Lemma prints_writeSensitivity w bterm : prints w (writeSensitivity bterm).
Proof. unfold writeSensitivity. prints_all. Qed.

Ltac prints_pin :=
  repeat first [ apply prints_writeSensitivity | prints_step ].

Lemma prints_writeBPin (defdist : Z -> Z) w bterm net bpin cnt :
  prints w (writeBPin defdist bterm net bpin cnt).
Proof. unfold writeBPin. prints_pin. Qed.

Lemma prints_writeBPin_first (defdist : Z -> Z) w bterm net bpin :
  prints_from "    - " w (writeBPin defdist bterm net bpin 0).
Proof.
  unfold writeBPin.
  apply prints_from_get; [intros; reflexivity | cbv beta].
  apply prints_from_bind; [|prints_pin].
  change ((0 =? 0) || version_le (_version w) DEF_5_6) with true.
  unfold when at 1.
  apply prints_from_bind; [|prints_pin].
  destruct (_use_net_inst_ids w); simpl;
    apply prints_from_fprintf, prefix_self_append.
Qed.

(** The record of a pin that has a net only prints, from the dash on. *)
Lemma prints_writeBTerm (defdist : Z -> Z) w bterm :
  hasNet bterm = true ->
  prints_from "    - " w (writeBTerm defdist bterm).
Proof.
  unfold hasNet, writeBTerm. intros H.
  apply prints_from_get; [intros; reflexivity | cbv beta].
  destruct (bterm_net bterm) as [net|]; [|discriminate].
  destruct (bterm_bpins bterm) as [|bpin bpins].
  - apply prints_from_bind; [|prints_pin].
    destruct (_use_net_inst_ids w);
      apply prints_from_fprintf, prefix_self_append.
  - apply prints_from_bind; [|prints_pin].
    simpl for_each_from.
    apply prints_from_bind; [apply prints_writeBPin_first|].
    apply prints_for_each_from. intros. apply prints_writeBPin.
Qed.

Lemma writeBTerm_no_net (defdist : Z -> Z) w bterm :
  hasNet bterm = false ->
  performs w (writeBTerm defdist bterm) EmptyString [noNetWarning bterm].
Proof.
  unfold hasNet, writeBTerm. intros H.
  apply performs_get; [intros; reflexivity | cbv beta].
  destruct (bterm_net bterm); [discriminate|]. apply performs_warn.
Qed.

(** Property X7.  [PINS] declares the pins that pass the net filter, with or without a
    net; a record is written for those of them that have a net, and a
    warning is logged for each of the others, in the order of the names. *)
Theorem writeBTerms_declares_pins_without_net :
  forall (defdist : Z -> Z) block w,
    let passing :=
      List.filter (fun bterm => negb (bterm_skipped w bterm)) in
    let sorted := passing (sortedSet bterm_name (block_bterms block)) in
    exists records,
      Forall2 (record_of (writeBTerm defdist) w)
        (List.filter hasNet sorted) records /\
      performs w (writeBTerms defdist block)
        (match block_bterms block with
         | [] => EmptyString
         | _ :: _ =>
             "PINS "
             +:+ fmt_d (Z.of_nat (length (passing (block_bterms block))))
             +:+ " ;" +:+ nl +:+ joined records +:+ "END PINS" +:+ nl
         end)
        (match block_bterms block with
         | [] => []
         | _ :: _ =>
             map noNetWarning
               (List.filter (fun bterm => negb (hasNet bterm)) sorted)
         end).
Proof.
  intros defdist block w passing sorted.
  set (bterms := block_bterms block).
  set (skip := fun bterm => bterm_skipped w bterm || negb (hasNet bterm)).
  set (msgs := fun bterm =>
                 if negb (bterm_skipped w bterm) && negb (hasNet bterm)
                 then [noNetWarning bterm] else []).
  destruct (for_each_records_log w (sortedSet bterm_name bterms) skip
              (fun bterm => if bterm_skipped w bterm then mret tt
                            else writeBTerm defdist bterm)
              (record_of (writeBTerm defdist) w) msgs)
    as (records & HR & Hloop).
  - intros bterm E. subst skip msgs. cbv beta in *.
    destruct (bterm_skipped w bterm); simpl in *; [apply performs_ret|].
    apply negb_true_iff in E. rewrite E. simpl.
    now apply writeBTerm_no_net.
  - intros bterm E. subst skip msgs. cbv beta in *.
    apply orb_false_iff in E as [E1 E2]. apply negb_false_iff in E2.
    rewrite E1, E2. simpl.
    destruct (prints_writeBTerm defdist w bterm E2) as (t & Hp & Ht).
    exists t. split; [split; assumption | exact Ht].
  - assert (HF : forall l, List.filter (fun x => negb (skip x)) l
                           = List.filter hasNet (passing l)).
    { subst passing skip. intros l.
      induction l as [|x l IH]; [reflexivity|].
      simpl. destruct (bterm_skipped w x); simpl; [exact IH|].
      destruct (hasNet x); simpl; now rewrite IH. }
    assert (HM : forall l, concat (map msgs l)
                           = map noNetWarning
                               (List.filter (fun bterm => negb (hasNet bterm))
                                  (passing l))).
    { subst passing msgs. intros l.
      induction l as [|x l IH]; [reflexivity|].
      simpl. destruct (bterm_skipped w x); simpl; [exact IH|].
      destruct (hasNet x); simpl; now rewrite IH. }
    rewrite HF in HR. rewrite HM in Hloop.
    exists records. split; [exact HR|].
    unfold writeBTerms. fold bterms. cbv zeta.
    destruct bterms as [|b bs] eqn:Eb; [apply performs_ret|].
    rewrite <- Eb in *.
    apply performs_get; [intros; reflexivity | cbv beta].
    rewrite (count_fold (bterm_skipped w)), Z.add_0_l.
    eapply performs_text.
    + apply performs_section. apply Hloop.
    + now rewrite !append_assoc_s.
Qed.

(** ** Nets *)

Lemma fold_left_ext {A B} (f g : A -> B -> A) :
  (forall a x, f a x = g a x) ->
  forall l a, fold_left f l a = fold_left g l a.
Proof.
  intros H l. induction l as [|x l IH]; intros a; simpl; [reflexivity|].
  now rewrite H, IH.
Qed.

Lemma countNets_countStep w l :
  countNets w l = fold_left (countStep w) l (∅, 0, 0).
Proof.
  unfold countNets. apply fold_left_ext. now intros [[m nc] sc] x.
Qed.

Lemma countStep_spec w (m : gmap nat Z) nc sc x :
  exists m',
    countStep w (m, nc, sc) x
    = (m',
       nc + (if negb (net_skipped w (net_id x)) && isRegular x then 1 else 0),
       sc + (if negb (net_skipped w (net_id x)) && net_special x
             then 1 else 0)) /\
    (forall id, id <> net_id x -> m' !! id = m !! id) /\
    (net_skipped w (net_id x) = false ->
     m' !! net_id x = Some (if isRegular x then 1 else 0)).
Proof.
  unfold countStep, isRegular.
  destruct (net_skipped w (net_id x)); simpl.
  { exists m. rewrite !Z.add_0_r. repeat split. discriminate. }
  destruct (net_special x); simpl.
  - destruct (existsb _ _); eexists; rewrite ?Z.add_0_r;
      (split; [reflexivity|]); split; intros;
        try (apply lookup_insert_ne; congruence); apply lookup_insert_eq.
  - eexists; rewrite ?Z.add_0_r; (split; [reflexivity|]); split; intros;
      try (apply lookup_insert_ne; congruence); apply lookup_insert_eq.
Qed.

Lemma countNets_fold w (l : list dbNet) : forall (m : gmap nat Z) nc sc,
  exists M,
    fold_left (countStep w) l (m, nc, sc)
    = (M,
       nc + Z.of_nat (length (List.filter (fun net =>
              negb (net_skipped w (net_id net)) && isRegular net) l)),
       sc + Z.of_nat (length (List.filter (fun net =>
              negb (net_skipped w (net_id net)) && net_special net) l))) /\
    (forall id, id ∉ map net_id l -> M !! id = m !! id) /\
    (NoDup (map net_id l) ->
     forall net, net ∈ l -> net_skipped w (net_id net) = false ->
                 M !! net_id net = Some (if isRegular net then 1 else 0)).
Proof.
  induction l as [|x l IH]; intros m nc sc.
  - exists m. simpl. rewrite !Z.add_0_r. repeat split.
    intros _ net H. now apply elem_of_nil in H.
  - change (fold_left (countStep w) (x :: l) (m, nc, sc))
      with (fold_left (countStep w) l (countStep w (m, nc, sc) x)).
    destruct (countStep_spec w m nc sc x) as (m' & E & Hne & Hx).
    rewrite E.
    destruct (IH m' (nc + (if negb (net_skipped w (net_id x)) && isRegular x
                           then 1 else 0))
                 (sc + (if negb (net_skipped w (net_id x)) && net_special x
                        then 1 else 0)))
      as (M & EM & I1 & I2).
    exists M. split; [|split].
    + rewrite EM. cbn [List.filter].
      destruct (negb (net_skipped w (net_id x)) && isRegular x),
               (negb (net_skipped w (net_id x)) && net_special x);
        cbn [length]; rewrite ?Nat2Z.inj_succ; (f_equal; [f_equal|]); lia.
    + intros id Hid. simpl in Hid.
      rewrite I1 by (intros H; apply Hid; apply elem_of_cons; now right).
      apply Hne. intros ->. apply Hid. apply elem_of_cons. now left.
    + intros Hnd net Hin Hs. simpl in Hnd.
      apply NoDup_cons in Hnd as [Hx' Hnd].
      apply elem_of_cons in Hin as [->|Hin].
      * rewrite I1 by exact Hx'. now apply Hx.
      * now apply I2.
Qed.

(** Property X15.  The counting pass of [writeNets], on nets with distinct ids: the two
    counts are the numbers of nets the two writing loops take, the nets
    that pass the net filter and are special, and the ones that pass it
    and are marked regular; a passing net is marked regular when it is not
    special or has a terminal that is not special, so a special net with
    such a terminal is counted, and written, in both sections. *)
Theorem countNets_counts_what_is_written :
  forall w (nets : list dbNet),
    NoDup (map net_id nets) ->
    exists regular_net,
      let passes net := negb (net_skipped w (net_id net)) in
      let marked net := dbMap_get regular_net (net_id net) =? 1 in
      countNets w nets
      = (regular_net,
         Z.of_nat (length (List.filter (fun net => passes net && marked net)
                             nets)),
         Z.of_nat (length (List.filter (fun net => passes net
                                                   && net_special net)
                             nets))) /\
      forall net, net ∈ nets -> passes net = true ->
                  marked net = isRegular net.
Proof.
  intros w nets Hnd.
  destruct (countNets_fold w nets ∅ 0 0) as (M & E & _ & HM).
  exists M. cbv zeta.
  assert (Hmark : forall net, net ∈ nets ->
            negb (net_skipped w (net_id net)) = true ->
            (dbMap_get M (net_id net) =? 1) = isRegular net).
  { intros net Hin Hp. apply negb_true_iff in Hp.
    unfold dbMap_get. rewrite (HM Hnd net Hin Hp). simpl.
    now destruct (isRegular net). }
  split; [|exact Hmark].
  rewrite countNets_countStep, E, !Z.add_0_l. f_equal. f_equal. f_equal. f_equal.
  apply filter_ext_in. intros net Hin.
  destruct (negb (net_skipped w (net_id net))) eqn:Hp; simpl; [|reflexivity].
  symmetry. apply Hmark; [now apply list_elem_of_In | exact Hp].
Qed.

(** ** The registry of property names *)

Lemma runs_bind {A B} w w1 w2 (m : M A) (f : A -> M B) a b t1 l1 t2 l2 :
  runs w w1 m a t1 l1 -> runs w1 w2 (f a) b t2 l2 ->
  runs w w2 (m ≫= f) b (t1 +:+ t2) (l1 ++ l2).
Proof.
  intros Hm Hf s l. unfold mbind, M_bind. rewrite Hm, Hf.
  now rewrite append_assoc_s, app_assoc.
Qed.

Lemma performs_runs w (m : M unit) text msgs :
  performs w m text msgs <-> runs w w m tt text msgs.
Proof. reflexivity. Qed.

Lemma registering_prints (m : M unit) :
  (forall w, prints w m) -> registering m (fun _ _ => False).
Proof.
  intros H w. destruct (H w) as [text Ht]. exists w, text.
  split; [exact Ht|]. split; [reflexivity|]. tauto.
Qed.

Lemma registering_weaken (m : M unit) (a b : ObjType -> string -> Prop) :
  (forall type name, a type name <-> b type name) ->
  registering m a -> registering m b.
Proof.
  intros Hab H w. destruct (H w) as (w' & text & Hr & Hs & Hreg).
  exists w', text. split; [exact Hr|]. split; [exact Hs|].
  intros type name. rewrite Hreg, Hab. reflexivity.
Qed.

Lemma registering_bind (m k : M unit) a1 a2 :
  registering m a1 -> registering k a2 ->
  registering (m ;; k) (fun type name => a1 type name \/ a2 type name).
Proof.
  intros Hm Hk w.
  destruct (Hm w) as (w1 & t1 & R1 & S1 & G1).
  destruct (Hk w1) as (w2 & t2 & R2 & S2 & G2).
  exists w2, (t1 +:+ t2). split; [|split].
  - apply (runs_bind w w1 w2 m (fun _ => k) tt tt t1 [] t2 [] R1 R2).
  - now rewrite S2.
  - intros type name. rewrite G2, G1. tauto.
Qed.

Lemma registering_for_each {A} (l : list A) body
    (a : A -> ObjType -> string -> Prop) :
  (forall x, registering (body x) (a x)) ->
  registering (for_each l body)
    (fun type name => exists x, x ∈ l /\ a x type name).
Proof.
  intros H. induction l as [|x l IH]; simpl.
  - apply (registering_weaken _ (fun _ _ => False)).
    + intros type name. split; [tauto|].
      intros (x & Hx & _). now apply elem_of_nil in Hx.
    + apply registering_prints. intros w. apply prints_ret.
  - eapply registering_weaken; [|apply (registering_bind _ _ _ _ (H x) IH)].
    intros type name. cbv beta. split.
    + intros [Hx|(y & Hy & Ha)].
      * exists x. split; [apply elem_of_cons; now left | exact Hx].
      * exists y. split; [apply elem_of_cons; now right | exact Ha].
    + intros (y & Hy & Ha). apply elem_of_cons in Hy as [->|Hy].
      * now left.
      * right. eauto.
Qed.

Lemma registering_registerProp type0 name0 :
  registering (registerProp type0 name0)
    (fun type name => type = type0 /\ name = name0).
Proof.
  intros w.
  exists (set_prop_defs
            (fun t => if decide (t = type0)
                      then <[name0 := true]> (_prop_defs w t)
                      else _prop_defs w t) w), EmptyString.
  split; [|split].
  - intros s l. unfold registerProp, modify. simpl.
    now rewrite append_nil_r_s, app_nil_r.
  - reflexivity.
  - intros type name. simpl. destruct (decide (type = type0)) as [->|Hne].
    + rewrite lookup_insert. destruct (decide (name0 = name)) as [->|Hn].
      * split; [intros _; right; auto | intros _; eauto].
      * split; [intros H; now left|].
        intros [H|[_ H]]; [exact H | congruence].
    + split; [intros H; now left|].
      intros [H|[H _]]; [exact H | congruence].
Qed.

Lemma registering_writePropertyDefinition type objType prop :
  registering (writePropertyDefinition type objType prop)
    (fun t n => t = type /\ n = prop_name prop).
Proof.
  unfold writePropertyDefinition. cbv zeta.
  eapply registering_weaken;
    [|apply registering_bind;
       [apply registering_registerProp | apply registering_prints]].
  - intros t n. cbv beta. tauto.
  - intros w. unfold writePropValue. prints_all.
Qed.

Lemma registering_writePropertyDefinitions block :
  registering (writePropertyDefinitions block) (listed block).
Proof.
  unfold writePropertyDefinitions, listed.
  destruct (block_prop_defs block) as [obj_types|].
  - eapply registering_weaken;
      [|apply registering_bind;
         [apply registering_prints; intros; apply prints_fprintf
         |apply registering_bind;
           [apply (registering_for_each obj_types _
                     (fun obj t n =>
                        objTypeOfName (fst obj) = Some t /\
                        exists prop, prop ∈ snd obj /\ prop_name prop = n))
           |apply registering_prints; intros; apply prints_fprintf]]].
    + intros type name. cbv beta. split.
      * intros [[]|[(obj & Hobj & Ht & prop & Hp & Hn)|[]]].
        exists obj_types, (fst obj), (snd obj), prop.
        repeat split; try assumption. now destruct obj.
      * intros (o & objType & props & prop & Ho & Hin & Ht & Hp & Hn).
        injection Ho as <-. right. left.
        exists (objType, props). simpl. eauto 10.
    + intros [objType props]. simpl.
      destruct (objTypeOfName objType) as [obj_type|].
      * eapply registering_weaken;
          [|apply (registering_for_each props _
                     (fun prop t n => t = obj_type /\ n = prop_name prop));
            intros; apply registering_writePropertyDefinition].
        intros type name. cbv beta. split.
        -- intros (prop & Hp & -> & ->). split; [reflexivity|]. eauto.
        -- intros [Ht (prop & Hp & Hn)]. injection Ht as <-. eauto.
      * eapply registering_weaken;
          [|apply registering_prints; intros; apply prints_ret].
        intros type name. cbv beta. split; [tauto|]. intros [H _].
        discriminate.
  - eapply registering_weaken;
      [|apply registering_prints; intros; apply prints_ret].
    intros type name. cbv beta. split; [tauto|].
    intros (o & _ & _ & _ & Ho & _). discriminate.
Qed.

(** Property X5.  The property definitions pass registers, for each category, the names
    the container lists under the name of that category, whatever the type
    of the property, and keeps what was registered before; names under a
    name that is no category are not registered.  The pass prints, logs
    nothing and changes nothing but the registry. *)
Theorem writePropertyDefinitions_registers_listed_names :
  forall block w,
    exists w' text,
      runs w w' (writePropertyDefinitions block) tt text [] /\
      set_prop_defs (fun _ => ∅) w' = set_prop_defs (fun _ => ∅) w /\
      forall type name,
        is_Some (_prop_defs w' type !! name) <->
        is_Some (_prop_defs w type !! name) \/ listed block type name.
Proof.
  intros block w.
  destruct (registering_writePropertyDefinitions block w)
    as (w' & text & Hr & Hs & Hreg).
  exists w', text. auto.
Qed.

(** ** What the selection builder leaves alone *)

Lemma fold_left_keeps {A B} (p : defout_impl -> B)
    (f : A -> defout_impl -> defout_impl) :
  (forall x w, p (f x w) = p w) ->
  forall l w, p (fold_left (fun w x => f x w) l w) = p w.
Proof.
  intros Hf l. induction l as [|x l IH]; intros w; simpl; [reflexivity|].
  now rewrite IH, Hf.
Qed.

Lemma ensureInstMap_without_maps w :
  without_maps (ensureInstMap w) = without_maps w.
Proof. unfold ensureInstMap. now destruct (_select_inst_map w). Qed.

Lemma selectOneNet_pure_without_maps net w :
  without_maps (selectOneNet_pure net w) = without_maps w.
Proof.
  unfold selectOneNet_pure. cbv zeta.
  destruct (net_special net || net_mark_1ed net); [reflexivity|].
  rewrite (fold_left_keeps without_maps
             (fun iterm => markInst (iterm_inst iterm))) by reflexivity.
  now rewrite ensureInstMap_without_maps.
Qed.

Lemma selection_without_maps w :
  without_maps (selection w) = without_maps w.
Proof.
  unfold selection. cbv zeta.
  assert (H1 : without_maps
                 (match _select_net_list w with
                  | [] => w
                  | _ :: _ =>
                      fold_left (fun w net => selectOneNet_pure net w)
                        (_select_net_list w)
                        (set_select_net_map (Some ∅) w)
                  end) = without_maps w).
  { destruct (_select_net_list w); [reflexivity|].
    now rewrite (fold_left_keeps without_maps selectOneNet_pure)
      by apply selectOneNet_pure_without_maps. }
  destruct (_select_inst_list w); [exact H1|].
  rewrite (fold_left_keeps without_maps markInst) by reflexivity.
  now rewrite ensureInstMap_without_maps.
Qed.

(** Property X3.  The selection builder always returns, and changes nothing of the
    writer but its two selection maps: the stream, the log, the version,
    the flags, the selection lists, the registry of property names and the
    current rule are as before. *)
Theorem buildSelection_changes_only_the_maps :
  forall w : defout_impl,
    exists w',
      buildSelection w = Ret tt w' /\ without_maps w' = without_maps w.
Proof.
  intros w. exists (selection w).
  split; [apply buildSelection_eq | apply selection_without_maps].
Qed.

Lemma selectOneNet_pure_unwalked net w :
  walked net = false ->
  _select_inst_map (selectOneNet_pure net w) = _select_inst_map w.
Proof.
  unfold walked, selectOneNet_pure. cbv zeta.
  destruct (net_special net || net_mark_1ed net); [reflexivity | discriminate].
Qed.

Lemma fold_unwalked (l : list dbNet) : forall w,
  (forall net, net ∈ l -> walked net = false) ->
  _select_inst_map (fold_left (fun w net => selectOneNet_pure net w) l w)
  = _select_inst_map w.
Proof.
  induction l as [|n l IH]; intros w H; simpl; [reflexivity|].
  rewrite IH.
  - apply selectOneNet_pure_unwalked. apply H, elem_of_cons. now left.
  - intros net Hin. apply H, elem_of_cons. now right.
Qed.

(** Property X4.  When every selected net is special or marked and no instance is
    selected, the selection builder creates no instance map: the nets are
    filtered down to the selected ones, and every instance of the block
    passes the instance filter. *)
Theorem unwalked_selection_filters_no_instance :
  forall w : defout_impl,
    _select_inst_map w = None ->
    _select_inst_list w = [] ->
    _select_net_list w <> [] ->
    (forall net, net ∈ _select_net_list w -> walked net = false) ->
    exists w',
      buildSelection w = Ret tt w' /\
      (forall id,
         net_skipped w' id = false <-> id ∈ map net_id (_select_net_list w)) /\
      forall inst, inst_skipped w' inst = false.
Proof.
  intros w HI Hl Hn Hw. exists (selection w).
  split; [apply buildSelection_eq|].
  assert (Hmap : _select_inst_map (selection w) = None).
  { unfold selection. rewrite Hl.
    destruct (_select_net_list w) as [|n l] eqn:E; [congruence|].
    rewrite <- E, fold_unwalked; [exact HI|].
    intros net Hin. apply Hw. now rewrite E in Hin. }
  split.
  - intros id.
    assert (HN : netMarks (selection w) (rev (map net_id (_select_net_list w)))).
    { unfold selection. rewrite Hl.
      destruct (_select_net_list w) as [|n l] eqn:E; [congruence|].
      rewrite <- E.
      destruct (selection_fold_nets (_select_net_list w)
                  (set_select_net_map (Some ∅) w) [] []) as (A & _).
      - exists ∅. split; [reflexivity | apply marks_empty].
      - unfold instMarks. simpl. now rewrite HI.
      - now rewrite app_nil_r in A. }
    destruct HN as (g & Hg & Hm).
    unfold net_skipped. rewrite Hg, (marks_skipped _ _ id Hm).
    now rewrite !list_elem_of_In, <- in_rev.
  - intros inst. unfold inst_skipped. now rewrite Hmap.
Qed.

(** ** Rectangles with a direction *)

(** Collapsing an odd span leaves the two ends one unit apart, and the
    assertion fails. *)
Lemma collapseAxis_odd lo hi w :
  - 2 ^ 31 <= lo -> lo <= hi -> hi < 2 ^ 31 ->
  Z.even (hi - lo) = false ->
  collapseAxis lo hi (Z.shiftr (hi - lo) 1) w = Abort AssertionFailed w.
Proof.
  intros H1 H2 H3 He.
  assert (Ho : Z.odd (hi - lo) = true) by (rewrite <- Z.negb_even, He; reflexivity).
  apply Z.odd_spec in Ho. destruct Ho as [k Hk].
  unfold collapseAxis. cbv zeta.
  rewrite Z.shiftr_div_pow2 by lia. change (2 ^ 1) with 2.
  assert (Hd : (hi - lo) / 2 = k) by (Z.div_mod_to_equations; lia).
  rewrite Hd.
  assert (Hlo : to_int (to_uint (to_uint lo + k)) = lo + k).
  { unfold to_int, to_uint. Z.div_mod_to_equations. lia. }
  assert (Hhi : to_int (to_uint (to_uint hi - k)) = hi - k).
  { unfold to_int, to_uint. Z.div_mod_to_equations. lia. }
  rewrite Hlo, Hhi.
  replace (lo + k =? hi - k) with false by (symmetry; apply Z.eqb_neq; lia).
  reflexivity.
Qed.

(** Property X19.  A rectangle of direction HORIZONTAL is collapsed along y and one of
    direction VERTICAL along x, whatever the parity of the spans (the
    coordinates [int]s, lower corner first): an even span of that axis is
    the width and both ends take its midpoint; an odd one fails the
    assertion, also when the other span is even.  Neither direction raises
    a [ZException]. *)
Theorem directed_rectangle_collapses_its_own_axis :
  forall (defdist : Z -> Z) (sts : dbWireShapeType -> string) box w,
    let x1 := r_xMin (sbox_rect box) in
    let y1 := r_yMin (sbox_rect box) in
    let x2 := r_xMax (sbox_rect box) in
    let y2 := r_yMax (sbox_rect box) in
    - 2 ^ 31 <= x1 -> x1 <= x2 -> x2 < 2 ^ 31 ->
    - 2 ^ 31 <= y1 -> y1 <= y2 -> y2 < 2 ^ 31 ->
    let dx := x2 - x1 in
    let dy := y2 - y1 in
    (sbox_direction box = HORIZONTAL ->
     specialPathGeometry box w
     = if Z.even dy
       then Ret (dy, x1, (y1 + y2) / 2, x2, (y1 + y2) / 2) w
       else Abort AssertionFailed w) /\
    (sbox_direction box = VERTICAL ->
     specialPathGeometry box w
     = if Z.even dx
       then Ret (dx, (x1 + x2) / 2, y1, (x1 + x2) / 2, y2) w
       else Abort AssertionFailed w) /\
    (sbox_direction box = HORIZONTAL \/ sbox_direction box = VERTICAL ->
     forall msg w',
       writeSpecialPath defdist sts box w <> Abort (ZException msg) w').
Proof.
  intros defdist sts box w x1 y1 x2 y2 Hx1 Hx Hx2 Hy1 Hy Hy2 dx dy.
  assert (GH : sbox_direction box = HORIZONTAL ->
               specialPathGeometry box w
               = if Z.even dy
                 then Ret (dy, x1, (y1 + y2) / 2, x2, (y1 + y2) / 2) w
                 else Abort AssertionFailed w).
  { intros Hdir. unfold specialPathGeometry. rewrite Hdir. cbv zeta.
    fold x1 y1 x2 y2. rewrite (to_uint_span y1 y2) by assumption.
    destruct (Z.even dy) eqn:E.
    - now rewrite (bind_Ret _ _ _ _ _ (collapseAxis_even y1 y2 w Hy1 Hy Hy2 E)).
    - now rewrite (bind_Abort _ _ _ _ _ (collapseAxis_odd y1 y2 w Hy1 Hy Hy2 E)). }
  assert (GV : sbox_direction box = VERTICAL ->
               specialPathGeometry box w
               = if Z.even dx
                 then Ret (dx, (x1 + x2) / 2, y1, (x1 + x2) / 2, y2) w
                 else Abort AssertionFailed w).
  { intros Hdir. unfold specialPathGeometry. rewrite Hdir. cbv zeta.
    fold x1 y1 x2 y2. rewrite (to_uint_span x1 x2) by assumption.
    destruct (Z.even dx) eqn:E.
    - now rewrite (bind_Ret _ _ _ _ _ (collapseAxis_even x1 x2 w Hx1 Hx Hx2 E)).
    - now rewrite (bind_Abort _ _ _ _ _ (collapseAxis_odd x1 x2 w Hx1 Hx Hx2 E)). }
  split; [exact GH|]. split; [exact GV|].
  intros Hdir msg w' H.
  assert (G : (exists g, specialPathGeometry box w = Ret g w) \/
              specialPathGeometry box w = Abort AssertionFailed w).
  { destruct Hdir as [Hdir|Hdir]; [rewrite (GH Hdir) | rewrite (GV Hdir)].
    - destruct (Z.even dy); eauto.
    - destruct (Z.even dx); eauto. }
  destruct G as [[g G]|G].
  - exact (writeSpecialPath_geometry_ret defdist sts box w g G msg w' H).
  - rewrite (writeSpecialPath_geometry_abort defdist sts box w _ _ G) in H.
    discriminate.
Qed.

(** ** Points with an extension *)



(** ** Blockages, fills and scan chains *)

Lemma yields_get {A} w (f : defout_impl -> M A) a text msgs :
  (forall s l, f (set_logger l (set_out (Some s) w)) = f w) ->
  yields w (f w) a text msgs ->
  yields w (get ≫= f) a text msgs.
Proof.
  intros Hf H s l. unfold mbind, M_bind, get. rewrite Hf. apply H.
Qed.

Lemma yields_then {A B} w (m : M A) (f : A -> M B) a b t1 t2 :
  yields w m a t1 [] -> yields w (f a) b t2 [] ->
  yields w (m ≫= f) b (t1 +:+ t2) [].
Proof. apply (yields_bind w m f a b t1 [] t2 []). Qed.

Lemma yields_eq {A} w (m : M A) a a' t t' msgs :
  yields w m a t msgs -> a = a' -> t = t' -> yields w m a' t' msgs.
Proof. now intros H <- <-. Qed.

Lemma filter_length_Permutation {T} (f : T -> bool) (l l' : list T) :
  l ≡ₚ l' -> length (List.filter f l) = length (List.filter f l').
Proof.
  induction 1 as [|x l l' _ IH|x y l|l l' l'' _ IH1 _ IH2].
  - reflexivity.
  - simpl. destruct (f x); simpl; now rewrite IH.
  - simpl. destruct (f x), (f y); reflexivity.
  - now rewrite IH1.
Qed.

(** One loop of [writeBlockages]: the records of the objects that pass,
    the header before the first of them when it is still to come. *)
Lemma blockage_records {T} w bcnt (owner : T -> option dbInst)
    (record : T -> M unit) (R : T -> string -> Prop) :
  (forall x, exists t, R x t /\ performs w (record x) t []) ->
  forall sorted first,
    exists records,
      Forall2 R
        (List.filter (fun x => negb (owner_skipped w (owner x))) sorted)
        records /\
      yields w (writeBlockageRecords bcnt owner record sorted first)
        (match records with [] => first | _ :: _ => false end)
        (match records with
         | [] => EmptyString
         | _ :: _ =>
             (if first
              then "BLOCKAGES " +:+ fmt_d bcnt +:+ " ;" +:+ nl
              else EmptyString) +:+ joined records
         end) [].
Proof.
  intros Hrec sorted. induction sorted as [|x l IH]; intros first.
  - exists []. split; [constructor | apply yields_ret].
  - unfold writeBlockageRecords. cbn [fold_M List.filter].
    destruct (owner_skipped w (owner x)) eqn:E; cbn [negb].
    + destruct (IH first) as (records & HR & Hy).
      exists records. split; [exact HR|].
      eapply yields_eq.
      * eapply yields_then; [|exact Hy].
        apply yields_get; [intros; reflexivity|]. rewrite E.
        apply yields_ret.
      * reflexivity.
      * reflexivity.
    + destruct (IH false) as (records & HR & Hy).
      destruct (Hrec x) as (t & Ht & Hp).
      exists (t :: records). split; [now constructor|].
      assert (Hh : performs w
                (when first
                   (fprintf ("BLOCKAGES " +:+ fmt_d bcnt +:+ " ;" +:+ nl)))
                (if first
                 then "BLOCKAGES " +:+ fmt_d bcnt +:+ " ;" +:+ nl
                 else EmptyString) []).
      { destruct first; [apply performs_fprintf | apply performs_ret]. }
      eapply yields_eq.
      * eapply yields_then; [|exact Hy].
        apply yields_get; [intros; reflexivity|]. rewrite E.
        eapply yields_then; [apply performs_yields; exact Hh|].
        eapply yields_then; [apply performs_yields; exact Hp|].
        apply yields_ret.
      * now destruct records.
      * rewrite append_nil_r_s. cbn [joined fold_right].
        destruct records; cbn [joined fold_right];
          now rewrite ?append_assoc_s, ?append_nil_r_s.
Qed.

Ltac prints_blockage :=
  apply prints_from_get; [intros; reflexivity | cbv beta];
  apply prints_from_bind;
  [ apply prints_from_fprintf;
    first [ reflexivity | apply prefix_self_append
          | apply prefix_append; reflexivity ]
  | unfold writeComponentOf; prints_all ].

Lemma prints_writeObstruction (defdist : Z -> Z) w obs :
  prints_from "    - " w (writeObstruction defdist obs).
Proof. unfold writeObstruction. prints_blockage. Qed.

Lemma prints_writeBlockage (defdist : Z -> Z) w blk :
  prints_from "    - " w (writeBlockage defdist blk).
Proof. unfold writeBlockage. prints_blockage. Qed.

(** Property X12.  [BLOCKAGES] declares every obstruction and placement blockage that is
    not system reserved; the records are those of the ones whose instance,
    if any, passes the instance filter, the obstructions before the
    placement blockages, each kind in the order [std::sort] leaves it in.
    Of the sort only this is used, that it permutes its input; the order of
    objects the comparator does not tell apart (all obstructions over one
    rectangle, since the comparator reads both layers from the first box)
    is left to it.  The header comes with the first record: when no object
    passes, nothing is written, neither header nor footer. *)
Theorem writeBlockages_declares_every_blockage :
  forall (defdist : Z -> Z) (rect_lt : Rect -> Rect -> bool)
         (layerNumber : dbTechLayer -> Z)
         (std_sort : forall T : Type, (T -> T -> bool) -> list T -> list T)
         (obstructions_raw : list dbObstruction)
         (blockages_raw : list dbBlockage) w,
    (forall T lt (l : list T), std_sort T lt l ≡ₚ l) ->
    let obstructions :=
      List.filter (fun o => negb (obs_system_reserved o)) obstructions_raw in
    let blockages :=
      List.filter (fun b => negb (blk_system_reserved b)) blockages_raw in
    let passing {T} (owner : T -> option dbInst) :=
      List.filter (fun x => negb (owner_skipped w (owner x))) in
    exists layers placements,
      Forall2 (record_of (writeObstruction defdist) w)
        (passing obs_inst
           (std_sort _ (obstruction_lt rect_lt layerNumber) obstructions))
        layers /\
      Forall2 (record_of (writeBlockage defdist) w)
        (passing blk_inst (std_sort _ (blockage_lt rect_lt) blockages))
        placements /\
      length layers = length (passing obs_inst obstructions) /\
      length placements = length (passing blk_inst blockages) /\
      performs w
        (writeBlockages defdist rect_lt layerNumber std_sort
           obstructions_raw blockages_raw)
        (match (layers ++ placements)%list with
         | [] => EmptyString
         | _ :: _ =>
             "BLOCKAGES "
             +:+ fmt_d (Z.of_nat (length obstructions + length blockages))
             +:+ " ;" +:+ nl +:+ joined (layers ++ placements)
             +:+ "END BLOCKAGES" +:+ nl
         end) [].
Proof.
  intros defdist rect_lt layerNumber std_sort obstructions_raw
         blockages_raw w Hsort obstructions blockages passing.
  set (bcnt := Z.of_nat (length obstructions + length blockages)).
  destruct (blockage_records w bcnt obs_inst (writeObstruction defdist)
              (record_of (writeObstruction defdist) w))
    with (sorted := std_sort _ (obstruction_lt rect_lt layerNumber)
                      obstructions)
         (first := true)
    as (layers & HL & YL).
  { intros obs. destruct (prints_writeObstruction defdist w obs) as (t & Hp & Ht).
    exists t. split; [split; assumption | exact Ht]. }
  assert (HB : forall first, exists placements,
             Forall2 (record_of (writeBlockage defdist) w)
               (passing _ blk_inst
                  (std_sort _ (blockage_lt rect_lt) blockages))
               placements /\
             yields w (writeBlockageRecords bcnt blk_inst
                         (writeBlockage defdist)
                         (std_sort _ (blockage_lt rect_lt) blockages) first)
               (match placements with [] => first | _ :: _ => false end)
               (match placements with
                | [] => EmptyString
                | _ :: _ =>
                    (if first
                     then "BLOCKAGES " +:+ fmt_d bcnt +:+ " ;" +:+ nl
                     else EmptyString) +:+ joined placements
                end) []).
  { intros first. apply blockage_records.
    intros blk. destruct (prints_writeBlockage defdist w blk) as (t & Hp & Ht).
    exists t. split; [split; assumption | exact Ht]. }
  destruct (HB (match layers with [] => true | _ :: _ => false end))
    as (placements & HP & YP).
  exists layers, placements.
  split; [exact HL|]. split; [exact HP|].
  assert (LL : length layers = length (passing _ obs_inst obstructions)).
  { rewrite <- (Forall2_length _ _ _ HL).
    apply filter_length_Permutation, Hsort. }
  assert (LP : length placements = length (passing _ blk_inst blockages)).
  { rewrite <- (Forall2_length _ _ _ HP).
    apply filter_length_Permutation, Hsort. }
  split; [exact LL|]. split; [exact LP|].
  unfold writeBlockages. cbv zeta. fold obstructions blockages. fold bcnt.
  destruct (bcnt =? 0) eqn:E0.
  - apply Z.eqb_eq in E0.
    assert (Hl : length layers = 0%nat).
    { rewrite LL. pose proof (filter_length_le
        (fun x => negb (owner_skipped w (obs_inst x))) obstructions).
      subst bcnt passing. cbv beta in *. lia. }
    assert (Hp : length placements = 0%nat).
    { rewrite LP. pose proof (filter_length_le
        (fun x => negb (owner_skipped w (blk_inst x))) blockages).
      subst bcnt passing. cbv beta in *. lia. }
    destruct layers; [|discriminate]. destruct placements; [|discriminate].
    apply performs_ret.
  - assert (Hf : forall first, performs w
               (when (negb first) (fprintf ("END BLOCKAGES" +:+ nl)))
               (if first then EmptyString else "END BLOCKAGES" +:+ nl) []).
    { intros []; [apply performs_ret | apply performs_fprintf]. }
    apply performs_yields. eapply yields_eq.
    + eapply yields_then; [exact YL|].
      eapply yields_then; [exact YP|].
      apply performs_yields, Hf.
    + reflexivity.
    + pose proof (joined_app layers placements) as Hall.
      destruct layers as [|r1 rs1], placements as [|r2 rs2]; cbn [app] in *.
      * reflexivity.
      * now rewrite !append_assoc_s.
      * rewrite Hall. cbn [joined fold_right].
        now rewrite ?append_assoc_s, ?append_nil_r_s.
      * rewrite Hall. now rewrite ?append_assoc_s.
Qed.

Lemma prints_writeFill (defdist : Z -> Z) w fill :
  prints_from "    - " w (writeFill defdist fill).
Proof. unfold writeFill. prints_record. Qed.

(** Property X13.  [FILLS] declares the fills of the block and writes a record for each,
    whatever is selected; a block without fills has no section. *)
Theorem writeFills_count_matches :
  forall (defdist : Z -> Z) (fills : list dbFill) w,
    exists records,
      Forall2 (record_of (writeFill defdist) w) fills records /\
      performs w (writeFills defdist fills)
        (match records with
         | [] => EmptyString
         | _ :: _ =>
             "FILLS " +:+ fmt_d (Z.of_nat (length records)) +:+ " ;" +:+ nl
             +:+ joined records +:+ "END FILLS" +:+ nl
         end) [].
Proof.
  intros defdist fills w.
  destruct (for_each_records w fills (fun _ => false)
              (writeFill defdist) (record_of (writeFill defdist) w))
    as (records & HR & Hloop).
  - discriminate.
  - intros fill _. destruct (prints_writeFill defdist w fill) as (t & Hp & Ht).
    exists t. split; [split; assumption | exact Ht].
  - assert (HF : List.filter (fun _ : dbFill => negb false) fills = fills).
    { clear. induction fills as [|x l IH]; [reflexivity|].
      simpl. f_equal. exact IH. }
    rewrite HF in HR. exists records. split; [exact HR|].
    unfold writeFills. rewrite (Forall2_length _ _ _ HR).
    destruct HR as [|f r fs rs Hr HR].
    + apply performs_ret.
    + eapply performs_text.
      * eapply performs_then; [apply performs_fprintf|].
        eapply performs_then; [exact Hloop | apply performs_fprintf].
      * now rewrite !append_assoc_s.
Qed.

Lemma for_each_from_records {A} w (body : A -> Z -> M unit)
    (R : A * Z -> string -> Prop) :
  (forall x i, exists t, R (x, i) t /\ performs w (body x i) t []) ->
  forall l cnt,
    exists records,
      Forall2 R (indexed_from cnt l) records /\
      performs w (for_each_from cnt l body) (joined records) [].
Proof.
  intros H l. induction l as [|x l IH]; intros cnt; simpl.
  - exists []. split; [constructor | apply performs_ret].
  - destruct (H x cnt) as (t & Ht & Hp).
    destruct (IH (cnt + 1)) as (records & HR & Hl).
    exists (t :: records). split; [now constructor|].
    apply (performs_then w _ _ t _ Hp Hl).
Qed.

Lemma indexed_from_length {A} (l : list A) : forall cnt,
  length (indexed_from cnt l) = length l.
Proof. induction l as [|x l IH]; intros cnt; simpl; [|rewrite IH]; reflexivity. Qed.

Lemma prints_writeScanLists w lists : prints w (writeScanLists lists).
Proof.
  unfold writeScanLists.
  assert (H : forall flags, exists text flags',
            yields w (fold_M lists flags
              (fun '(already_printed_floating, already_printed_ordered)
                   scan_insts =>
                 flags ←
                   (if Nat.eqb (length scan_insts) 1
                       && negb already_printed_floating
                    then fprintf ("+ FLOATING" +:+ nl) ;; mret (true, false)
                    else if Nat.ltb 1 (length scan_insts)
                            && negb already_printed_ordered
                    then fprintf ("+ ORDERED" +:+ nl) ;; mret (false, true)
                    else mret (already_printed_floating,
                               already_printed_ordered));
                 for_each scan_insts (fun scan_inst =>
                   fprintf ("  " +:+ scan_inst_name scan_inst +:+ " ( IN "
                            +:+ scan_inst_in scan_inst +:+ " ) ( OUT "
                            +:+ scan_inst_out scan_inst +:+ " )" +:+ nl)) ;;
                 mret flags)) flags' text []).
  { induction lists as [|scan_insts lists IH]; intros flags.
    - exists EmptyString, flags. apply yields_ret.
    - destruct flags as [fl od]. cbn [fold_M].
      assert (Hloop : prints w (for_each scan_insts (fun scan_inst =>
                   fprintf ("  " +:+ scan_inst_name scan_inst +:+ " ( IN "
                            +:+ scan_inst_in scan_inst +:+ " ) ( OUT "
                            +:+ scan_inst_out scan_inst +:+ " )" +:+ nl)))).
      { prints_all. }
      destruct Hloop as [tl Hl].
      assert (Hflags : exists t f,
                yields w
                  (if Nat.eqb (length scan_insts) 1 && negb fl
                   then fprintf ("+ FLOATING" +:+ nl) ;; mret (true, false)
                   else if Nat.ltb 1 (length scan_insts) && negb od
                   then fprintf ("+ ORDERED" +:+ nl) ;; mret (false, true)
                   else mret (fl, od)) f t []).
      { destruct (Nat.eqb (length scan_insts) 1 && negb fl);
          [|destruct (Nat.ltb 1 (length scan_insts) && negb od)].
        - exists (("+ FLOATING" +:+ nl) +:+ EmptyString), (true, false).
          eapply yields_then; [apply performs_yields, performs_fprintf|].
          apply yields_ret.
        - exists (("+ ORDERED" +:+ nl) +:+ EmptyString), (false, true).
          eapply yields_then; [apply performs_yields, performs_fprintf|].
          apply yields_ret.
        - exists EmptyString, (fl, od). apply yields_ret. }
      destruct Hflags as (t & f & Hf).
      destruct (IH f) as (text & flags' & Hy).
      exists ((t +:+ tl +:+ EmptyString) +:+ text), flags'.
      eapply yields_then; [|exact Hy].
      eapply yields_then; [exact Hf|].
      eapply yields_then; [apply performs_yields; exact Hl|].
      apply yields_ret. }
  destruct (H (false, false)) as (text & flags' & Hy).
  exists (text +:+ EmptyString).
  apply performs_yields.
  eapply yields_then; [exact Hy | apply yields_ret].
Qed.

(** Property X14.  [SCANCHAINS] declares the scan chains, and writes one record for each
    partition of each chain, under the name of the chain when the chain
    has one partition and under the name with the position of the
    partition otherwise.  The records are as many as the partitions of all
    chains together, which is the declared number when every chain has one
    partition; one chain with two partitions is declared as 1 and written
    as the two records [chain_0] and [chain_1]. *)
Theorem writeScanChains_declares_chains_writes_partitions :
  (forall (scan_chains : list dbScanChain) w,
    exists records : list (list string),
      Forall2 (fun chain texts =>
                 Forall2 (scan_record w chain)
                   (indexed_from 0 (chain_partitions chain)) texts)
        scan_chains records /\
      length (concat records)
      = length (concat (map chain_partitions scan_chains)) /\
      (Forall (fun chain => length (chain_partitions chain) = 1%nat)
         scan_chains ->
       length (concat records) = length scan_chains) /\
      performs w (writeScanChains scan_chains)
        (match scan_chains with
         | [] => EmptyString
         | _ :: _ =>
             nl +:+ "SCANCHAINS "
             +:+ fmt_d (Z.of_nat (length scan_chains)) +:+ " ;" +:+ nl
             +:+ nl +:+ joined (concat records)
             +:+ "END SCANCHAINS" +:+ nl +:+ nl
         end) [])
  /\ written (writeScanChains [ex_split_chain] ex_open_writer)
     = nl +:+ "SCANCHAINS 1 ;" +:+ nl +:+ nl
       +:+ "- chain_0" +:+ nl +:+ "+ START PIN si" +:+ nl
       +:+ "+ PARTITION p0" +:+ nl +:+ "+ STOP PIN so ;" +:+ nl +:+ nl
       +:+ "- chain_1" +:+ nl +:+ "+ START PIN si" +:+ nl
       +:+ "+ PARTITION p1" +:+ nl +:+ "+ STOP PIN so ;" +:+ nl +:+ nl
       +:+ "END SCANCHAINS" +:+ nl +:+ nl.
Proof.
  split; [|vm_compute; reflexivity].
  intros scan_chains w.
  assert (Hchain : forall chain, exists texts,
            Forall2 (scan_record w chain)
              (indexed_from 0 (chain_partitions chain)) texts /\
            performs w (for_each_from 0 (chain_partitions chain)
                          (writeScanPartition chain)) (joined texts) []).
  { intros chain. apply for_each_from_records. intros p i.
    assert (Hrest : prints w
              (fprintf ("+ START PIN " +:+ chain_scan_in chain +:+ nl) ;;
               writeScanLists (partition_lists p) ;;
               fprintf ("+ PARTITION " +:+ partition_name p +:+ nl) ;;
               fprintf ("+ STOP PIN " +:+ chain_scan_out chain +:+ " ;"
                        +:+ nl +:+ nl))).
    { repeat first [apply prints_writeScanLists | prints_step]. }
    destruct Hrest as [t Ht].
    exists (("- " +:+ scanChainName chain i +:+ nl) +:+ t). split.
    - split; [apply prefix_self_append|].
      apply (performs_then w _ _ _ _ (performs_fprintf w _) Ht).
    - apply (performs_then w _ _ _ _ (performs_fprintf w _) Ht). }
  assert (Hloop : exists records,
            Forall2 (fun chain texts =>
                       Forall2 (scan_record w chain)
                         (indexed_from 0 (chain_partitions chain)) texts)
              scan_chains records /\
            performs w (for_each scan_chains (fun scan_chain =>
                          for_each_from 0 (chain_partitions scan_chain)
                            (writeScanPartition scan_chain)))
              (joined (concat records)) []).
  { induction scan_chains as [|c l (records & HR & IH)].
    - exists []. split; [constructor | apply performs_ret].
    - destruct (Hchain c) as (texts & HT & Hp).
      exists (texts :: records). split; [now constructor|].
      cbn [concat for_each]. rewrite joined_app.
      apply (performs_then w _ _ _ _ Hp IH). }
  destruct Hloop as (records & HR & Hloop).
  assert (Hlen : length (concat records)
                 = length (concat (map chain_partitions scan_chains))).
  { clear Hloop. induction HR as [|c texts l records Hc HR IH]; [reflexivity|].
    cbn [concat map]. rewrite !length_app, IH.
    now rewrite <- (Forall2_length _ _ _ Hc), indexed_from_length. }
  exists records. split; [exact HR|]. split; [exact Hlen|]. split.
  - intros Hone. rewrite Hlen. clear -Hone.
    induction Hone as [|c l Hc _ IH]; [reflexivity|].
    cbn [concat map]. rewrite length_app, Hc, IH. reflexivity.
  - unfold writeScanChains. destruct scan_chains as [|c l] eqn:E.
    + apply performs_ret.
    + rewrite <- E in *. eapply performs_text.
      * eapply performs_then; [apply performs_fprintf|].
        eapply performs_then; [exact Hloop | apply performs_fprintf].
      * now rewrite !append_assoc_s.
Qed.

(** ** Net records and the current rule *)

Lemma says_ret {A} (a : A) : says (mret a) a EmptyString.
Proof. intros w. apply yields_ret. Qed.

Lemma says_fprintf text : says (fprintf text) tt text.
Proof. intros w. apply performs_yields, performs_fprintf. Qed.

Lemma says_bind {A B} (m : M A) (f : A -> M B) a b t1 t2 :
  says m a t1 -> says (f a) b t2 -> says (m ≫= f) b (t1 +:+ t2).
Proof. intros Hm Hf w. apply (yields_then w m f a b t1 t2 (Hm w) (Hf w)). Qed.

Lemma speaks_ret {A} (a : A) : speaks (mret a).
Proof. do 2 eexists. apply says_ret. Qed.

Lemma speaks_fprintf text : speaks (fprintf text).
Proof. do 2 eexists. apply says_fprintf. Qed.

Lemma speaks_bind {A B} (m : M A) (f : A -> M B) :
  speaks m -> (forall a, speaks (f a)) -> speaks (m ≫= f).
Proof.
  intros (a & t1 & Hm) Hf. destruct (Hf a) as (b & t2 & Hb).
  exists b, (t1 +:+ t2). now apply (says_bind m f a b).
Qed.

Lemma speaks_when b body : speaks body -> speaks (when b body).
Proof. intros H. destruct b; [exact H | apply speaks_ret]. Qed.

Lemma speaks_fold_M {A S} (body : S -> A -> M S) (l : list A) :
  (forall s x, speaks (body s x)) -> forall s, speaks (fold_M l s body).
Proof.
  intros H. induction l as [|x l IH]; intros s; simpl.
  - apply speaks_ret.
  - apply speaks_bind; [apply H | exact IH].
Qed.

Ltac speaks_step :=
  lazymatch goal with
  | |- speaks (mret _) => apply speaks_ret
  | |- speaks (fprintf _) => apply speaks_fprintf
  | |- speaks (mbind _ _) => apply speaks_bind; [|intros]
  | |- speaks (when _ _) => apply speaks_when
  | |- speaks (fold_M _ _ _) => apply speaks_fold_M; intros
  | |- speaks (if ?b then _ else _) => destruct b
  | |- speaks (match ?x with _ => _ end) => destruct x
  | |- speaks (let _ := _ in _) => cbv zeta
  end.

Lemma answers_ret {A} w (a : A) : answers w (mret a).
Proof. do 2 eexists. apply yields_ret. Qed.

Lemma answers_prints w (m : M unit) : prints w m -> answers w m.
Proof. intros [t H]. exists tt, t. now apply performs_yields. Qed.

Lemma prints_answers w (m : M unit) : answers w m -> prints w m.
Proof. intros ([] & t & H). exists t. now apply performs_yields. Qed.

Lemma answers_bind {A B} w (m : M A) (f : A -> M B) :
  answers w m -> (forall a, answers w (f a)) -> answers w (m ≫= f).
Proof.
  intros (a & t1 & Hm) Hf. destruct (Hf a) as (b & t2 & Hb).
  exists b, (t1 +:+ t2). now apply (yields_then w m f a b).
Qed.

Lemma answers_get {A} w (f : defout_impl -> M A) :
  (forall s l, f (set_logger l (set_out (Some s) w)) = f w) ->
  answers w (f w) -> answers w (get ≫= f).
Proof. intros Hf (a & t & H). exists a, t. now apply yields_get. Qed.

Ltac answers_step :=
  lazymatch goal with
  | |- answers _ (mret _) => apply answers_ret
  | |- answers _ (fprintf _) => apply answers_prints, prints_fprintf
  | |- answers _ (when _ _) => apply answers_prints, prints_when
  | |- answers _ (mbind _ get) =>
      apply answers_get; [intros; reflexivity | cbv beta]
  | |- answers _ (mbind _ _) => apply answers_bind; [|intros]
  | |- answers _ (if ?b then _ else _) => destruct b
  | |- answers _ (match ?x with _ => _ end) => destruct x
  | |- answers _ (let _ := _ in _) => cbv zeta
  | |- prints _ _ => prints_step
  end.

(** The wire encoder only prints: no event stops it. *)
Lemma answers_wireStep (defdist : Z -> Z) wts w net_type st d rest :
  answers w (wireStep defdist wts net_type st d rest).
Proof.
  unfold wireStep, wirePath, wirePoint, wirePointExt, wireVia, wireTechVia,
    wireRule, wireRect, advancePoint.
  repeat answers_step.
Qed.

Lemma answers_wireLoop (defdist : Z -> Z) wts w net_type events :
  forall st, answers w (wireLoop defdist wts net_type st events).
Proof.
  induction events as [|d rest IH]; intros st; simpl.
  - apply answers_ret.
  - apply answers_bind; [apply answers_wireStep | exact IH].
Qed.

Lemma prints_writeWire (defdist : Z -> Z) wts w wire :
  prints w (writeWire defdist wts wire).
Proof.
  unfold writeWire. apply prints_answers.
  apply answers_bind; [apply answers_wireLoop | intros; apply answers_ret].
Qed.

Lemma blind_get p w rule (f : defout_impl -> M unit) msgs :
  (forall r s l,
     f (set_logger l (set_out (Some s) (set_non_default_rule r w))) = f w) ->
  blind p w rule (f w) msgs -> blind p w rule (get ≫= f) msgs.
Proof.
  intros Hf (t & Hp & H). exists t. split; [exact Hp|].
  intros r s l. unfold mbind, M_bind, get. rewrite Hf. apply H.
Qed.

Lemma blind_speaks_bind {A} w rule (m : M A) (f : A -> M unit) msgs :
  speaks m -> (forall a, blind EmptyString w rule (f a) msgs) ->
  blind EmptyString w rule (m ≫= f) msgs.
Proof.
  intros (a & t1 & Hm) Hf. destruct (Hf a) as (t2 & _ & H).
  exists (t1 +:+ t2). split; [apply prefix_nil|].
  intros r.
  apply (runs_bind _ (set_non_default_rule r w) _ m f a tt t1 [] t2 msgs).
  - apply Hm.
  - apply H.
Qed.

Lemma blind_from_fprintf p w rule text (k : M unit) msgs :
  String.prefix p text = true ->
  blind EmptyString w rule k msgs -> blind p w rule (fprintf text ;; k) msgs.
Proof.
  intros Hp (t & _ & H). exists (text +:+ t).
  split; [now apply prefix_append|].
  intros r.
  apply (runs_bind _ (set_non_default_rule r w) _ (fprintf text)
           (fun _ => k) tt tt text [] t msgs).
  - apply performs_runs, performs_fprintf.
  - apply H.
Qed.

(** From the assignment to [_non_default_rule] on, the rule that was
    current before does not matter. *)
Lemma blind_reset w rule (k : M unit) msgs :
  (exists t, performs (set_non_default_rule rule w) k t msgs) ->
  blind EmptyString w rule (modify (set_non_default_rule rule) ;; k) msgs.
Proof.
  intros [t H]. exists t. split; [apply prefix_nil|].
  intros r s l. unfold mbind, M_bind, modify. apply (H s l).
Qed.

Lemma writeNet_blind (defdist : Z -> Z) wts w net :
  blind "    - " w (net_ndr net) (writeNet defdist wts net) [].
Proof.
  unfold writeNet.
  apply blind_get; [intros; reflexivity | cbv beta].
  apply blind_from_fprintf; [apply prefix_self_append|].
  apply blind_speaks_bind; [repeat speaks_step | intros i].
  apply blind_speaks_bind; [repeat speaks_step | intros _].
  apply blind_speaks_bind; [repeat speaks_step | intros _].
  apply blind_speaks_bind; [repeat speaks_step | intros _].
  apply blind_reset.
  change (prints (set_non_default_rule (net_ndr net) w)
            (match net_ndr net with
             | Some r => fprintf (" + NONDEFAULTRULE " +:+ ndr_name r)
             | None => mret tt
             end ;;
             match net_wire net with
             | Some wire => writeWire defdist wts wire
             | None => mret tt
             end ;;
             writeSource (net_source net) true ;;
             when (net_fixed_bump net) (fprintf " + FIXEDBUMP") ;;
             when (negb (net_weight net =? 1))
               (fprintf (" + WEIGHT " +:+ fmt_d (net_weight net))) ;;
             writePropertyClause (net_props net) NET ;;
             fprintf (" ;" +:+ nl))).
  repeat first [ apply prints_writeWire | apply prints_writeSource
               | apply prints_writePropertyClause | prints_step ].
Qed.

Lemma set_non_default_rule_same w :
  set_non_default_rule (_non_default_rule w) w = w.
Proof. now destruct w. Qed.

Lemma open_form w s :
  _out w = Some s -> w = set_logger (_logger w) (set_out (Some s) w).
Proof. destruct w. simpl. now intros ->. Qed.

(** Property X17.  The record of a net does not depend on the net that was written
    before it: [writeNet] sets the current rule before the wire is
    written, so on an open stream it does the same whatever rule the
    writer held. *)
Theorem net_record_ignores_the_previous_rule :
  forall (defdist : Z -> Z) (wts : dbWireType -> string) net w r,
    _out w <> None ->
    writeNet defdist wts net (set_non_default_rule r w)
    = writeNet defdist wts net w /\
    exists text,
      String.prefix "    - " text = true /\
      writeNet defdist wts net w
      = Ret tt (set_non_default_rule (net_ndr net) (emit text w)).
Proof.
  intros defdist wts net w r Hout.
  destruct (writeNet_blind defdist wts w net) as (t & Hp & H).
  destruct (_out w) as [s|] eqn:Es; [|congruence].
  assert (Hw : writeNet defdist wts net w
               = Ret tt (set_non_default_rule (net_ndr net) (emit t w))).
  { pose proof (H (_non_default_rule w) s (_logger w)) as E.
    rewrite set_non_default_rule_same in E.
    rewrite <- (open_form w s Es) in E. rewrite E.
    destruct w. simpl in *. subst. unfold emit. simpl.
    now rewrite app_nil_r. }
  split; [|exists t; split; [exact Hp | exact Hw]].
  rewrite Hw.
  pose proof (H r s (_logger w)) as E.
  assert (Er : set_logger (_logger w)
                 (set_out (Some s) (set_non_default_rule r w))
               = set_non_default_rule r w).
  { destruct w. simpl in *. now subst. }
  rewrite Er in E. rewrite E.
  destruct w. simpl in *. subst. unfold emit. simpl.
  now rewrite app_nil_r.
Qed.

(** ** The two net sections *)

Lemma performs_log_then w (m k : M unit) t1 t2 msgs :
  performs w m t1 msgs -> performs w k t2 [] ->
  performs w (m ;; k) (t1 +:+ t2) msgs.
Proof.
  intros Hm Hk.
  pose proof (performs_bind w m k t1 msgs t2 [] Hm Hk) as H.
  now rewrite app_nil_r in H.
Qed.

Lemma prints_after {A} w (m : M A) a (k : A -> M unit) :
  (forall w', m w' = Ret a w') -> prints w (k a) -> prints w (m ≫= k).
Proof.
  intros H [t Ht]. exists t. intros s l.
  unfold mbind, M_bind. rewrite H. apply Ht.
Qed.

(** Once its centre line is defined, a path only prints. *)
Lemma prints_writeSpecialPath (defdist : Z -> Z) sts w box :
  path_defined box -> prints w (writeSpecialPath defdist sts box).
Proof.
  intros [g Hg]. unfold writeSpecialPath.
  apply prints_get; [intros; reflexivity | cbv beta zeta].
  apply (prints_after w _ g); [exact Hg|].
  destruct g as [[[[wd x1] y1] x2] y2]. prints_all.
Qed.

Lemma prints_writeSpecialVia (defdist : Z -> Z) sts w box vname bottom :
  prints w (writeSpecialVia defdist sts box vname bottom).
Proof. unfold writeSpecialVia. prints_all. Qed.

Lemma prints_for_each_from_in {A} w (l : list A) body :
  (forall x i, x ∈ l -> prints w (body x i)) ->
  forall cnt, prints w (for_each_from cnt l body).
Proof.
  induction l as [|x l IH]; intros H cnt; simpl.
  - apply prints_ret.
  - apply prints_bind.
    + apply H, elem_of_cons. now left.
    + apply IH. intros y i Hy. apply H, elem_of_cons. now right.
Qed.

(** A special wire whose paths are defined prints, and logs the warning
    of a shield without a net. *)
Lemma performs_writeSWire (defdist : Z -> Z) sts w wire :
  (forall box, box ∈ swire_wires wire -> sbox_is_via box = false ->
               path_defined box) ->
  exists t, performs w (writeSWire defdist sts wire) t (shieldWarning wire).
Proof.
  intros Hd. unfold writeSWire.
  assert (Hh : exists t,
            performs w
              (match swire_type wire with
               | WT_COVER => fprintf (nl +:+ "      + COVER")
               | WT_FIXED => fprintf (nl +:+ "      + FIXED")
               | WT_ROUTED => fprintf (nl +:+ "      + ROUTED")
               | WT_SHIELD =>
                   match swire_shield wire with
                   | Some n => fprintf (nl +:+ "      + SHIELD " +:+ n)
                   | None =>
                       warn "warning: missing shield net" ;;
                       fprintf (nl +:+ "      + ROUTED")
                   end
               | _ => fprintf (nl +:+ "      + ROUTED")
               end) t (shieldWarning wire)).
  { unfold shieldWarning.
    destruct (swire_type wire); try (eexists; apply performs_fprintf).
    destruct (swire_shield wire); [eexists; apply performs_fprintf|].
    eexists.
    apply (performs_bind w _ _ _ _ _ _ (performs_warn w _)
             (performs_fprintf w _)). }
  destruct Hh as [th Hh].
  assert (Hb : prints w
            (for_each_from 0 (swire_wires wire) (fun box i =>
               when (0 <? i) (fprintf (nl +:+ "      NEW")) ;;
               if negb (sbox_is_via box)
               then writeSpecialPath defdist sts box
               else
                 match sbox_via box with
                 | Some (SB_TECH_VIA v) =>
                     writeSpecialVia defdist sts box (tvia_name v)
                       (tvia_bottom v)
                 | Some (SB_BLOCK_VIA v) =>
                     writeSpecialVia defdist sts box (via_name v)
                       (via_bottom v)
                 | None => mret tt
                 end))).
  { apply prints_for_each_from_in. intros box i Hin.
    apply prints_bind; [prints_all|].
    destruct (sbox_is_via box) eqn:Ev; simpl.
    - destruct (sbox_via box) as [[v|v]|];
        first [apply prints_writeSpecialVia | apply prints_ret].
    - apply prints_writeSpecialPath. now apply Hd. }
  destruct Hb as [tb Hb].
  exists (th +:+ tb). apply (performs_log_then w _ _ _ _ _ Hh Hb).
Qed.

Lemma performs_for_each_log {A} w (l : list A) (body : A -> M unit)
    (msgs : A -> list string) :
  (forall x, x ∈ l -> exists t, performs w (body x) t (msgs x)) ->
  exists t, performs w (for_each l body) t (concat (map msgs l)).
Proof.
  induction l as [|x l IH]; intros H; simpl.
  - eexists. apply performs_ret.
  - destruct (H x) as [t1 H1]; [apply elem_of_cons; now left|].
    destruct IH as [t2 H2].
    { intros y Hy. apply H, elem_of_cons. now right. }
    exists (t1 +:+ t2). apply (performs_bind w _ _ _ _ _ _ H1 H2).
Qed.

Lemma writeSNet_blind (defdist : Z -> Z) sts w net :
  wires_defined net ->
  blind "    - " w None (writeSNet defdist sts net) (shieldWarnings net).
Proof.
  intros Hd. unfold writeSNet.
  apply blind_get; [intros; reflexivity | cbv beta].
  apply blind_from_fprintf; [apply prefix_self_append|].
  apply blind_speaks_bind; [repeat speaks_step | intros i].
  apply blind_speaks_bind.
  { apply speaks_fold_M. intros [j wild_names] iterm. repeat speaks_step. }
  intros _.
  apply blind_speaks_bind; [repeat speaks_step | intros _].
  apply blind_reset.
  destruct (performs_for_each_log (set_non_default_rule None w)
              (net_swires net) (writeSWire defdist sts) shieldWarning)
    as [t1 H1].
  { intros wire Hin. apply performs_writeSWire.
    intros box Hb Hv. exact (Hd wire box Hin Hb Hv). }
  assert (H2 : prints (set_non_default_rule None w)
            (writeSource (net_source net) false ;;
             when (net_fixed_bump net) (fprintf " + FIXEDBUMP") ;;
             when (negb (net_weight net =? 1))
               (fprintf (" + WEIGHT " +:+ fmt_d (net_weight net))) ;;
             writePropertyClause (net_props net) SPECIALNET ;;
             fprintf (" ;" +:+ nl))).
  { repeat first [ apply prints_writeSource
                 | apply prints_writePropertyClause | prints_step ]. }
  destruct H2 as [t2 H2].
  exists (t1 +:+ t2). apply (performs_log_then _ _ _ _ _ _ H1 H2).
Qed.

Lemma runs_get {A} w w' (f : defout_impl -> M A) a text msgs :
  (forall s l, f (set_logger l (set_out (Some s) w)) = f w) ->
  runs w w' (f w) a text msgs -> runs w w' (get ≫= f) a text msgs.
Proof.
  intros Hf H s l. unfold mbind, M_bind, get. rewrite Hf. apply H.
Qed.

Lemma runs_eq {A} w w' (m : M A) a t t' msgs msgs' :
  runs w w' m a t msgs -> t = t' -> msgs = msgs' -> runs w w' m a t' msgs'.
Proof. now intros H <- <-. Qed.

Lemma runs_fprintf w text : runs w w (fprintf text) tt text [].
Proof. apply performs_runs, performs_fprintf. Qed.

(** A loop over nets that skips some and writes a record for each of the
    others, every record leaving its own rule behind. *)
Lemma for_each_blind {A} w (l : list A) (keep : A -> bool)
    (body : A -> M unit) (R : A -> string -> Prop)
    (rule : A -> option dbTechNonDefaultRule) (msgs : A -> list string) :
  (forall x, x ∈ l -> keep x = false ->
             forall w', performs w' (body x) EmptyString []) ->
  (forall x, x ∈ l -> keep x = true ->
             exists t, R x t /\
               forall r, runs (set_non_default_rule r w)
                           (set_non_default_rule (rule x) w) (body x) tt t
                           (msgs x)) ->
  exists records,
    Forall2 R (List.filter keep l) records /\
    forall r, exists r',
      runs (set_non_default_rule r w) (set_non_default_rule r' w)
        (for_each l body) tt (joined records)
        (concat (map msgs (List.filter keep l))).
Proof.
  induction l as [|x l IH]; intros Hskip Hkeep.
  - exists []. split; [constructor|]. intros r. exists r.
    apply performs_runs, performs_ret.
  - destruct IH as (records & HR & Hl).
    { intros y Hy. apply Hskip, elem_of_cons. now right. }
    { intros y Hy. apply Hkeep, elem_of_cons. now right. }
    cbn [List.filter for_each]. destruct (keep x) eqn:E.
    + destruct (Hkeep x) as (t & Ht & Hx);
        [apply elem_of_cons; now left | exact E |].
      exists (t :: records). split; [now constructor|].
      intros r. destruct (Hl (rule x)) as [r' Hr']. exists r'.
      eapply runs_eq;
        [eapply runs_bind; [exact (Hx r) | exact Hr'] | reflexivity
        | reflexivity].
    + exists records. split; [exact HR|].
      intros r. destruct (Hl r) as [r' Hr']. exists r'.
      assert (Hx : runs (set_non_default_rule r w) (set_non_default_rule r w)
                     (body x) tt EmptyString []).
      { apply performs_runs, Hskip; [apply elem_of_cons; now left | exact E]. }
      eapply runs_eq;
        [eapply runs_bind; [exact Hx | exact Hr'] | reflexivity
        | reflexivity].
Qed.

Lemma concat_map_nil {A B} (l : list A) :
  concat (map (fun _ : A => @nil B) l) = [].
Proof. induction l as [|x l IH]; [reflexivity | exact IH]. Qed.

(** A section of nets: header, loop and footer. *)
Lemma runs_section w w1 w2 (m : M unit) header footer text msgs :
  runs w1 w2 m tt text msgs ->
  w1 = w -> 
  runs w w2 (fprintf header ;; m ;; fprintf footer)
    tt (header +:+ text +:+ footer) msgs.
Proof.
  intros H <-.
  eapply runs_eq.
  - eapply (runs_bind w1 w1 w2); [apply runs_fprintf|].
    eapply (runs_bind w1 w2 w2); [exact H | apply runs_fprintf].
  - reflexivity.
  - simpl. now rewrite app_nil_r.
Qed.

(** The two sections of [writeNets] from the loops: what is declared and
    what is written, the regular nets being the ones the counting pass
    marked. *)
Lemma writeNets_sections (defdist : Z -> Z) (wts : dbWireType -> string)
    (sts : dbWireShapeType -> string) block w :
  (forall net, net ∈ block_nets block -> net_special net = true ->
               wires_defined net) ->
  let sorted := sortedSet net_name (block_nets block) in
  let passes net := negb (net_skipped w (net_id net)) in
  let special :=
    List.filter (fun net => passes net && net_special net) sorted in
  exists regular_net snets nets rule,
    (NoDup (map net_id sorted) ->
     forall net, net ∈ sorted -> passes net = true ->
       (dbMap_get regular_net (net_id net) =? 1) = isRegular net) /\
    Forall2 (snet_record defdist sts w) special snets /\
    Forall2 (net_record defdist wts w)
      (List.filter (fun net =>
         passes net && (dbMap_get regular_net (net_id net) =? 1)) sorted)
      nets /\
    runs w (set_non_default_rule rule w)
      (writeNets defdist wts sts block) tt
      (match snets with
       | [] => EmptyString
       | _ :: _ =>
           "SPECIALNETS " +:+ fmt_d (Z.of_nat (length snets)) +:+ " ;"
           +:+ nl +:+ joined snets +:+ "END SPECIALNETS" +:+ nl
       end
       +:+ "NETS "
       +:+ fmt_d (Z.of_nat (length (List.filter (fun net =>
                    passes net && isRegular net) sorted)))
       +:+ " ;" +:+ nl +:+ joined nets +:+ "END NETS" +:+ nl)
      (concat (map shieldWarnings special)).
Proof.
  intros Hdef sorted passes special.
  assert (Hin : forall net, net ∈ sorted -> net ∈ block_nets block).
  { intros net H. subst sorted.
    now rewrite (sortedSet_Permutation net_name (block_nets block)) in H. }
  destruct (countNets_fold w sorted ∅ 0 0) as (regular_net & EC & _ & HM).
  rewrite !Z.add_0_l in EC. rewrite <- countNets_countStep in EC.
  (* the loop of the special nets *)
  destruct (for_each_blind w sorted
              (fun net => passes net && net_special net)
              (fun net => if net_skipped w (net_id net) then mret tt
                          else when (net_special net)
                                 (writeSNet defdist sts net))
              (snet_record defdist sts w) (fun _ => None) shieldWarnings)
    as (snets & HS & LS).
  { intros net _ E w'. subst passes. cbv beta in E.
    destruct (net_skipped w (net_id net)); [apply performs_ret|].
    simpl in E. rewrite E. apply performs_ret. }
  { intros net Hs E. subst passes. cbv beta in E.
    apply andb_true_iff in E as [E1 E2]. apply negb_true_iff in E1.
    rewrite E1, E2.
    destruct (writeSNet_blind defdist sts w net) as (t & Hp & Ht).
    { apply Hdef; [now apply Hin | exact E2]. }
    exists t. split; [split; assumption | exact Ht]. }
  (* the loop of the regular nets *)
  destruct (for_each_blind w sorted
              (fun net => passes net
                          && (dbMap_get regular_net (net_id net) =? 1))
              (fun net => if net_skipped w (net_id net) then mret tt
                          else when (dbMap_get regular_net (net_id net) =? 1)
                                 (writeNet defdist wts net))
              (net_record defdist wts w) net_ndr (fun _ => []))
    as (nets & HN & LN).
  { intros net Hs E w'. subst passes. cbv beta in *.
    destruct (net_skipped w (net_id net)); [apply performs_ret|].
    simpl in E. rewrite E. apply performs_ret. }
  { intros net Hs E. subst passes. cbv beta in *.
    apply andb_true_iff in E as [E1 E2].
    apply negb_true_iff in E1. rewrite E1, E2.
    destruct (writeNet_blind defdist wts w net) as (t & Hp & Ht).
    exists t. split; [split; assumption | exact Ht]. }
  rewrite concat_map_nil in LN.
  fold special in HS, LS.
  (* the special section *)
  assert (SS : exists r1,
            runs w (set_non_default_rule r1 w)
              (when (0 <? Z.of_nat (length special))
                 (fprintf ("SPECIALNETS " +:+ fmt_d (Z.of_nat (length special))
                           +:+ " ;" +:+ nl) ;;
                  for_each sorted (fun net =>
                    if net_skipped w (net_id net) then mret tt
                    else when (net_special net) (writeSNet defdist sts net)) ;;
                  fprintf ("END SPECIALNETS" +:+ nl)))
              tt
              (match snets with
               | [] => EmptyString
               | _ :: _ =>
                   "SPECIALNETS " +:+ fmt_d (Z.of_nat (length snets)) +:+ " ;"
                   +:+ nl +:+ joined snets +:+ "END SPECIALNETS" +:+ nl
               end)
              (concat (map shieldWarnings special))).
  { rewrite (Forall2_length _ _ _ HS).
    destruct HS as [|net t special' snets' Ht HS'].
    - exists (_non_default_rule w). rewrite set_non_default_rule_same.
      apply performs_runs, performs_ret.
    - destruct (LS (_non_default_rule w)) as [r1 L1]. exists r1.
      cbn [length]. rewrite Nat2Z.inj_succ.
      replace (0 <? Z.succ (Z.of_nat (length snets'))) with true
        by (symmetry; apply Z.ltb_lt; lia).
      unfold when. rewrite <- Nat2Z.inj_succ.
      eapply runs_eq.
      + eapply runs_section; [exact L1|].
        apply set_non_default_rule_same.
      + now rewrite !append_assoc_s.
      + reflexivity. }
  destruct SS as [r1 SS].
  destruct (LN r1) as [r2 L2].
  exists regular_net, snets, nets, r2.
  split.
  { intros Hnd net Hs Hp. apply negb_true_iff in Hp.
    unfold dbMap_get. rewrite (HM Hnd net Hs Hp). simpl.
    now destruct (isRegular net). }
  split; [exact HS|]. split; [exact HN|].
  unfold writeNets.
  apply runs_get; [intros; reflexivity | cbv beta zeta].
  fold sorted. rewrite EC.
  change (List.filter (fun net => negb (net_skipped w (net_id net))
                                  && net_special net) sorted) with special.
  eapply runs_eq.
  - eapply runs_bind; [exact SS|].
    eapply runs_section; [exact L2 | reflexivity].
  - now rewrite !append_assoc_s.
  - now rewrite app_nil_r.
Qed.

(** Property X16.  The two net sections, on nets with distinct ids whose special wires
    have defined paths: [SPECIALNETS] declares the special nets that pass
    the net filter and [NETS] the regular ones that pass it, and each
    section holds one record for each net it declares, in the order of the
    names; a special net with a terminal that is not special has a record
    in both.  Without a special net to write there is no [SPECIALNETS]
    section.  Only the warnings of shields without a net are logged, and
    of the writer only the current rule changes. *)
Theorem writeNets_counts_match :
  forall (defdist : Z -> Z) (wts : dbWireType -> string)
         (sts : dbWireShapeType -> string) block w,
    NoDup (map net_id (block_nets block)) ->
    (forall net, net ∈ block_nets block -> net_special net = true ->
                 wires_defined net) ->
    let sorted := sortedSet net_name (block_nets block) in
    let passes net := negb (net_skipped w (net_id net)) in
    let special :=
      List.filter (fun net => passes net && net_special net) sorted in
    let regular :=
      List.filter (fun net => passes net && isRegular net) sorted in
    exists snets nets rule,
      Forall2 (snet_record defdist sts w) special snets /\
      Forall2 (net_record defdist wts w) regular nets /\
      runs w (set_non_default_rule rule w)
        (writeNets defdist wts sts block) tt
        (match snets with
         | [] => EmptyString
         | _ :: _ =>
             "SPECIALNETS " +:+ fmt_d (Z.of_nat (length snets)) +:+ " ;"
             +:+ nl +:+ joined snets +:+ "END SPECIALNETS" +:+ nl
         end
         +:+ "NETS " +:+ fmt_d (Z.of_nat (length nets)) +:+ " ;" +:+ nl
         +:+ joined nets +:+ "END NETS" +:+ nl)
        (concat (map shieldWarnings special)).
Proof.
  intros defdist wts sts block w Hnd Hdef sorted passes special regular.
  destruct (writeNets_sections defdist wts sts block w Hdef)
    as (regular_net & snets & nets & rule & Hmark & HS & HN & Hr).
  fold sorted passes in Hmark, HS, HN, Hr.
  assert (Hnd' : NoDup (map net_id sorted)).
  { subst sorted.
    now rewrite (sortedSet_Permutation net_name (block_nets block)). }
  assert (HF : List.filter (fun net =>
                 passes net && (dbMap_get regular_net (net_id net) =? 1))
                 sorted = regular).
  { subst regular. apply filter_ext_in. intros net Hs.
    destruct (passes net) eqn:Hp; [|reflexivity]. simpl.
    apply (Hmark Hnd'); [now apply list_elem_of_In | exact Hp]. }
  assert (HN' : Forall2 (net_record defdist wts w) regular nets)
    by (rewrite <- HF; exact HN).
  exists snets, nets, rule. split; [exact HS|]. split; [exact HN'|].
  rewrite <- (Forall2_length _ _ _ HN'). exact Hr.
Qed.

(** ** The whole document *)

Lemma prints_from_prints p w (m : M unit) : prints_from p w m -> prints w m.
Proof. intros (t & _ & H). now exists t. Qed.

Lemma prefix_split p : forall t,
  String.prefix p t = true -> exists rest, t = p +:+ rest.
Proof.
  induction p as [|c p IH]; intros t H.
  - now exists t.
  - destruct t as [|c' t]; [discriminate|]. simpl in H.
    destruct (ascii_dec c c') as [->|]; [|discriminate].
    destruct (IH t H) as [rest ->]. now exists rest.
Qed.

Lemma prints_writeHeader block w :
  prints_from (versionLine (_version w)) w (writeHeader block).
Proof.
  unfold writeHeader.
  apply prints_from_get; [intros; reflexivity | cbv beta].
  apply prints_from_bind.
  - apply prints_from_fprintf.
    rewrite <- (append_nil_r_s (versionLine (_version w))) at 2.
    apply prefix_self_append.
  - prints_all.
Qed.

Lemma prints_writeDieArea (defdist : Z -> Z) block w :
  block_die_area block <> DIE_POLYGON [] ->
  prints w (writeDieArea defdist block).
Proof.
  intros Hne. unfold writeDieArea.
  destruct (block_die_area block) as [r|[|p points]];
    [prints_all | now destruct Hne | prints_all].
Qed.

Lemma prints_writeInsts (defdist : Z -> Z) block w :
  prints w (writeInsts defdist block).
Proof.
  unfold writeInsts.
  repeat first [ apply (prints_from_prints _ _ _ (prints_writeInst defdist _ _))
               | prints_step ].
Qed.

Lemma prints_writePinProperties block w :
  prints w (writePinProperties block).
Proof.
  unfold writePinProperties, writeProperties, writePropValue. prints_all.
Qed.

(** The pins section prints, and logs a warning for pins without a net
    only. *)
Lemma performs_writeBTerms (defdist : Z -> Z) block w :
  exists t msgs,
    performs w (writeBTerms defdist block) t msgs /\
    Forall (fun msg => exists bterm,
              bterm ∈ block_bterms block /\ hasNet bterm = false /\
              msg = noNetWarning bterm) msgs.
Proof.
  unfold writeBTerms. cbv zeta.
  destruct (block_bterms block) as [|b bs] eqn:Eb.
  { exists EmptyString, []. split; [apply performs_ret | constructor]. }
  rewrite <- Eb.
  set (msgs := fun bterm =>
                 if negb (bterm_skipped w bterm) && negb (hasNet bterm)
                 then [noNetWarning bterm] else []).
  destruct (performs_for_each_log w (sortedSet bterm_name (block_bterms block))
              (fun bterm => if bterm_skipped w bterm then mret tt
                            else writeBTerm defdist bterm) msgs)
    as [t Ht].
  { intros bterm _. subst msgs. cbv beta.
    destruct (bterm_skipped w bterm); simpl;
      [eexists; apply performs_ret|].
    destruct (hasNet bterm) eqn:E; simpl.
    - destruct (prints_writeBTerm defdist w bterm E) as (t & _ & Ht).
      now exists t.
    - eexists. now apply writeBTerm_no_net. }
  eexists _, _. split.
  - apply performs_get; [intros; reflexivity | cbv beta].
    apply performs_section. exact Ht.
  - apply Forall_concat, Forall_fmap, Forall_forall. intros bterm Hin.
    subst msgs. cbv beta. simpl.
    destruct (negb (bterm_skipped w bterm) && negb (hasNet bterm)) eqn:E;
      [|constructor].
    apply andb_true_iff in E as [_ E]. apply negb_true_iff in E.
    constructor; [|constructor]. exists bterm. split; [|auto].
    now rewrite (sortedSet_Permutation bterm_name (block_bterms block)) in Hin.
Qed.

Lemma performs_writeNets (defdist : Z -> Z) wts sts block w :
  (forall net, net ∈ block_nets block -> net_special net = true ->
               wires_defined net) ->
  exists rule t msgs,
    runs w (set_non_default_rule rule w)
      (writeNets defdist wts sts block) tt t msgs /\
    Forall (fun msg => msg = "warning: missing shield net") msgs.
Proof.
  intros Hdef.
  destruct (writeNets_sections defdist wts sts block w Hdef)
    as (regular_net & snets & nets & rule & _ & _ & _ & Hr).
  exists rule. eexists _, _. split; [exact Hr|].
  apply Forall_concat, Forall_fmap, Forall_forall. intros net _.
  unfold shieldWarnings. simpl.
  apply Forall_concat, Forall_fmap, Forall_forall. intros wire _.
  unfold shieldWarning. simpl.
  destruct (swire_type wire); try constructor.
  destruct (swire_shield wire); repeat constructor.
Qed.

Lemma selection_version w : _version (selection w) = _version w.
Proof.
  change (_version (without_maps (selection w)) = _version (without_maps w)).
  now rewrite selection_without_maps.
Qed.

Lemma opened_form w s :
  set_out (Some s) w = set_logger (_logger w) (set_out (Some s) w).
Proof. now destruct w. Qed.

Lemma answers_fold_M {A S} w (body : S -> A -> M S) (l : list A) :
  (forall s x, answers w (body s x)) -> forall s, answers w (fold_M l s body).
Proof.
  intros H. induction l as [|x l IH]; intros s; simpl.
  - apply answers_ret.
  - apply answers_bind; [apply H | exact IH].
Qed.

Ltac prints_section :=
  repeat first [ apply prints_writePropertyClause | prints_step ].

Lemma prints_writeRows (defdist : Z -> Z) rows w :
  prints w (writeRows defdist rows).
Proof. unfold writeRows. prints_section. Qed.

Lemma prints_writeTracks (defdist : Z -> Z) grids w :
  prints w (writeTracks defdist grids).
Proof. unfold writeTracks, writeTrackPattern. prints_all. Qed.

Lemma prints_writeGCells (defdist : Z -> Z) grid w :
  prints w (writeGCells defdist grid).
Proof. unfold writeGCells, writeGCellPattern. prints_all. Qed.

Lemma prints_writeVias (defdist : Z -> Z) vias w :
  prints w (writeVias defdist vias).
Proof.
  unfold writeVias.
  repeat first [ apply (prints_from_prints _ _ _ (prints_writeVia defdist _ _))
               | prints_step ].
Qed.

Lemma prints_writeNonDefaultRules (defdist : Z -> Z) rules w :
  prints w (writeNonDefaultRules defdist rules).
Proof.
  unfold writeNonDefaultRules, writeNonDefaultRule, writeLayerRule,
    writeProperties, writePropValue.
  prints_all.
Qed.

Lemma prints_writeRegions (defdist : Z -> Z) regions w :
  prints w (writeRegions defdist regions).
Proof.
  unfold writeRegions.
  repeat first
    [ apply (prints_from_prints _ _ _ (prints_writeRegion defdist _ _))
    | prints_step ].
Qed.

Lemma prints_writeComponentMaskShift layers w :
  prints w (writeComponentMaskShift layers).
Proof. unfold writeComponentMaskShift. prints_all. Qed.

Lemma prints_writeBlockages (defdist : Z -> Z) rect_lt layerNumber std_sort
    obstructions blockages w :
  prints w (writeBlockages defdist rect_lt layerNumber std_sort obstructions
              blockages).
Proof.
  unfold writeBlockages, writeBlockageRecords. cbv zeta.
  destruct (_ =? 0); [apply prints_ret|].
  apply prints_answers.
  apply answers_bind.
  { apply answers_fold_M. intros first obs.
    repeat first
      [ apply answers_prints, (prints_from_prints _ _ _
                                 (prints_writeObstruction defdist _ _))
      | answers_step ]. }
  intros first. apply answers_bind.
  { apply answers_fold_M. intros first' blk.
    repeat first
      [ apply answers_prints, (prints_from_prints _ _ _
                                 (prints_writeBlockage defdist _ _))
      | answers_step ]. }
  intros first'. repeat answers_step.
Qed.

Lemma prints_writeFills (defdist : Z -> Z) fills w :
  prints w (writeFills defdist fills).
Proof.
  unfold writeFills.
  repeat first
    [ apply (prints_from_prints _ _ _ (prints_writeFill defdist _ _))
    | prints_step ].
Qed.

Lemma prints_writeGroups groups w : prints w (writeGroups groups).
Proof.
  unfold writeGroups.
  repeat first [ apply (prints_from_prints _ _ _ (prints_writeGroup _ _))
               | prints_step ].
Qed.

Lemma prints_writeScanChains chains w : prints w (writeScanChains chains).
Proof.
  unfold writeScanChains, writeScanPartition.
  repeat first [ apply prints_writeScanLists | prints_step ].
Qed.

(** Steps of a pass that ends with the text [tail]. *)
Lemma chain_runs w w1 w' (m : M unit) (k : M bool) tail t l1 msgs :
  runs w w1 m tt t l1 ->
  (exists body, runs w1 w' k true (body +:+ tail) msgs) ->
  exists body, runs w w' (m ;; k) true (body +:+ tail) (l1 ++ msgs).
Proof.
  intros Hm [body Hk]. exists (t +:+ body).
  eapply runs_eq.
  - eapply runs_bind; [exact Hm | exact Hk].
  - now rewrite append_assoc_s.
  - reflexivity.
Qed.

Lemma chain_prints w w' (m : M unit) (k : M bool) tail msgs :
  prints w m ->
  (exists body, runs w w' k true (body +:+ tail) msgs) ->
  exists body, runs w w' (m ;; k) true (body +:+ tail) msgs.
Proof.
  intros [t Hm] Hk.
  apply (chain_runs w w w' m k tail t [] msgs); [|exact Hk].
  now apply performs_runs.
Qed.

(** The sections of a document after the stream was opened. *)
Lemma document_runs (defdist : Z -> Z) wts sts rect_lt layerNumber std_sort
    block rest w :
  block_die_area block <> DIE_POLYGON [] ->
  (forall net, net ∈ block_nets block -> net_special net = true ->
               wires_defined net) ->
  exists w' body pins shields,
    runs w w'
      (writeHeader block ;;
       writePropertyDefinitions block ;;
       writeDieArea defdist block ;;
       writeRows defdist (block_rows rest) ;;
       writeTracks defdist (block_track_grids rest) ;;
       writeGCells defdist (block_gcell_grid rest) ;;
       writeVias defdist (block_vias rest) ;;
       writeNonDefaultRules defdist (block_non_default_rules rest) ;;
       writeRegions defdist (block_regions rest) ;;
       (v ← get;
        when (version_eq (_version v) DEF_5_8)
          (writeComponentMaskShift (block_component_mask_shift rest))) ;;
       writeInsts defdist block ;;
       writeBTerms defdist block ;;
       writePinProperties block ;;
       writeBlockages defdist rect_lt layerNumber std_sort
         (block_obstructions rest) (block_blockages rest) ;;
       writeFills defdist (block_fills rest) ;;
       writeNets defdist wts sts block ;;
       writeGroups (block_groups rest) ;;
       writeScanChains (block_scan_chains rest) ;;
       fprintf ("END DESIGN" +:+ nl) ;;
       mret true)
      true
      (versionLine (_version w) +:+ body +:+ "END DESIGN" +:+ nl)
      (pins ++ shields) /\
    Forall (fun msg => exists bterm,
              bterm ∈ block_bterms block /\ hasNet bterm = false /\
              msg = noNetWarning bterm) pins /\
    Forall (fun msg => msg = "warning: missing shield net") shields.
Proof.
  intros Hdie Hdef.
  destruct (prints_writeHeader block w) as (th & Hp & H1).
  apply prefix_split in Hp as [rest1 ->].
  destruct (registering_writePropertyDefinitions block w)
    as (w1 & t2 & H2 & _).
  destruct (performs_writeBTerms defdist block w1) as (t5 & pins & H5 & P5).
  destruct (performs_writeNets defdist wts sts block w1 Hdef)
    as (rule & t7 & shields & H7 & P7).
  set (w2 := set_non_default_rule rule w1) in *.
  assert (E : exists body,
            runs w w2
              (writePropertyDefinitions block ;;
               writeDieArea defdist block ;;
               writeRows defdist (block_rows rest) ;;
               writeTracks defdist (block_track_grids rest) ;;
               writeGCells defdist (block_gcell_grid rest) ;;
               writeVias defdist (block_vias rest) ;;
               writeNonDefaultRules defdist (block_non_default_rules rest) ;;
               writeRegions defdist (block_regions rest) ;;
               (v ← get;
                when (version_eq (_version v) DEF_5_8)
                  (writeComponentMaskShift
                     (block_component_mask_shift rest))) ;;
               writeInsts defdist block ;;
               writeBTerms defdist block ;;
               writePinProperties block ;;
               writeBlockages defdist rect_lt layerNumber std_sort
                 (block_obstructions rest) (block_blockages rest) ;;
               writeFills defdist (block_fills rest) ;;
               writeNets defdist wts sts block ;;
               writeGroups (block_groups rest) ;;
               writeScanChains (block_scan_chains rest) ;;
               fprintf ("END DESIGN" +:+ nl) ;;
               mret true)
              true (body +:+ "END DESIGN" +:+ nl)
              ([] ++ pins ++ shields ++ [])).
  { apply (chain_runs w w1 _ _ _ _ _ [] _ H2).
    apply chain_prints; [apply prints_writeDieArea, Hdie|].
    apply chain_prints; [apply prints_writeRows|].
    apply chain_prints; [apply prints_writeTracks|].
    apply chain_prints; [apply prints_writeGCells|].
    apply chain_prints; [apply prints_writeVias|].
    apply chain_prints; [apply prints_writeNonDefaultRules|].
    apply chain_prints; [apply prints_writeRegions|].
    apply chain_prints.
    { repeat first [apply prints_writeComponentMaskShift | prints_step]. }
    apply chain_prints; [apply prints_writeInsts|].
    apply (chain_runs w1 w1 _ _ _ _ _ pins _
             (proj1 (performs_runs _ _ _ _) H5)).
    apply chain_prints; [apply prints_writePinProperties|].
    apply chain_prints; [apply prints_writeBlockages|].
    apply chain_prints; [apply prints_writeFills|].
    apply (chain_runs w1 w2 _ _ _ _ _ shields _ H7).
    apply chain_prints; [apply prints_writeGroups|].
    apply chain_prints; [apply prints_writeScanChains|].
    exists EmptyString.
    eapply runs_eq.
    - eapply (runs_bind w2 w2); [apply runs_fprintf|].
      apply (yields_ret _ true).
    - now rewrite append_nil_r_s.
    - reflexivity. }
  destruct E as [body E].
  exists w2, (rest1 +:+ body), pins, shields.
  split; [|split; [exact P5 | exact P7]].
  eapply runs_eq.
  - eapply (runs_bind w w); [apply performs_runs; exact H1 | exact E].
  - now rewrite !append_assoc_s.
  - simpl. now rewrite app_nil_r.
Qed.

(** Property X20.  A pass to a destination that can be opened, on a block whose die area
    is not a polygon without points and whose special wires have defined
    paths, returns true and leaves a complete document
    in the stream: it starts with the version line and ends with
    [END DESIGN].  The pass logs the warning of each pin without a net
    that it meets and of each shield without a net, and nothing else. *)
Theorem writeBlock_writes_a_complete_document :
  forall (defdist : Z -> Z) (wts : dbWireType -> string)
         (sts : dbWireShapeType -> string)
         (rect_lt : Rect -> Rect -> bool) (layerNumber : dbTechLayer -> Z)
         (std_sort : forall T : Type, (T -> T -> bool) -> list T -> list T)
         (writable : string -> bool) block rest def_file w,
    writable def_file = true ->
    block_die_area block <> DIE_POLYGON [] ->
    (forall net, net ∈ block_nets block -> net_special net = true ->
                 wires_defined net) ->
    exists w' body pins shields,
      Full.writeBlock defdist wts sts rect_lt layerNumber std_sort writable
        block rest def_file w = Ret true w' /\
      _out w'
      = Some (versionLine (_version w) +:+ body +:+ "END DESIGN" +:+ nl) /\
      _logger w' = (_logger w ++ pins ++ shields)%list /\
      Forall (fun msg => exists bterm,
                bterm ∈ block_bterms block /\ hasNet bterm = false /\
                msg = noNetWarning bterm) pins /\
      Forall (fun msg => msg = "warning: missing shield net") shields.
Proof.
  intros defdist wts sts rect_lt layerNumber std_sort writable block rest
         def_file w Hw Hdie Hdef.
  destruct (document_runs defdist wts sts rect_lt layerNumber std_sort block
              rest (selection w) Hdie Hdef)
    as (w' & body & pins & shields & Hr & Hp & Hs).
  rewrite selection_version in Hr.
  eexists _, body, pins, shields.
  split; [|split; [|split; [|split; [exact Hp | exact Hs]]]].
  - unfold Full.writeBlock.
    rewrite (bind_Ret _ _ _ _ _ (buildSelection_eq w)).
    unfold openFile. rewrite Hw.
    rewrite (bind_Ret _ _ _ tt (set_out (Some EmptyString) (selection w)))
      by reflexivity.
    rewrite (bind_Ret _ _ _ (set_out (Some EmptyString) (selection w))
               (set_out (Some EmptyString) (selection w))) by reflexivity.
    change (_out (set_out (Some EmptyString) (selection w)))
      with (Some EmptyString).
    cbv iota.
    rewrite (bind_Ret _ _ _ tt (set_out (Some EmptyString) (selection w)))
      by reflexivity.
    rewrite (opened_form (selection w) EmptyString).
    apply Hr.
  - reflexivity.
  - simpl. now rewrite selection_logger.
Qed.

(** Over a polygon without points the loop of the die area reads past the
    end of the vector: the pass stops after [DIEAREA ] and returns
    nothing. *)
Example pointless_polygon_stops_the_pass :
  let r := Full.writeBlock unitDist wireTypeKeyword shapeTypeKeyword
             ex_rect_lt (fun _ => 0) ex_std_sort (fun _ => true)
             ex_pointless_block no_rest "top.def"
             (new_writer DEF_5_8 false false false) in
  match r with Abort e _ => e = OutOfRange | Ret _ _ => False end /\
  written r
  = versionLine DEF_5_8 +:+ "NAMESCASESENSITIVE ON ;" +:+ nl
    +:+ "DIVIDERCHAR " +:+ dquote +:+ "/" +:+ dquote
    +:+ " ;" +:+ nl +:+ "BUSBITCHARS " +:+ dquote +:+ "[]" +:+ dquote
    +:+ " ;" +:+ nl +:+ "DESIGN top ;" +:+ nl
    +:+ "UNITS DISTANCE MICRONS 1000 ;" +:+ nl +:+ "DIEAREA ".
Proof. vm_compute. split; reflexivity. Qed.









Lemma bind_ext {A B} (m : M A) (f g : A -> M B) w :
  (forall a w', f a w' = g a w') -> (m ≫= f) w = (m ≫= g) w.
Proof.
  intros H. unfold mbind, M_bind. destruct (m w); [apply H | reflexivity].
Qed.

(** Property X22.  For a block without rows, grids, block vias, non-default rules,
    regions, a component mask shift, blockages, fills, groups and scan
    chains, the sections of these objects write nothing, whatever the
    version: the pass is the pass over the header, the property
    definitions, the die area, the components, the pins, the pin
    properties and the nets, on every writer and destination. *)
Theorem writeBlock_without_other_objects :
  forall (defdist : Z -> Z) (wts : dbWireType -> string)
         (sts : dbWireShapeType -> string)
         (rect_lt : Rect -> Rect -> bool) (layerNumber : dbTechLayer -> Z)
         (std_sort : forall T : Type, (T -> T -> bool) -> list T -> list T)
         (writable : string -> bool) block def_file w,
    Full.writeBlock defdist wts sts rect_lt layerNumber std_sort writable
      block no_rest def_file w
    = writeBlock defdist wts sts writable block def_file w.
Proof.
  intros defdist wts sts rect_lt layerNumber std_sort writable block
         def_file w.
  unfold Full.writeBlock, writeBlock.
  apply bind_ext; intros [] w1.
  apply bind_ext; intros [] w2.
  apply bind_ext; intros w3 w4.
  destruct (_out w3); [|reflexivity].
  apply bind_ext; intros [] w5.
  apply bind_ext; intros [] w6.
  apply bind_ext; intros [] w7.
  apply bind_ext; intros [] w8.
  assert (Hms : forall (k : M bool) w',
            ((v ← get;
              when (version_eq (_version v) DEF_5_8)
                (writeComponentMaskShift
                   (block_component_mask_shift no_rest))) ;; k) w'
            = k w').
  { intros k w'. unfold mbind, M_bind, get.
    destruct (version_eq (_version w') DEF_5_8); reflexivity. }
  change (((v ← get;
            when (version_eq (_version v) DEF_5_8)
              (writeComponentMaskShift (block_component_mask_shift no_rest))) ;;
           writeInsts defdist block ;;
           writeBTerms defdist block ;;
           writePinProperties block ;;
           writeNets defdist wts sts block ;;
           fprintf ("END DESIGN" +:+ nl) ;;
           mret true) w8
          = (writeInsts defdist block ;;
             writeBTerms defdist block ;;
             writePinProperties block ;;
             writeNets defdist wts sts block ;;
             fprintf ("END DESIGN" +:+ nl) ;;
             mret true) w8).
  apply Hms.
Qed.

(** ** Pin properties *)

Lemma performs_writeProperties w props :
  performs w (writeProperties props) (propertiesText props) [].
Proof.
  intros s l. rewrite writeProperties_eq by discriminate.
  unfold emit. simpl. now rewrite app_nil_r.
Qed.

Lemma for_each_when_text {A} w (l : list A) (c : A -> bool)
    (body : A -> M unit) (text : A -> string) :
  (forall x, performs w (body x) (text x) []) ->
  performs w (for_each l (fun x => when (c x) (body x)))
    (joined (map text (List.filter c l))) [].
Proof.
  intros H. induction l as [|x l IH]; simpl; [apply performs_ret|].
  destruct (c x); simpl.
  - apply (performs_then w _ _ _ _ (H x) IH).
  - apply (performs_then w _ _ EmptyString _ (performs_ret w) IH).
Qed.

(** Property X8.  [PINPROPERTIES] declares the pins and the instance terminals that
    have a registered property, and writes one record for each of them,
    the pins first.  A record lists every property of its object, the
    registered and the others.  Without such an object there is no
    section. *)
Theorem writePinProperties_count_matches :
  forall block w,
    let has {T} (props : T -> list dbProperty) :=
      List.filter (fun x => hasProperties w (props x) COMPONENTPIN) in
    let pins := map pinPropertiesText (has bterm_props (block_bterms block)) in
    let terms :=
      map termPropertiesText (has iterm_props (block_iterms block)) in
    performs w (writePinProperties block)
      (match (pins ++ terms)%list with
       | [] => EmptyString
       | _ :: _ =>
           "PINPROPERTIES "
           +:+ fmt_d (Z.of_nat (length (pins ++ terms)%list)) +:+ " ;" +:+ nl
           +:+ joined (pins ++ terms) +:+ "END PINPROPERTIES" +:+ nl
       end) [].
Proof.
  intros block w has pins terms.
  unfold writePinProperties.
  apply performs_get; [intros; reflexivity | cbv beta zeta].
  rewrite (count_fold_keep
             (fun bterm => hasProperties w (bterm_props bterm) COMPONENTPIN)),
          (count_fold_keep
             (fun iterm => hasProperties w (iterm_props iterm) COMPONENTPIN)).
  assert (Hn : 0 + Z.of_nat (length (has _ bterm_props (block_bterms block)))
               + Z.of_nat (length (has _ iterm_props (block_iterms block)))
               = Z.of_nat (length (pins ++ terms)%list)).
  { subst pins terms. rewrite length_app, !length_map. lia. }
  subst has. cbv beta in *. rewrite Hn. rewrite length_zero_nil.
  destruct (pins ++ terms)%list as [|r rs] eqn:E; [apply performs_ret|].
  rewrite <- E. rewrite joined_app.
  eapply performs_text.
  - eapply performs_then; [apply performs_fprintf|].
    eapply performs_then.
    { apply (for_each_when_text w (block_bterms block)
               (fun bterm => hasProperties w (bterm_props bterm) COMPONENTPIN)
               _ pinPropertiesText).
      intros bterm. unfold pinPropertiesText.
      eapply performs_text.
      - eapply performs_then; [apply performs_fprintf|].
        eapply performs_then; [apply performs_writeProperties|].
        apply performs_fprintf.
      - now rewrite !append_assoc_s. }
    eapply performs_then; [|apply performs_fprintf].
    apply (for_each_when_text w (block_iterms block)
             (fun iterm => hasProperties w (iterm_props iterm) COMPONENTPIN)
             _ termPropertiesText).
    intros iterm. unfold termPropertiesText.
    eapply performs_text.
    + eapply performs_then; [apply performs_fprintf|].
      eapply performs_then; [apply performs_writeProperties|].
      apply performs_fprintf.
    + now rewrite !append_assoc_s.
  - now rewrite !append_assoc_s.
Qed.

(** ** The further properties at concrete inputs *)

Lemma ex_rail_block_wires_defined :
  forall net, net ∈ block_nets ex_rail_block -> net_special net = true ->
              wires_defined net.
Proof.
  intros net Hin Hs.
  apply elem_of_cons in Hin as [->|Hin]; [discriminate Hs|].
  apply elem_of_cons in Hin as [->|Hin]; [|now apply elem_of_nil in Hin].
  intros wire box Hw Hb _.
  apply elem_of_cons in Hw as [->|Hw]; [|now apply elem_of_nil in Hw].
  apply elem_of_cons in Hb as [->|Hb]; [|now apply elem_of_nil in Hb].
  exists (6, 0, 3, 100, 3). intros w. reflexivity.
Defined.

Lemma ex_rail_block_ids : NoDup (map net_id (block_nets ex_rail_block)).
Proof.
  apply NoDup_cons. split.
  - intros H. apply elem_of_cons in H as [H|H]; [discriminate H|].
    now apply elem_of_nil in H.
  - apply NoDup_cons. split; [apply not_elem_of_nil | apply NoDup_nil_2].
Defined.

Lemma sortedSet_order_independent_witness :
  NoDup (map inst_name [ex_u0; ex_u1]) /\
  [ex_u0; ex_u1] ≡ₚ [ex_u1; ex_u0] /\
  sortedSet inst_name [ex_u0; ex_u1] = sortedSet inst_name [ex_u1; ex_u0].
Proof.
  assert (Hnd : NoDup (map inst_name [ex_u0; ex_u1])).
  { apply NoDup_cons. split.
    - intros H. apply elem_of_cons in H as [H|H]; [discriminate H|].
      now apply elem_of_nil in H.
    - apply NoDup_cons. split; [apply not_elem_of_nil | apply NoDup_nil_2]. }
  assert (Hp : [ex_u0; ex_u1] ≡ₚ [ex_u1; ex_u0]) by apply perm_swap.
  split; [exact Hnd|]. split; [exact Hp|].
  exact (sortedSet_order_independent inst_name [ex_u0; ex_u1] [ex_u1; ex_u0]
           Hnd Hp).
Defined.

Lemma countNets_counts_what_is_written_witness :
  NoDup (map net_id (block_nets ex_rail_block)) /\
  exists regular_net,
    countNets ex_open_writer (block_nets ex_rail_block)
    = (regular_net, 1, 1) /\
    (dbMap_get regular_net (net_id ex_n1) =? 1) = true /\
    (dbMap_get regular_net (net_id ex_ground_net) =? 1) = false.
Proof.
  split; [exact ex_rail_block_ids|].
  destruct (countNets_counts_what_is_written ex_open_writer
              (block_nets ex_rail_block) ex_rail_block_ids)
    as (regular_net & E & Hm).
  exists regular_net.
  assert (H1 : (dbMap_get regular_net (net_id ex_n1) =? 1) = true).
  { apply (Hm ex_n1); [apply elem_of_cons; now left | reflexivity]. }
  assert (H2 : (dbMap_get regular_net (net_id ex_ground_net) =? 1) = false).
  { apply (Hm ex_ground_net); [|reflexivity].
    apply elem_of_cons. right. apply elem_of_cons. now left. }
  split; [|split; [exact H1 | exact H2]].
  rewrite E. cbn [block_nets ex_rail_block List.filter].
  rewrite H1, H2. reflexivity.
Defined.

Lemma unwalked_selection_filters_no_instance_witness :
  let w := selectNet (Some ex_ground_net)
             (new_writer DEF_5_8 false false false) in
  _select_inst_map w = None /\
  _select_inst_list w = [] /\
  _select_net_list w <> [] /\
  walked ex_ground_net = false /\
  exists w',
    buildSelection w = Ret tt w' /\
    net_skipped w' (net_id ex_ground_net) = false /\
    net_skipped w' (net_id ex_n1) = true /\
    inst_skipped w' ex_u0 = false /\
    inst_skipped w' ex_u1 = false.
Proof.
  intros w.
  assert (Hn : _select_net_list w <> []) by discriminate.
  assert (Hw : forall net, net ∈ _select_net_list w -> walked net = false).
  { intros net H. apply elem_of_cons in H as [->|H]; [reflexivity|].
    now apply elem_of_nil in H. }
  split; [reflexivity|]. split; [reflexivity|]. split; [exact Hn|].
  split; [reflexivity|].
  destruct (unwalked_selection_filters_no_instance w eq_refl eq_refl Hn Hw)
    as (w' & Hb & Hnets & Hinsts).
  exists w'. split; [exact Hb|]. split; [|split; [|split]].
  - apply Hnets. apply elem_of_cons. now left.
  - destruct (net_skipped w' (net_id ex_n1)) eqn:E; [reflexivity|].
    apply Hnets in E.
    apply elem_of_cons in E as [E|E]; [discriminate E|].
    now apply elem_of_nil in E.
  - apply Hinsts.
  - apply Hinsts.
Defined.

Lemma directed_rectangle_collapses_its_own_axis_witness :
  sbox_direction ex_rail_box = HORIZONTAL /\
  specialPathGeometry ex_rail_box ex_open_writer
  = Ret (6, 0, 3, 100, 3) ex_open_writer.
Proof.
  split; [reflexivity|].
  assert (H : -2 ^ 31 <= 0 /\ 0 <= 100 /\ 100 < 2 ^ 31 /\ 0 <= 6
              /\ 6 < 2 ^ 31) by lia.
  destruct H as (H1 & H2 & H3 & H4 & H5).
  exact (proj1 (directed_rectangle_collapses_its_own_axis
                  unitDist shapeTypeKeyword ex_rail_box ex_open_writer
                  H1 H2 H3 H1 H4 H5)
               eq_refl).
Defined.


Lemma net_record_ignores_the_previous_rule_witness :
  _out ex_open_writer <> None /\
  writeNet unitDist wireTypeKeyword ex_n1
    (set_non_default_rule (Some ex_R1) ex_open_writer)
  = writeNet unitDist wireTypeKeyword ex_n1 ex_open_writer.
Proof.
  assert (Hout : _out ex_open_writer <> None) by discriminate.
  split; [exact Hout|].
  exact (proj1 (net_record_ignores_the_previous_rule unitDist wireTypeKeyword
                  ex_n1 ex_open_writer (Some ex_R1) Hout)).
Defined.

Lemma writeNets_counts_match_witness :
  NoDup (map net_id (block_nets ex_rail_block)) /\
  (forall net, net ∈ block_nets ex_rail_block -> net_special net = true ->
               wires_defined net) /\
  exists snet net rule,
    runs ex_open_writer (set_non_default_rule rule ex_open_writer)
      (writeNets unitDist wireTypeKeyword shapeTypeKeyword ex_rail_block) tt
      (("SPECIALNETS 1 ;" +:+ nl +:+ joined [snet] +:+ "END SPECIALNETS"
        +:+ nl)
       +:+ "NETS 1 ;" +:+ nl +:+ joined [net] +:+ "END NETS" +:+ nl) [].
Proof.
  split; [exact ex_rail_block_ids|].
  split; [exact ex_rail_block_wires_defined|].
  destruct (writeNets_counts_match unitDist wireTypeKeyword shapeTypeKeyword
              ex_rail_block ex_open_writer ex_rail_block_ids
              ex_rail_block_wires_defined)
    as (snets & nets & rule & HS & HN & Hr).
  apply Forall2_length in HS. apply Forall2_length in HN.
  vm_compute in HS. vm_compute in HN.
  destruct snets as [|snet [|]]; try discriminate HS.
  destruct nets as [|net [|]]; try discriminate HN.
  exists snet, net, rule. exact Hr.
Defined.

Lemma writeBlock_writes_a_complete_document_witness :
  (fun _ : string => true) "top.def" = true /\
  block_die_area ex_rail_block <> DIE_POLYGON [] /\
  (forall net, net ∈ block_nets ex_rail_block -> net_special net = true ->
               wires_defined net) /\
  exists w' body,
    Full.writeBlock unitDist wireTypeKeyword shapeTypeKeyword
      ex_rect_lt (fun _ => 0) ex_std_sort (fun _ => true)
      ex_rail_block ex_rest "top.def" (new_writer DEF_5_8 false false false)
    = Ret true w' /\
    _out w' = Some (versionLine DEF_5_8 +:+ body +:+ "END DESIGN" +:+ nl).
Proof.
  assert (Hdie : block_die_area ex_rail_block <> DIE_POLYGON [])
    by discriminate.
  split; [reflexivity|]. split; [exact Hdie|].
  split; [exact ex_rail_block_wires_defined|].
  destruct (writeBlock_writes_a_complete_document unitDist wireTypeKeyword
              shapeTypeKeyword ex_rect_lt (fun _ => 0) ex_std_sort
              (fun _ => true) ex_rail_block ex_rest "top.def"
              (new_writer DEF_5_8 false false false) eq_refl Hdie
              ex_rail_block_wires_defined)
    as (w' & body & pins & shields & Hr & Ho & _).
  exists w', body. split; [exact Hr | exact Ho].
Defined.


Lemma ex_std_sort_permutes T lt (l : list T) : ex_std_sort T lt l ≡ₚ l.
Proof. apply merge_sort_Permutation. Qed.

Lemma writeBlockages_declares_every_blockage_witness :
  (forall T lt (l : list T), ex_std_sort T lt l ≡ₚ l) /\
  exists layers placements,
    length layers = 2%nat /\ length placements = 1%nat /\
    performs ex_open_writer
      (writeBlockages unitDist ex_rect_lt (fun _ => 0) ex_std_sort
         ex_obstructions ex_blockages)
      ("BLOCKAGES 3 ;" +:+ nl +:+ joined (layers ++ placements)
       +:+ "END BLOCKAGES" +:+ nl) [].
Proof.
  split; [exact ex_std_sort_permutes|].
  destruct (writeBlockages_declares_every_blockage unitDist ex_rect_lt
              (fun _ => 0) ex_std_sort ex_obstructions ex_blockages
              ex_open_writer ex_std_sort_permutes)
    as (layers & placements & _ & _ & LL & LP & Hp).
  exists layers, placements.
  split; [exact LL|]. split; [exact LP|].
  destruct layers as [|layer layers]; [discriminate LL|].
  exact Hp.
Defined.
